(** * go-id3: a shallow embedding of the ID3v2 tag codec

    The source file [id3.go] holds two snapshots of the package.  The
    first one (package [id3]) is the current tag reader and save engine;
    the second one (package [main]) is the older single-file program, which
    still carries the frame types, their [size]/[WriteTo] methods and the
    Latin-1 codec that the current snapshot keeps in files of their own.
    Every definition below names the function it embeds.

    Conventions:
    - a Go [byte] is a [Byte.byte]; arithmetic on bytes goes through
      [byte_to_Z] and [byte_of_Z], the latter reducing modulo 256;
    - a Go [int] is a [Z]; every shift below is applied to a masked operand,
      so no 64-bit wrap-around can occur (see [synchsafeInt_range]);
    - a Go [string] is a [string] (a sequence of 8-bit characters), a
      [[]byte] is a [list byte];
    - a run-time panic is an explicit outcome, never an omitted case. *)

From Stdlib Require Import ZArith List Lia Bool.
From Stdlib Require Import Strings.Byte Strings.Ascii Strings.String.
From stdpp Require Import base option list gmap strings fin_maps.

Import ListNotations.
Local Open Scope Z_scope.

(** ** Bytes *)

Abbreviation byte := Corelib.Init.Byte.byte.

Definition byte_to_Z (b : byte) : Z := Z.of_N (Byte.to_N b).

(** The conversion [byte(x)] of Go: the low eight bits of [x]. *)
Definition byte_of_Z (z : Z) : byte :=
  match Byte.of_N (Z.to_N (z mod 256)) with
  | Some b => b
  | None => Byte.x00
  end.

#[global] Instance byte_eq_dec : EqDecision byte := Byte.byte_eq_dec.

Definition len {A} (l : list A) : Z := Z.of_nat (length l).

(** [s[lo:hi]] on a slice, for [lo <= hi <= len s]. *)
Definition slice {A} (s : list A) (lo hi : nat) : list A :=
  firstn (hi - lo) (skipn lo s).

(** ** Synchsafe integers (current snapshot) *)

(** [desynchsafeInt(b [4]byte) int] *)
Definition desynchsafeInt (b : byte * byte * byte * byte) : Z :=
  let '(b0, b1, b2, b3) := b in
  Z.lor (Z.lor (Z.lor (Z.shiftl (byte_to_Z b0) 21)
                      (Z.shiftl (byte_to_Z b1) 14))
               (Z.shiftl (byte_to_Z b2) 7))
        (byte_to_Z b3).

(** [synchsafeInt(i int) int] *)
Definition synchsafeInt (i : Z) : Z :=
  Z.lor (Z.lor (Z.lor (Z.land i 0x7f)
                      (Z.shiftl (Z.land i 0x3f80) 1))
               (Z.shiftl (Z.land i 0x1fc000) 2))
        (Z.shiftl (Z.land i 0xfe0000) 3).

(** [intToBytes(i int) []byte].  In Go [&] and [>>] have the same
    precedence and associate to the left, so [i & 0xff000000 >> 24] is
    [(i & 0xff000000) >> 24]. *)
Definition intToBytes (i : Z) : list byte :=
  [ byte_of_Z (Z.shiftr (Z.land i 0xff000000) 24);
    byte_of_Z (Z.shiftr (Z.land i 0xff0000) 16);
    byte_of_Z (Z.shiftr (Z.land i 0xff00) 8);
    byte_of_Z (Z.land i 0xff) ].

(** Filling a [[4]byte] field from four bytes of input, as [binary.Read]
    does for the size field of a header. *)
Definition array4 (l : list byte) : option (byte * byte * byte * byte) :=
  match l with
  | [b0; b1; b2; b3] => Some (b0, b1, b2, b3)
  | _ => None
  end.

(** Decoding the four size bytes that [intToBytes (synchsafeInt x)] emits. *)
Definition decodeSynchsafe (l : list byte) : option Z :=
  desynchsafeInt <$> array4 l.

Definition encodeSynchsafe (x : Z) : list byte := intToBytes (synchsafeInt x).

(** ** Latin-1 codec (older snapshot) *)

Definition byte_leb (b : byte) (k : Z) : bool := byte_to_Z b <=? k.
Definition byte_geb (b : byte) (k : Z) : bool := k <=? byte_to_Z b.
Definition byte_is (b : byte) (k : Z) : bool := byte_to_Z b =? k.

(** One iteration of the loop of [iso88591ToUTF8]. *)
Definition iso88591ToUTF8_step (b : byte) : list byte :=
  if byte_leb b 128 then [b]
  else if byte_geb b 192 then [byte_of_Z 195; byte_of_Z (byte_to_Z b - 64)]
  else [byte_of_Z 194; b].

(** [iso88591ToUTF8(input []byte) []byte] *)
Definition iso88591ToUTF8 (input : list byte) : list byte :=
  flat_map iso88591ToUTF8_step input.

(** [utf8ToISO88591(input []byte) []byte]; [None] is the index-out-of-range
    panic of [input[j+1]] when a byte above 128 ends the input. *)
Fixpoint utf8ToISO88591 (input : list byte) : option (list byte) :=
  match input with
  | [] => Some []
  | b :: rest =>
      if byte_leb b 128 then cons b <$> utf8ToISO88591 rest
      else
        match rest with
        | [] => None
        | c :: rest' =>
            let r := if byte_is b 195 then byte_of_Z (byte_to_Z c + 64) else c in
            cons r <$> utf8ToISO88591 rest'
        end
  end.

(** The UTF-8 encoding of a code point of the Latin-1 block, the code point
    given as the byte of that value: one byte below U+0080, the two bytes
    [110000xx 10xxxxxx] from U+0080 to U+00FF. *)
Definition utf8_of_latin1_point (c : byte) : list byte :=
  if byte_to_Z c <? 128 then [c]
  else [byte_of_Z (Z.lor 0xC0 (Z.shiftr (byte_to_Z c) 6));
        byte_of_Z (Z.lor 0x80 (Z.land (byte_to_Z c) 0x3F))].

(** A string representable in Latin-1, as the UTF-8 bytes Go holds. *)
Definition utf8_of_latin1 (s : list byte) : list byte :=
  flat_map utf8_of_latin1_point s.

(** Every byte, for properties decided on each of the 256 of them. *)
Definition all_bytes : list byte :=
  map (λ n, byte_of_Z (Z.of_nat n)) (seq 0 256).

(** The check that [utf8ToISO88591] maps the encoding of one code point
    back to that code point, as a boolean so that it can be run on every
    byte. *)
Definition point_check (c : byte) : bool :=
  match utf8_of_latin1_point c with
  | [b] => byte_leb b 128 && bool_decide (b = c)
  | [b; c2] =>
      negb (byte_leb b 128)
      && bool_decide
           ((if byte_is b 195 then byte_of_Z (byte_to_Z c2 + 64) else c2) = c)
  | _ => false
  end.

(** ** Text encodings and terminator splitting (current snapshot) *)

Abbreviation Encoding := byte (only parsing).
Definition iso88591 : Encoding := Byte.x00.
Definition utf16bom : Encoding := Byte.x01.
Definition utf16be : Encoding := Byte.x02.
Definition utf8 : Encoding := Byte.x03.

Definition nul : list byte := [Byte.x00].
Definition utf16nul : list byte := [Byte.x00; Byte.x00].

(** [bytes.Index(s, nul)]: the prefix before the first NUL and the rest
    after it. *)
Fixpoint cut_nul (s : list byte) : option (list byte * list byte) :=
  match s with
  | [] => None
  | b :: rest =>
      if byte_is b 0 then Some ([], rest)
      else match cut_nul rest with
           | Some (pre, post) => Some (b :: pre, post)
           | None => None
           end
  end.

(** The loop of [bytes.SplitN] for the one-byte separator [nul], with
    [k] the number of cuts still allowed. *)
Fixpoint splitNul (k : nat) (s : list byte) : list (list byte) :=
  match k with
  | O => [s]
  | S k' =>
      match cut_nul s with
      | Some (pre, post) => pre :: splitNul k' post
      | None => [s]
      end
  end.

(** [bytes.SplitN(s, nul, n)]: nothing for [n = 0], every piece for
    [n < 0], at most [n] pieces otherwise. *)
Definition bytes_SplitN_nul (s : list byte) (n : Z) : list (list byte) :=
  if n =? 0 then []
  else if n <? 0 then splitNul (length s) s
  else splitNul (Z.to_nat (n - 1)) s.

(** The UTF-16 loop of [splitNullN].  [data] is the whole slice, [rest]
    what lies from index [i] on.  [prev] is declared with its zero value
    and never assigned, so every piece starts at index 0.  [None] is the
    index-out-of-range panic of [data[i+1]]. *)
Fixpoint splitNullN_loop (data rest : list byte) (i : nat) (n : Z)
    (matches : list (list byte)) : option (list (list byte)) :=
  let prev := 0%nat in
  match rest with
  | [] => Some matches
  | a :: rest1 =>
      if byte_is a 0 then
        match rest1 with
        | [] => None
        | b :: rest2 =>
            if byte_is b 0 then
              let matches' := matches ++ [slice data prev i] in
              if len matches' =? n - 1 then Some matches'
              else splitNullN_loop data rest2 (i + 2) n matches'
            else splitNullN_loop data rest2 (i + 2) n matches
        end
      else
        match rest1 with
        | [] => Some matches
        | _ :: rest2 => splitNullN_loop data rest2 (i + 2) n matches
        end
  end.

(** [splitNullN(data []byte, encoding Encoding, n int) [][]byte] *)
Definition splitNullN (data : list byte) (encoding : Encoding) (n : Z)
    : option (list (list byte)) :=
  if bool_decide (encoding = utf8) || bool_decide (encoding = iso88591)
  then Some (bytes_SplitN_nul data n)
  else
    let prev := 0%nat in
    match splitNullN_loop data data 0 n [] with
    | None => None
    | Some matches =>
        if Z.of_nat prev <? len data - 1
        then Some (matches ++ [skipn prev data])
        else Some matches
    end.

(** The bytes of a sequence of 16-bit code units. *)
Fixpoint units (us : list (byte * byte)) : list byte :=
  match us with
  | [] => []
  | (a, b) :: rest => a :: b :: units rest
  end.

(** ** Outcomes

    A Go call either returns or panics.  An [error] result is an ordinary
    returned value. *)

Inductive Res (A : Type) : Type :=
| Ok (a : A)
| Panic (msg : string).
Arguments Ok {A} a.
Arguments Panic {A} msg.

#[global] Instance Res_bind : MBind Res := λ A B k m,
  match m with
  | Ok a => k a
  | Panic msg => Panic msg
  end.

#[global] Instance Res_ret : MRet Res := λ A a, Ok a.

#[global] Instance Res_fmap : FMap Res := λ A B f m,
  match m with
  | Ok a => Ok (f a)
  | Panic msg => Panic msg
  end.

Definition index_out_of_range : string := "runtime error: index out of range".

(** Lifting a function that can only fail by that panic. *)
Definition or_panic {A} (o : option A) : Res A :=
  match o with
  | Some a => Ok a
  | None => Panic index_out_of_range
  end.

(** [make([]byte, n)] *)
Definition make_bytes (n : Z) : Res (list byte) :=
  if n <? 0 then Panic "runtime error: makeslice: len out of range"
  else Ok (repeat Byte.x00 (Z.to_nat n)).

(** ** Frames (types and methods of the older snapshot)

    The current snapshot declares its frame types, with their [size]
    and [Encode] methods, in a file of their own, which is not part of
    id3.go.  The frame types and their [size] and [WriteTo] below are
    those of the older snapshot (lines 1341-1608); the [frame.size()]
    and [frame.Encode(w)] of the current save engine are read as
    these.  One type differs between the snapshots: the older
    [UnsupportedFrame] holds its header only, while the current
    [readFrame] fills a field [Data].  [Data] is empty in every frame
    that the older reader builds, and the older [size] and [WriteTo]
    have no such field to look at: nothing below tells how the current
    snapshot encodes a frame with data. *)

Abbreviation FrameType := string (only parsing).

Record FrameHeader := mkFrameHeader {
  id : FrameType;
  flags : Z                     (* FrameFlags, a uint16 *)
}.

Inductive Frame : Type :=
| TextInformationFrame (h : FrameHeader) (Text : string)
| UserTextInformationFrame (h : FrameHeader) (Description Text : string)
| UniqueFileIdentifierFrame (h : FrameHeader) (Owner : string)
    (Identifier : list byte)
| URLLinkFrame (h : FrameHeader) (URL : string)
| UserDefinedURLLinkFrame (h : FrameHeader) (Description URL : string)
| CommentFrame (h : FrameHeader) (Language Description Text : string)
| UnsupportedFrame (h : FrameHeader) (Data : list byte).

Definition Frame_header (f : Frame) : FrameHeader :=
  match f with
  | TextInformationFrame h _ | UserTextInformationFrame h _ _
  | UniqueFileIdentifierFrame h _ _ | URLLinkFrame h _
  | UserDefinedURLLinkFrame h _ _ | CommentFrame h _ _ _
  | UnsupportedFrame h _ => h
  end.

(** [func (f FrameHeader) ID() FrameType] *)
Definition Frame_ID (f : Frame) : FrameType := id (Frame_header f).

Definition frameLength : Z := 10.
Definition tagHeaderSize : Z := 10.
Definition utf8byte : list byte := [utf8].

Definition bytes_of (s : string) : list byte := list_byte_of_string s.
Definition strlen (s : string) : Z := Z.of_nat (String.length s).

(** [copy(dst, src)]: the first [min (len dst) (len src)] elements of
    [dst] are overwritten. *)
Definition copy {A} (dst src : list A) : list A :=
  firstn (length dst) src ++ skipn (length src) dst.

(** [copy(dst[lo:hi], src)] seen from [dst]. *)
Definition copy_at {A} (dst : list A) (lo hi : nat) (src : list A) : list A :=
  firstn lo dst ++ copy (slice dst lo hi) src ++ skipn hi dst.

(** [func (f FrameHeader) serialize(size int) []byte] *)
Definition serialize (h : FrameHeader) (size : Z) : list byte :=
  let out := repeat Byte.x00 10 in
  let out := copy out (bytes_of (id h)) in
  let flagBytes := intToBytes (flags h) in
  let out := copy_at out 8 10 (slice flagBytes 2 4) in
  let sizeBytes := intToBytes (synchsafeInt size) in
  copy_at out 4 8 sizeBytes.

(** [size() int] of each frame type (older snapshot, lines 1506-1601).
    That of [UnsupportedFrame] is the method of a frame without
    [Data]. *)
Definition Frame_size (f : Frame) : Res Z :=
  match f with
  | TextInformationFrame h Text =>
      if bool_decide (id h = "TRDA") then Ok 0
      else Ok (frameLength + strlen Text + 1)
  | UserTextInformationFrame _ Description Text =>
      Ok (frameLength + strlen Description + strlen Text + 2)
  | UniqueFileIdentifierFrame _ Owner Identifier =>
      iso ← or_panic (utf8ToISO88591 (bytes_of Owner));
      Ok (frameLength + len Identifier + len iso + 1)
  | URLLinkFrame _ URL =>
      iso ← or_panic (utf8ToISO88591 (bytes_of URL));
      Ok (frameLength + len iso)
  | UserDefinedURLLinkFrame _ Description URL =>
      iso ← or_panic (utf8ToISO88591 (bytes_of URL));
      Ok (frameLength + strlen Description + len iso + 2)
  | CommentFrame _ _ Description Text =>
      Ok (frameLength + strlen Description + strlen Text + 5)
  | UnsupportedFrame _ _ => Ok 0
  end.

(** [WriteTo(w io.Writer)] of each frame type (older snapshot, lines
    1514-1608): the slices it hands to [writeMany], in order; no slice
    at all where the method returns without writing.  That of
    [UnsupportedFrame] is the method of a frame without [Data]. *)
Definition Frame_WriteTo (f : Frame) : Res (list (list byte)) :=
  match f with
  | TextInformationFrame h Text =>
      if bool_decide (id h = "TRDA") then Ok []
      else
        sz ← Frame_size f;
        Ok [serialize h (sz - frameLength); utf8byte; bytes_of Text]
  | UserTextInformationFrame h Description Text =>
      sz ← Frame_size f;
      Ok [serialize h (sz - frameLength); utf8byte; bytes_of Description;
          nul; bytes_of Text]
  | UniqueFileIdentifierFrame h Owner Identifier =>
      iso ← or_panic (utf8ToISO88591 (bytes_of Owner));
      sz ← Frame_size f;
      Ok [serialize h (sz - frameLength); iso; nul; Identifier]
  | URLLinkFrame h URL =>
      iso ← or_panic (utf8ToISO88591 (bytes_of URL));
      sz ← Frame_size f;
      Ok [serialize h (sz - frameLength); iso]
  | UserDefinedURLLinkFrame h Description URL =>
      iso ← or_panic (utf8ToISO88591 (bytes_of URL));
      sz ← Frame_size f;
      Ok [serialize h (sz - frameLength); utf8byte; bytes_of Description;
          nul; iso]
  | CommentFrame h Language Description Text =>
      sz ← Frame_size f;
      Ok [serialize h (sz - frameLength); utf8byte; bytes_of Language;
          bytes_of Description; nul; bytes_of Text]
  | UnsupportedFrame _ _ => Ok []
  end.

(** ** The tag and its frame store (current snapshot) *)

Record TagHeader := mkTagHeader {
  Version : Z;                  (* int16 *)
  Flags : byte;                 (* HeaderFlags *)
  Size : Z
}.

Record Tag := mkTag {
  Header : TagHeader;
  Frames : gmap string (list Frame)
}.

(** [NewTag()] *)
Definition NewTag : Tag := mkTag (mkTagHeader 0 Byte.x00 0) ∅.

Definition set_Frames (t : Tag) (fm : gmap string (list Frame)) : Tag :=
  mkTag (Header t) fm.

(** No bucket of the store is an empty slice.  [NewTag] starts from no
    bucket at all, and [Parse] and the setters store a bucket only with a
    frame in it. *)
Definition Buckets_nonempty (fm : gmap string (list Frame)) : Prop :=
  map_Forall (λ _ frames, frames <> []) fm.

(** [frameNameToUserFrame(name FrameType) (frameName string, ok bool)] *)
Definition frameNameToUserFrame (name : FrameType) : option string :=
  if strlen name <? 6 then None
  else if negb (bool_decide (substring 0 4 name = "TXXX")) then None
  else Some (substring 5 (String.length name - 5) name).

(** The [for i = range frames] loop of [setUserTextFrame]: the index at
    which it breaks, if it does.  A frame of another type in the bucket
    makes the type assertion panic. *)
Fixpoint findUserTextFrame (frames : list Frame) (name : string) (i : nat)
    : Res (option nat) :=
  match frames with
  | [] => Ok None
  | UserTextInformationFrame _ Description _ :: rest =>
      if bool_decide (Description = name) then Ok (Some i)
      else findUserTextFrame rest name (S i)
  | _ :: _ =>
      Panic "interface conversion: Frame is not UserTextInformationFrame"
  end.

(** [setUserTextFrame(name string, value string)], a method of the tag.
    [frames] shares its backing array with the slice stored in the map,
    so [frames[i] = frame] is seen through [t.Frames["TXXX"]].  [ok] is
    the result of the map lookup, reused as the flag of the loop; [i]
    keeps the last index the loop assigned. *)
Definition setUserTextFrame (t : Tag) (name value : string) : Res Tag :=
  let frame := UserTextInformationFrame (mkFrameHeader "TXXX" 0) name value in
  let '(frames, ok, fm) :=
    match Frames t !! "TXXX" with
    | Some frames => (frames, true, Frames t)
    | None => ([], false, <["TXXX" := []]> (Frames t))
    end in
  found ← findUserTextFrame frames name 0;
  let i := match found with
           | Some i => i
           | None => Nat.pred (length frames)
           end in
  let ok := ok || bool_decide (is_Some found) in
  if ok then
    if (i <? length frames)%nat
    then Ok (set_Frames t (<["TXXX" := <[i := frame]> frames]> fm))
    else Panic index_out_of_range
  else
    Ok (set_Frames t (<["TXXX" := default [] (fm !! "TXXX") ++ [frame]]> fm)).

(** [SetTextFrame(name FrameType, value string)], a method of the tag.  A fresh
    bucket is [make([]Frame, 1)], whose only slot is then assigned. *)
Definition SetTextFrame (t : Tag) (name : FrameType) (value : string)
    : Res Tag :=
  match frameNameToUserFrame name with
  | Some userFrameName => setUserTextFrame t userFrameName value
  | None =>
      let frame := TextInformationFrame (mkFrameHeader name 0) value in
      match Frames t !! name with
      | None => Ok (set_Frames t (<[name := [frame]]> (Frames t)))
      | Some [] => Panic index_out_of_range
      | Some (_ :: rest) =>
          Ok (set_Frames t (<[name := frame :: rest]> (Frames t)))
      end
  end.

(** The frame that [setUserTextFrame] builds. *)
Definition userText (description text : string) : Frame :=
  UserTextInformationFrame (mkFrameHeader "TXXX" 0) description text.

(** A frame of the bucket that the loop of [setUserTextFrame] passes
    over: a user text frame of another description. *)
Definition other_description (name : string) (f : Frame) : Prop :=
  match f with
  | UserTextInformationFrame _ Description _ => Description <> name
  | _ => False
  end.

(** [getUserTextFrame(name string) string], a method of the tag. *)
Fixpoint getUserText (frames : list Frame) (name : string) : Res string :=
  match frames with
  | [] => Ok ""%string
  | UserTextInformationFrame _ Description Text :: rest =>
      if bool_decide (Description = name) then Ok Text
      else getUserText rest name
  | _ :: _ =>
      Panic "interface conversion: Frame is not UserTextInformationFrame"
  end.

Definition getUserTextFrame (t : Tag) (name : string) : Res string :=
  match Frames t !! "TXXX" with
  | None => Ok ""%string
  | Some frames => getUserText frames name
  end.

(** ** Errors *)

Inductive error : Type :=
| EOF                                   (* io.EOF *)
| ErrUnexpectedEOF                      (* io.ErrUnexpectedEOF *)
| NotAFrameHeader (headerBytes : list byte)
| notATagHeader (Magic : list byte)
| UnsupportedVersion (v : Z)
| ErrNoExtendedHeader
| ErrNoUnsynchronizedTag
| IOError (code : nat).                 (* an error of the storage *)

#[global] Instance error_eq_dec : EqDecision error.
Proof. solve_decision. Defined.

(** ** Readers

    A reader is what is left of the file and, for an [io.LimitedReader],
    the count [N] of bytes it may still deliver.  The file delivers what
    a [Read] asks for as far as it has it. *)

Record Reader := mkReader {
  rest : list byte;
  N : option Z
}.

Definition advance (r : Reader) (k : nat) : Reader :=
  mkReader (skipn k (rest r)) ((λ n, n - Z.of_nat k) <$> N r).

(** [io.LimitReader(r, n)] over a reader without a limit of its own. *)
Definition LimitReader (r : Reader) (n : Z) : Reader :=
  mkReader (rest r) (Some n).

(** One call [r.Read(p)] with [len(p) = n]: the bytes stored into [p]
    and the error.  A limited reader whose count is used up returns
    [io.EOF] at once; a file asked for no byte returns [0, nil]; a file
    at its end returns [0, io.EOF]. *)
Definition Read (r : Reader) (n : nat) : (list byte * option error) * Reader :=
  let used_up := match N r with Some k => k <=? 0 | None => false end in
  if used_up then (([], Some EOF), r)
  else
    let k := match N r with
             | Some lim => Nat.min n (Z.to_nat lim)
             | None => n
             end in
    match k, rest r with
    | O, _ => (([], None), r)
    | _, [] => (([], Some EOF), r)
    | _, _ =>
        let got := firstn k (rest r) in
        ((got, None), advance r (length got))
    end.

(** What the reader can still deliver. *)
Definition available (r : Reader) : list byte :=
  match N r with
  | Some lim => firstn (Z.to_nat lim) (rest r)
  | None => rest r
  end.

(** [io.ReadFull(r, p)] with [len(p) = n], the loop of [Read] calls run
    to its end: all [n] bytes, or [io.EOF] when nothing could be read,
    or [io.ErrUnexpectedEOF] after a short read. *)
Definition ReadFull (r : Reader) (n : nat)
    : (list byte * option error) * Reader :=
  let a := available r in
  if (n =? 0)%nat then (([], None), r)
  else if (n <=? length a)%nat then ((firstn n a, None), advance r n)
  else match a with
       | [] => (([], Some EOF), r)
       | _ => ((a, Some ErrUnexpectedEOF), advance r (length a))
       end.

(** ** Header and frame flags *)

Definition wrap_int16 (z : Z) : Z := (z + 2 ^ 15) mod 2 ^ 16 - 2 ^ 15.
Definition wrap_uint16 (z : Z) : Z := z mod 2 ^ 16.

(** [int16(hi)<<8 | int16(lo)] *)
Definition int16_of_bytes (hi lo : byte) : Z :=
  wrap_int16 (Z.lor (wrap_int16 (Z.shiftl (byte_to_Z hi) 8)) (byte_to_Z lo)).

Definition Unsynchronisation (f : byte) : bool := 0 <? Z.land (byte_to_Z f) 128.
Definition ExtendedHeader (f : byte) : bool := 0 <? Z.land (byte_to_Z f) 64.

Definition Compressed (f : Z) : bool := 0 <? Z.land f 128.
Definition Encrypted (f : Z) : bool := 0 <? Z.land f 64.
Definition Grouped (f : Z) : bool := 0 <? Z.land f 32.

Definition zeroTagHeader : TagHeader := mkTagHeader 0 Byte.x00 0.

(** [readHeader(r io.Reader) (header TagHeader, err error)] *)
Definition readHeader (r : Reader) : (TagHeader * option error) * Reader :=
  let '((bs, err), r') := ReadFull r 10 in
  match err, bs with
  | Some e, _ => ((zeroTagHeader, Some e), r')
  | None, [m0; m1; m2; v0; v1; fl; s0; s1; s2; s3] =>
      if negb (bool_decide ([m0; m1; m2] = [Byte.x49; Byte.x44; Byte.x33]))
      then ((zeroTagHeader, Some (notATagHeader [m0; m1; m2])), r')
      else
        let version := int16_of_bytes v0 v1 in
        if (4 <? byte_to_Z v0) || (byte_to_Z v0 <? 3)
        then ((zeroTagHeader, Some (UnsupportedVersion version)), r')
        else ((mkTagHeader version fl (desynchsafeInt (s0, s1, s2, s3)), None), r')
  | None, _ => ((zeroTagHeader, Some ErrUnexpectedEOF), r')
  end.

(** [ParseHeader(r io.Reader) (TagHeader, error)] *)
Definition ParseHeader (r : Reader) : (TagHeader * option error) * Reader :=
  let '((header, err), r') := readHeader r in
  match err with
  | Some e => ((zeroTagHeader, Some e), r')
  | None => ((header, None), r')
  end.

(** The identifier test of [readFrame]: digits and capital letters. *)
Definition id_byte_ok (b : byte) : bool :=
  ((48 <=? byte_to_Z b) && (byte_to_Z b <=? 57))
  || ((65 <=? byte_to_Z b) && (byte_to_Z b <=? 90)).

Definition id_first_is (name : FrameType) (c : ascii) : bool :=
  match name with
  | String a _ => bool_decide (a = c)
  | EmptyString => false
  end.

Definition ReadResult : Type := (option Frame * option error) * Reader.

Section Reading.

(** [func (e Encoding) toUTF8([]byte) []byte] and the readers of the
    typed frames ([readTXXXFrame], [readWXXXFrame], [readUFIDFrame],
    [readCOMMFrame], [readPRIVFrame], [readAPICFrame], [readMCDIFrame])
    are declared in other files of the package; so is what [upgrade]
    needs of the [time] package. *)
Variable toUTF8 : Encoding -> list byte -> Res (list byte).
Variable readTyped :
  FrameType -> Reader -> FrameHeader -> Z -> Res ReadResult.
Variable upgrade : Tag -> Res Tag.

(** Which reader the [switch] of [readFrame] selects; [USLT] is read
    by [readUFIDFrame]. *)
Definition typedReader (name : FrameType) : option FrameType :=
  if bool_decide (name = "TXXX") then Some "TXXX"
  else if bool_decide (name = "WXXX") then Some "WXXX"
  else if bool_decide (name = "UFID") then Some "UFID"
  else if bool_decide (name = "COMM") then Some "COMM"
  else if bool_decide (name = "PRIV") then Some "PRIV"
  else if bool_decide (name = "APIC") then Some "APIC"
  else if bool_decide (name = "MCDI") then Some "MCDI"
  else if bool_decide (name = "USLT") then Some "UFID"
  else None.

(** The three fields of the ten bytes that [readFrame] reads into
    [headerBytes], and what it makes of them. *)
Definition headerBytes_ID (hb : list byte) : list byte := slice hb 0 4.
Definition headerBytes_Size (hb : list byte) : list byte := slice hb 4 8.
Definition headerBytes_Flags (hb : list byte) : list byte := slice hb 8 10.

(** [FrameFlags(int16(Flags[0])<<8 | int16(Flags[1]))] *)
Definition frameFlags (hb : list byte) : Z :=
  wrap_uint16 (int16_of_bytes (nth 0 (headerBytes_Flags hb) Byte.x00)
                              (nth 1 (headerBytes_Flags hb) Byte.x00)).

Definition frameHeader (hb : list byte) : FrameHeader :=
  mkFrameHeader (string_of_list_byte (headerBytes_ID hb)) (frameFlags hb).

Definition frameSize_of (hb : list byte) : Z :=
  default 0 (decodeSynchsafe (headerBytes_Size hb)).

(** The identifiers that [readFrame] hands to the text and to the
    link branch. *)
Definition is_text_id (name : FrameType) : bool :=
  id_first_is name "T" && negb (bool_decide (name = "TXXX")).
Definition is_link_id (name : FrameType) : bool :=
  id_first_is name "W" && negb (bool_decide (name = "WXXX")).

(** An identifier that [readFrame] does not recognise: no text frame,
    no link frame, none of the typed frames. *)
Definition unrecognized (name : FrameType) : bool :=
  negb (is_text_id name) && negb (is_link_id name)
  && bool_decide (typedReader name = None).

(** The part of [readFrame] after the ten header bytes were read
    without error. *)
Definition readFrame_body (headerBytes : list byte) (r : Reader)
    : Res ReadResult :=
  if bool_decide (headerBytes_ID headerBytes
                  = [Byte.x00; Byte.x00; Byte.x00; Byte.x00])
  then Ok ((None, Some EOF), r)
  else if negb (forallb id_byte_ok (headerBytes_ID headerBytes))
  then Ok ((None, Some (NotAFrameHeader headerBytes)), r)
  else
    let header := frameHeader headerBytes in
    let frameSize := frameSize_of headerBytes in
    if Compressed (flags header)
    then Panic "not implemented: cannot read compressed frame"
    else if Encrypted (flags header)
    then Panic "not implemented: cannot read encrypted frame"
    else if Grouped (flags header)
    then Panic "not implemented: cannot read grouped frame"
    else if is_text_id (id header)
    then
      _ ← make_bytes (frameSize - 1);
      let '((enc, err), r1) := ReadFull r 1 in
      match err with
      | Some e => Ok ((None, Some e), r1)
      | None =>
          let '((information, err), r2) :=
            ReadFull r1 (Z.to_nat (frameSize - 1)) in
          match err with
          | Some e => Ok ((None, Some e), r2)
          | None =>
              text ← toUTF8 (nth 0 enc Byte.x00) information;
              Ok ((Some (TextInformationFrame header
                           (string_of_list_byte text)), None), r2)
          end
      end
    else if is_link_id (id header)
    then
      let '((got, err), r1) := Read r (Z.to_nat frameSize) in
      match err with
      | Some e => Ok ((None, Some e), r1)
      | None =>
          let url := copy (repeat Byte.x00 (Z.to_nat frameSize)) got in
          text ← toUTF8 iso88591 url;
          Ok ((Some (URLLinkFrame header (string_of_list_byte text)),
               None), r1)
      end
    else
      match typedReader (id header) with
      | Some which => readTyped which r header frameSize
      | None =>
          let '((got, err), r1) := Read r (Z.to_nat frameSize) in
          Ok ((Some (UnsupportedFrame header got), err), r1)
      end.

(** [readFrame(r io.Reader) (Frame, error)] *)
Definition readFrame (r : Reader) : Res ReadResult :=
  let '((headerBytes, err), r') := ReadFull r 10 in
  match err with
  | Some ErrUnexpectedEOF => Ok ((None, Some EOF), r')
  | Some e => Ok ((None, Some e), r')
  | None => readFrame_body headerBytes r'
  end.

(** [tag.Frames[frame.ID()] = append(tag.Frames[frame.ID()], frame)] *)
Definition addFrame (fm : gmap string (list Frame)) (frame : Frame)
    : gmap string (list Frame) :=
  <[Frame_ID frame := default [] (fm !! Frame_ID frame) ++ [frame]]> fm.

(** The [for] loop of [Parse].  [inl] is the [break] on [io.EOF],
    [inr] the [return tag, err] on any other error; [None] is a loop
    that has not ended within [fuel] turns. *)
Fixpoint parseFrames (fuel : nat) (tagReader : Reader) (tag : Tag)
    : option (Res (Tag + Tag * error)) :=
  match fuel with
  | O => None
  | S fuel' =>
      match readFrame tagReader with
      | Panic msg => Some (Panic msg)
      | Ok ((_, Some EOF), _) => Some (Ok (inl tag))
      | Ok ((_, Some err), _) => Some (Ok (inr (tag, err)))
      | Ok ((None, None), _) =>
          Some (Panic "invalid memory address or nil pointer dereference")
      | Ok ((Some frame, None), r') =>
          parseFrames fuel' r' (set_Frames tag (addFrame (Frames tag) frame))
      end
  end.

(** The frames that [n] calls of [readFrame] in a row return, each
    without error, and the reader they leave. *)
Fixpoint readFrames (n : nat) (r : Reader) : option (list Frame * Reader) :=
  match n with
  | O => Some ([], r)
  | S n' =>
      match readFrame r with
      | Ok ((Some frame, None), r') =>
          match readFrames n' r' with
          | Some (frames, r'') => Some (frame :: frames, r'')
          | None => None
          end
      | _ => None
      end
  end.

(** [Parse(r io.Reader)], which returns a tag pointer and an error;
    the first component is [None] where the pointer is nil. *)
Definition Parse (fuel : nat) (input : list byte)
    : option (Res (option Tag * option error)) :=
  let r := mkReader input None in
  let tag := NewTag in
  let '((header, err), r) := ParseHeader r in
  match err with
  | Some e => Some (Ok (Some tag, Some e))
  | None =>
      let tag := mkTag header (Frames tag) in
      if ExtendedHeader (Flags header)
      then Some (Ok (None, Some ErrNoExtendedHeader))
      else if Unsynchronisation (Flags header)
      then Some (Ok (None, Some ErrNoUnsynchronizedTag))
      else
        let tagReader := LimitReader r (Size header + tagHeaderSize) in
        match parseFrames fuel tagReader tag with
        | None => None
        | Some (Panic msg) => Some (Panic msg)
        | Some (Ok (inr (tag, err))) => Some (Ok (Some tag, Some err))
        | Some (Ok (inl tag)) =>
            if Version header <? 0x0400
            then Some (tag ← upgrade tag; Ok (Some tag, None))
            else Some (Ok (Some tag, None))
        end
  end.

End Reading.

(** The frames of [fs] that carry the identifier [k], in their order. *)
Definition frames_of_ID (k : FrameType) (fs : list Frame) : list Frame :=
  filter (λ f, Frame_ID f = k) fs.

(** The bucket that a store holding the frames [fs], and no other, has
    under [k]: none where no frame carries [k]. *)
Definition bucket_of (k : FrameType) (fs : list Frame) : option (list Frame) :=
  match frames_of_ID k fs with
  | [] => None
  | bucket => Some bucket
  end.

(** ** Storage

    The state that the save engine works on: the file [f.f] with its
    offset, the temporary file of [saveNew] while it exists, the
    [bytes.Buffer] of [saveNew], and the outcome of the storage
    operations still to come ([None]: the operation succeeds; [Some k]:
    it fails, a write after [k] of its bytes, a read after delivering
    [k] bytes; past the end of the list every operation succeeds). *)

Record World := mkWorld {
  disk : list byte;
  pos : nat;
  temp : option (list byte * nat);
  buffer : list byte;
  faults : list (option nat)
}.

Definition IO (A : Type) : Type := World -> Res (A * World).

#[global] Instance IO_bind : MBind IO := λ A B k m w,
  match m w with
  | Ok (a, w') => k a w'
  | Panic msg => Panic msg
  end.

#[global] Instance IO_ret : MRet IO := λ A a w, Ok (a, w).

Definition liftRes {A} (m : Res A) : IO A := λ w,
  match m with
  | Ok a => Ok (a, w)
  | Panic msg => Panic msg
  end.

Definition storage_error : error := IOError 0.

(** The outcome of the next storage operation. *)
Definition next_fault : IO (option nat) := λ w,
  match faults w with
  | [] => Ok (None, w)
  | o :: rest => Ok (o, mkWorld (disk w) (pos w) (temp w) (buffer w) rest)
  end.

(** The contents of a file after [bs] was written at offset [off]. *)
Definition write_at (c : list byte) (off : nat) (bs : list byte) : list byte :=
  firstn off (c ++ repeat Byte.x00 (off - length c)) ++ bs
    ++ skipn (off + length bs) c.

Definition put_file (c : list byte) (off : nat) : IO unit := λ w,
  Ok (tt, mkWorld c off (temp w) (buffer w) (faults w)).

Definition put_temp (t : option (list byte * nat)) : IO unit := λ w,
  Ok (tt, mkWorld (disk w) (pos w) t (buffer w) (faults w)).

Definition put_buffer (b : list byte) : IO unit := λ w,
  Ok (tt, mkWorld (disk w) (pos w) (temp w) b (faults w)).

Definition get_world : IO World := λ w, Ok (w, w).

(** [f.f.Seek(0, 0)] *)
Definition File_Seek0 : IO (option error) :=
  o ← next_fault;
  match o with
  | Some _ => mret (Some storage_error)
  | None => w ← get_world; _ ← put_file (disk w) 0; mret None
  end.

(** [f.f.Write(bs)] *)
Definition File_Write (bs : list byte) : IO (option error) :=
  o ← next_fault;
  w ← get_world;
  match o with
  | Some k =>
      let part := firstn k bs in
      _ ← put_file (write_at (disk w) (pos w) part) (pos w + length part);
      mret (Some storage_error)
  | None =>
      _ ← put_file (write_at (disk w) (pos w) bs) (pos w + length bs);
      mret None
  end.

(** [truncate(f *os.File) error] *)
Definition truncate : IO (option error) :=
  o ← next_fault;
  match o with
  | Some _ => mret (Some storage_error)
  | None =>
      w ← get_world;
      _ ← put_file [] (pos w);
      File_Seek0
  end.

(** [ioutil.TempFile] *)
Definition TempFile : IO (option error) :=
  o ← next_fault;
  match o with
  | Some _ => mret (Some storage_error)
  | None => _ ← put_temp (Some ([], 0%nat)); mret None
  end.

(** [os.Remove(newFile.Name())], its result ignored. *)
Definition Remove : IO unit := put_temp None.

Definition Temp_Write (bs : list byte) : IO (option error) :=
  o ← next_fault;
  w ← get_world;
  let '(c, off) := default ([], 0%nat) (temp w) in
  match o with
  | Some k =>
      let part := firstn k bs in
      _ ← put_temp (Some (write_at c off part, (off + length part)%nat));
      mret (Some storage_error)
  | None =>
      _ ← put_temp (Some (write_at c off bs, (off + length bs)%nat));
      mret None
  end.

Definition Temp_Seek0 : IO (option error) :=
  o ← next_fault;
  match o with
  | Some _ => mret (Some storage_error)
  | None =>
      w ← get_world;
      let '(c, _) := default ([], 0%nat) (temp w) in
      _ ← put_temp (Some (c, 0%nat)); mret None
  end.

(** The writers and the scratch stores the save engine uses. *)
Inductive Sink : Type :=
| TheFile                               (* f.f *)
| TheTemp                               (* the temporary file *)
| TheBuffer.                            (* the bytes.Buffer *)

(** [w.Write(bs)]; a [bytes.Buffer] appends and returns no error. *)
Definition Write (w : Sink) (bs : list byte) : IO (option error) :=
  match w with
  | TheFile => File_Write bs
  | TheTemp => Temp_Write bs
  | TheBuffer => st ← get_world; _ ← put_buffer (buffer st ++ bs); mret None
  end.

(** [writeMany(w io.Writer, data ...[]byte) error] *)
Fixpoint writeMany (w : Sink) (data : list (list byte)) : IO (option error) :=
  match data with
  | [] => mret None
  | d :: data' =>
      err ← Write w d;
      match err with
      | Some e => mret (Some e)
      | None => writeMany w data'
      end
  end.

(** [frame.Encode(w)] of [FramesMap.Encode].  The method is declared
    outside id3.go; it is read as the [WriteTo] that the older snapshot
    has for the frame type, with its count dropped.  For a text frame
    that is the layout the current [readFrame] reads back; for an
    [UnsupportedFrame] it is the method of a frame without [Data]. *)
Definition Frame_Encode (w : Sink) (f : Frame) : IO (option error) :=
  data ← liftRes (Frame_WriteTo f);
  writeMany w data.

(** [generateHeader(size int) []byte] *)
Definition id3byte : list byte := [Byte.x49; Byte.x44; Byte.x33].
Definition versionByte : list byte := [Byte.x04; Byte.x00].

Definition generateHeader (size : Z) : list byte :=
  let size := synchsafeInt size in
  id3byte ++ versionByte ++ nul ++ intToBytes size.

(** The sum that [FramesMap.size] computes, over the frames of a store
    in some order. *)
Fixpoint frames_size (frames : list Frame) : Res Z :=
  match frames with
  | [] => Ok 0
  | f :: rest => a ← Frame_size f; b ← frames_size rest; Ok (a + b)
  end.

(** [func (fm FramesMap) size() int] *)
Definition FramesMap_size (fm : gmap string (list Frame)) : Res Z :=
  frames_size (concat (map_to_list fm).*2).

(** The two nested loops of [FramesMap.Encode] over the frames in the
    order visited. *)
Fixpoint frames_Encode (w : Sink) (frames : list Frame) : IO (option error) :=
  match frames with
  | [] => mret None
  | f :: rest =>
      err ← Frame_Encode w f;
      match err with
      | Some e => mret (Some e)
      | None => frames_Encode w rest
      end
  end.

(** The file handle: [fileSize], the section ([base], [n]) that
    [audioReader] reads from [f.f], and the tag. *)
Record File := mkFile {
  fileSize : Z;
  audio_base : Z;
  audio_n : Z;
  tag : Tag
}.

Definition set_tag (f : File) (t : Tag) : File :=
  mkFile (fileSize f) (audio_base f) (audio_n f) t.

Definition set_Header (t : Tag) (h : TagHeader) : Tag := mkTag h (Frames t).

(** [NewFile(file *os.File, tag *Tag)], for a file of [size] bytes. *)
Definition NewFile (size : Z) (t : Tag) : File :=
  mkFile size (tagHeaderSize + Size (Header t)) (size - Size (Header t)) t.

(** [func (f *File) HasTag() bool] *)
Definition HasTag (f : File) : bool := 0 <? Version (Header (tag f)).

(** The bytes of [f.f] that the section reader covers. *)
Definition audio_bytes (f : File) (c : list byte) : list byte :=
  firstn (Z.to_nat (audio_n f)) (skipn (Z.to_nat (audio_base f)) c).

(** [io.Copy(w, f.audioReader)], its loop taken as one read of the
    section followed by one write of what was read. *)
Definition Copy_audio (w : Sink) (f : File) : IO (option error) :=
  o ← next_fault;
  st ← get_world;
  let all := audio_bytes f (disk st) in
  let '(data, rerr) := match o with
                       | Some k => (firstn k all, Some storage_error)
                       | None => (all, None)
                       end in
  werr ← match data with
         | [] => mret None
         | _ => Write w data
         end;
  mret (match werr with Some e => Some e | None => rerr end).

(** [io.Copy(f.f, buf)]: what the scratch store holds goes to [f.f]. *)
Definition Copy_back (buf : Sink) : IO (option error) :=
  st ← get_world;
  match buf with
  | TheBuffer =>
      _ ← put_buffer [];
      match buffer st with
      | [] => mret None
      | data => File_Write data
      end
  | _ =>
      o ← next_fault;
      let '(c, off) := default ([], 0%nat) (temp st) in
      let all := skipn off c in
      let '(data, rerr) := match o with
                           | Some k => (firstn k all, Some storage_error)
                           | None => (all, None)
                           end in
      _ ← put_temp (Some (c, (off + length data)%nat));
      werr ← match data with
             | [] => mret None
             | _ => File_Write data
             end;
      mret (match werr with Some e => Some e | None => rerr end)
  end.

(** ** What a sequence of writes leaves

    The bytes that the encoders put on the wire when no write fails,
    and the view of a sink as contents and offset. *)

Definition Frame_wire (f : Frame) : Res (list byte) :=
  data ← Frame_WriteTo f; Ok (concat data).

Fixpoint frames_wire (frames : list Frame) : Res (list byte) :=
  match frames with
  | [] => Ok []
  | f :: rest => a ← Frame_wire f; b ← frames_wire rest; Ok (a ++ b)
  end.

(** The language of a comment is a code of three bytes; [readFrame]
    fills it from a [[3]byte].  [CommentFrame.size] counts on it. *)
Definition Frame_wf (f : Frame) : Prop :=
  match f with
  | CommentFrame _ Language _ _ => strlen Language = 3
  | _ => True
  end.

Definition sink_data (s : Sink) (w : World) : list byte :=
  match s with
  | TheFile => disk w
  | TheTemp => fst (default ([], 0%nat) (temp w))
  | TheBuffer => buffer w
  end.

Definition sink_pos (s : Sink) (w : World) : nat :=
  match s with
  | TheFile => pos w
  | TheTemp => snd (default ([], 0%nat) (temp w))
  | TheBuffer => length (buffer w)
  end.

Definition with_buffer (w : World) (b : list byte) : World :=
  mkWorld (disk w) (pos w) (temp w) b (faults w).

Definition file_at (w : World) (c : list byte) (p : nat) : World :=
  mkWorld c p (temp w) (buffer w) (faults w).

(** Every comment of the store has a language of three bytes. *)
Definition Tag_wf (t : Tag) : Prop :=
  map_Forall (λ _ frames, Forall Frame_wf frames) (Frames t).

(** A scratch store is written at its end. *)
Definition scratch_ok (s : Sink) (w : World) : Prop :=
  sink_pos s w = length (sink_data s w).

(** What a computation that writes to the scratch store [s] leaves: the
    file [f.f] as it was and, when it returns no error, the store
    extended by the bytes [wire]. *)
Definition scratch_step (s : Sink) (w w' : World) (err : option error)
    (wire : Res (list byte)) : Prop :=
  disk w' = disk w /\ pos w' = pos w /\ scratch_ok s w' /\
  (err = None ->
   exists bs, wire = Ok bs /\ sink_data s w' = sink_data s w ++ bs).

Section Saving.

(** [time.Time] with [value.Format(TimeFormat)]; the package variables
    [Padding] and [InMemoryThreshold]; the order in which a [range]
    over a map visits its buckets, which Go leaves open. *)
Variable Time : Type.
Variable Format : Time -> string.
Variable Padding : Z.
Variable InMemoryThreshold : Z.
Variable range : gmap string (list Frame) -> list (string * list Frame).
Hypothesis range_perm : forall fm, range fm ≡ₚ map_to_list fm.

(** [SetTextFrameTime(name FrameType, value time.Time)] *)
Definition SetTextFrameTime (t : Tag) (name : FrameType) (value : Time)
    : Res Tag :=
  SetTextFrame t name (Format value).

(** [func (fm FramesMap) Encode(w io.Writer) (err error)] *)
Definition FramesMap_Encode (w : Sink) (fm : gmap string (list Frame))
    : IO (option error) :=
  frames_Encode w (concat (range fm).*2).

(** [Encode(w io.Writer) error] of the tag, called at time [now]; the
    tag is returned as the call leaves it. *)
Definition Tag_Encode (now : Time) (w : Sink) (t : Tag)
    : IO (option error * Tag) :=
  t ← liftRes (SetTextFrameTime t "TDTG" now);
  sz ← liftRes (FramesMap_size (Frames t));
  let header := generateHeader (sz + Padding) in
  err ← Write w header;
  match err with
  | Some e => mret (Some e, t)
  | None =>
      err ← FramesMap_Encode w (Frames t);
      match err with
      | Some e => mret (Some e, t)
      | None =>
          pad ← liftRes (make_bytes Padding);
          err ← Write w pad;
          mret (err, t)
      end
  end.

(** [SaveTo(w io.Writer) error]; [audioReader.Seek(0, 0)] on a section
    reader returns no error. *)
Definition SaveTo (now : Time) (w : Sink) (f : File)
    : IO (option error * File) :=
  '(err, t) ← Tag_Encode now w (tag f);
  let f := set_tag f t in
  match err with
  | Some e => mret (Some e, f)
  | None => err ← Copy_audio w f; mret (err, f)
  end.

(** [saveInplace(framesSize int) error] *)
Definition saveInplace (framesSize : Z) (f : File)
    : IO (option error * File) :=
  let header := generateHeader (Size (Header (tag f))) in
  err ← File_Seek0;
  match err with
  | Some e => mret (Some e, f)
  | None =>
      err ← File_Write header;
      match err with
      | Some e => mret (Some e, f)
      | None =>
          err ← FramesMap_Encode TheFile (Frames (tag f));
          match err with
          | Some e => mret (Some e, f)
          | None =>
              let h := Header (tag f) in
              let f := set_tag f (set_Header (tag f)
                                    (mkTagHeader 0x0400 (Flags h) (Size h))) in
              zeros ← liftRes (make_bytes (Size h - framesSize));
              err ← File_Write zeros;
              mret (err, f)
          end
      end
  end.

(** The choice of the scratch store at the head of [saveNew]: a
    [bytes.Buffer] below the threshold, a temporary file from it on. *)
Definition saveNew_scratch (f : File) : IO (option error * Sink) :=
  if fileSize f <? InMemoryThreshold then
    _ ← put_buffer [];
    mret (None, TheBuffer)
  else
    err ← TempFile;
    mret (err, TheTemp).

(** What [saveNew] does once [SaveTo] has returned without error:
    truncate [f.f], rewind the temporary file, copy the scratch store
    back and record the new header. *)
Definition saveNew_commit (framesSize : Z) (buf : Sink) (f : File)
    : IO (option error * File) :=
  err ← truncate;
  match err with
  | Some e => mret (Some e, f)
  | None =>
      err ← match buf with
            | TheBuffer => mret None
            | _ => Temp_Seek0
            end;
      match err with
      | Some e => mret (Some e, f)
      | None =>
          err ← Copy_back buf;
          match err with
          | Some e => mret (Some e, f)
          | None =>
              let h := Header (tag f) in
              mret (None,
                    set_tag f (set_Header (tag f)
                      (mkTagHeader 0x0400 (Flags h)
                                   (framesSize + Padding))))
          end
      end
  end.

(** The deferred [os.Remove(newFile.Name())] of [saveNew], which there
    is only when a temporary file was created. *)
Definition saveNew_cleanup (buf : Sink) : IO unit :=
  match buf with
  | TheTemp => Remove
  | _ => mret tt
  end.

(** [saveNew(framesSize int) error].  [now'] is the time at which the
    [Encode] of the tag, called by [SaveTo], reads the clock. *)
Definition saveNew (now' : Time) (framesSize : Z) (f : File)
    : IO (option error * File) :=
  '(err, buf) ← saveNew_scratch f;
  match err with
  | Some e => mret (Some e, f)
  | None =>
      r ← ('(err, f) ← SaveTo now' buf f;
           match err with
           | Some e => mret (Some e, f)
           | None => saveNew_commit framesSize buf f
           end);
      _ ← saveNew_cleanup buf;
      mret r
  end.

(** [Save() error] of the file handle, which reads the clock at [now]. *)
Definition Save (now now' : Time) (f : File) : IO (option error * File) :=
  t ← liftRes (SetTextFrameTime (tag f) "TDTG" now);
  let f := set_tag f t in
  framesSize ← liftRes (FramesMap_size (Frames (tag f)));
  if HasTag f && (framesSize <=? Size (Header (tag f)))
     && (0 <? Z.of_nat (size (Frames (tag f))))
  then saveInplace framesSize f
  else saveNew now' framesSize f.

(** The frame that [SetTextFrameTime] builds for ["TDTG"], and the tag
    with that frame in the first slot of its bucket. *)
Definition stamp (now : Time) : Frame :=
  TextInformationFrame (mkFrameHeader "TDTG" 0) (Format now).

Definition stamped (t : Tag) (now : Time) : Tag :=
  set_Frames t
    (<["TDTG" := stamp now :: tail (default [] (Frames t !! "TDTG"))]>
       (Frames t)).

(** The bytes that the [Encode] of a tag writes when no write fails: the
    header sized to the frames and the padding, the frames in the order
    visited, the padding. *)
Definition Tag_image (t : Tag) : Res (list byte) :=
  F ← FramesMap_size (Frames t);
  wire ← frames_wire (concat (range (Frames t)).*2);
  pad ← make_bytes Padding;
  Ok (generateHeader (F + Padding) ++ wire ++ pad).

End Saving.

(** ** Stand-ins for the parts declared outside the source

    Used where a statement is evaluated on concrete bytes: a decoder
    that passes the bytes through (what UTF-8 text needs), readers of
    the typed frames that are never reached, no upgrade step. *)

Definition toUTF8_plain (e : Encoding) (b : list byte) : Res (list byte) :=
  Ok b.

Definition readTyped_absent (which : FrameType) (r : Reader)
    (h : FrameHeader) (frameSize : Z) : Res ReadResult :=
  Panic "reader declared in another file".

Definition upgrade_nothing (t : Tag) : Res Tag := Ok t.

Definition bytes_of_Z (l : list Z) : list byte := map byte_of_Z l.

(** A version 2.4 tag header announcing 64 bytes. *)
Definition sample_header : list byte :=
  bytes_of_Z [0x49; 0x44; 0x33; 4; 0; 0; 0; 0; 0; 64].
(** [TIT2], UTF-8, "Hi". *)
Definition sample_TIT2 : list byte :=
  bytes_of_Z [84; 73; 84; 50; 0; 0; 0; 3; 0; 0; 3; 72; 105].
(** [ZZZZ], an identifier that the codec does not know, payload 1 2 3. *)
Definition sample_ZZZZ : list byte :=
  bytes_of_Z [90; 90; 90; 90; 0; 0; 0; 3; 0; 0; 1; 2; 3].
(** A frame header whose identifier holds a small letter. *)
Definition sample_bad : list byte :=
  bytes_of_Z [90; 97; 90; 90; 0; 0; 0; 3; 0; 0; 1; 2; 3].
(** [TIT2] with the compression bit set in its flags. *)
Definition sample_compressed : list byte :=
  bytes_of_Z [84; 73; 84; 50; 0; 0; 0; 3; 0; 128; 3; 72; 105].

(** A clock rendered as it is, the default settings of the package, and
    a traversal in the order of [map_to_list]. *)
Definition render (s : string) : string := s.
Definition default_Padding : Z := 1024.
Definition default_InMemoryThreshold : Z := 1024 * 1024 * 10.
Definition range_map_to_list (fm : gmap string (list Frame))
    : list (string * list Frame) :=
  map_to_list fm.

Definition sample_time : string := "2013-01-02T03:04:05".
Definition sample_later : string := "2013-01-02T03:04:06".

(** A tag of the given version and reserved size that holds one title
    frame. *)
Definition sample_tag (version size : Z) : Tag :=
  mkTag (mkTagHeader version Byte.x00 size)
    (<["TIT2" := [TextInformationFrame (mkFrameHeader "TIT2" 0) "Hi"]]> ∅).

(** A file of 79 bytes: a tag that reserves 64 bytes, then five bytes of
    audio. *)
Definition sample_disk : list byte :=
  sample_header ++ sample_TIT2 ++ repeat Byte.x00 51
    ++ bytes_of_Z [1; 2; 3; 4; 5].

Definition sample_world : World := mkWorld sample_disk 0 None [] [].

(** ** The rest of the tag API (current snapshot) *)

(** [HasFrame(name FrameType) bool] *)
Definition HasFrame (t : Tag) (name : FrameType) : bool :=
  bool_decide (is_Some (Frames t !! name)).

(** [Clear()] *)
Definition Clear (t : Tag) : Tag := set_Frames t ∅.

(** [RemoveFrames(name FrameType)] *)
Definition RemoveFrames (t : Tag) (name : FrameType) : Tag :=
  set_Frames t (delete name (Frames t)).

Record Comment := mkComment {
  Comment_Language : string;
  Comment_Description : string;
  Comment_Text : string
}.

(** The frame that [SetComments] builds for a comment. *)
Definition comment_frame (c : Comment) : Frame :=
  CommentFrame (mkFrameHeader "COMM" 0) (Comment_Language c)
    (Comment_Description c) (Comment_Text c).

(** The loop of [Comments()]; a frame of another type in the bucket
    makes the type assertion [frame.(CommentFrame)] panic. *)
Fixpoint comments_of (frames : list Frame) : Res (list Comment) :=
  match frames with
  | [] => Ok []
  | CommentFrame _ L D T :: rest =>
      cs ← comments_of rest; Ok (mkComment L D T :: cs)
  | _ :: _ => Panic "interface conversion: Frame is not CommentFrame"
  end.

(** [Comments() []Comment] *)
Definition Comments (t : Tag) : Res (list Comment) :=
  comments_of (default [] (Frames t !! "COMM")).

(** [SetComments(comments []Comment)] *)
Definition SetComments (t : Tag) (comments : list Comment) : Tag :=
  set_Frames t (<["COMM" := comment_frame <$> comments]> (Frames t)).

Section Getting.

(** [Value() string], a method of every frame, is declared in another
    file of the package. *)
Variable Value : Frame -> Res string.

(** [GetTextFrame(name FrameType) string] *)
Definition GetTextFrame (t : Tag) (name : FrameType) : Res string :=
  match frameNameToUserFrame name with
  | Some userFrameName => getUserTextFrame t userFrameName
  | None =>
      match default [] (Frames t !! name) with
      | [] => Ok ""%string
      | f :: _ => Value f
      end
  end.

End Getting.

(** Every frame is filed under its own identifier, and no bucket is an
    empty slice. *)
Definition Store_filed (fm : gmap string (list Frame)) : Prop :=
  map_Forall (λ k frames, frames <> [] /\ Forall (λ f, Frame_ID f = k) frames)
             fm.

(** A text frame, filed under [k], that [readFrame] reads back as
    [WriteTo] wrote it: an identifier of four digits or capitals that
    starts with T and is neither [TXXX] nor [TRDA], flags of sixteen
    bits without the three that [readFrame] refuses, and a payload
    whose size the synchsafe encoding keeps. *)
Definition plain_text (k : string) (f : Frame) : Prop :=
  match f with
  | TextInformationFrame h text =>
      id h = k /\ is_text_id k = true /\ k <> "TRDA"%string /\
      String.length k = 4%nat /\
      forallb id_byte_ok (bytes_of k) = true /\
      0 <= flags h < 2 ^ 16 /\
      Compressed (flags h) || Encrypted (flags h) || Grouped (flags h) = false /\
      strlen text + 1 < 2 ^ 17
  | _ => False
  end.

Definition Tag_plain (t : Tag) : Prop :=
  map_Forall (λ k frames, frames <> [] /\ Forall (plain_text k) frames)
             (Frames t).

(** By how many bytes what [WriteTo] writes exceeds [size()]. *)
Definition size_excess (f : Frame) : Z :=
  match f with
  | CommentFrame _ Language _ _ => strlen Language - 3
  | _ => 0
  end.

(** The pieces of a split put together again around the separator. *)
Fixpoint join_nul (pieces : list (list byte)) : list byte :=
  match pieces with
  | [] => []
  | [p] => p
  | p :: rest => p ++ Byte.x00 :: join_nul rest
  end.

(** The check that [utf8ToISO88591] maps what [iso88591ToUTF8] makes of
    one byte back to that byte, and the check that the two flag bytes
    of a frame header give back the sixteen bits they were cut from. *)
Definition step_check (b : byte) : bool :=
  match iso88591ToUTF8_step b with
  | [x] => byte_leb x 128 && bool_decide (x = b)
  | [x; y] =>
      negb (byte_leb x 128)
      && bool_decide
           ((if byte_is x 195 then byte_of_Z (byte_to_Z y + 64) else y) = b)
  | _ => false
  end.

Definition flags_check (hi lo : byte) : bool :=
  wrap_uint16 (int16_of_bytes hi lo) =? 256 * byte_to_Z hi + byte_to_Z lo.

(** ** The older snapshot ([package main])

    Its readers drop the errors of [binary.Read], decode sizes with a
    [desynchsafeInt] of their own and split at the terminator with
    [bytes.SplitN]. *)

(** [desynchsafeInt(b [4]byte) int] of the older snapshot.  The two
    upper bytes are shifted as bytes, before the conversion to [int]:
    [b[0]<<23] and [b[1]<<15] are computed modulo 256. *)
Definition desynchsafeInt_main (b : byte * byte * byte * byte) : Z :=
  let '(b0, b1, b2, b3) := b in
  Z.lor (Z.lor (Z.lor (byte_to_Z (byte_of_Z (Z.shiftl (byte_to_Z b0) 23)))
                      (byte_to_Z (byte_of_Z (Z.shiftl (byte_to_Z b1) 15))))
               (Z.shiftl (byte_to_Z b2) 7))
        (byte_to_Z b3).

Fixpoint has_prefix (sep s : list byte) : bool :=
  match sep, s with
  | [], _ => true
  | a :: sep', b :: s' => bool_decide (a = b) && has_prefix sep' s'
  | _ :: _, [] => false
  end.

(** [bytes.Index(s, sep)] for a separator that is not empty: the prefix
    before the first occurrence and the rest after it. *)
Fixpoint cut_sep (sep s : list byte) : option (list byte * list byte) :=
  match s with
  | [] => None
  | b :: rest =>
      if has_prefix sep s then Some ([], skipn (length sep) s)
      else match cut_sep sep rest with
           | Some (pre, post) => Some (b :: pre, post)
           | None => None
           end
  end.

Fixpoint split_sep (k : nat) (sep s : list byte) : list (list byte) :=
  match k with
  | O => [s]
  | S k' =>
      match cut_sep sep s with
      | Some (pre, post) => pre :: split_sep k' sep post
      | None => [s]
      end
  end.

(** [bytes.SplitN(s, sep, n)] for a separator that is not empty. *)
Definition bytes_SplitN (s sep : list byte) (n : Z) : list (list byte) :=
  if n =? 0 then []
  else if n <? 0 then split_sep (length s) sep s
  else split_sep (Z.to_nat (n - 1)) sep s.

(** [func (e Encoding) terminator() []byte] *)
Definition terminator (e : Encoding) : list byte :=
  if bool_decide (e = utf16bom) || bool_decide (e = utf16be)
  then utf16nul else nul.

(** [splitNullN(data []byte, encoding Encoding, n int) [][]byte] of the
    older snapshot. *)
Definition splitNullN_main (data : list byte) (encoding : Encoding) (n : Z)
    : list (list byte) :=
  bytes_SplitN data (terminator encoding) n.

(** The code units that the loop of [utf16ToUTF8] stores; [None] is the
    index-out-of-range panic of [input[j+1]]. *)
Fixpoint code_units (bigEndian : bool) (input : list byte) : option (list Z) :=
  match input with
  | [] => Some []
  | [_] => None
  | a :: b :: rest =>
      let u := if bigEndian
               then Z.lor (Z.shiftl (byte_to_Z a) 8) (byte_to_Z b)
               else Z.lor (byte_to_Z a) (Z.shiftl (byte_to_Z b) 8) in
      cons u <$> code_units bigEndian rest
  end.

(** [parts[i]] *)
Definition part (parts : list (list byte)) (i : nat) : Res (list byte) :=
  or_panic (parts !! i).

(** [binary.Read(r, binary.BigEndian, &data)] for [n] bytes, its error
    dropped as the older readers drop it: the bytes read, or [data] as
    it was, all zero, after a short read. *)
Definition read_bytes (r : Reader) (n : nat) : list byte * Reader :=
  let '((bs, err), r') := ReadFull r n in
  (match err with None => bs | Some _ => repeat Byte.x00 n end, r').

Section OlderReaders.

(** [[]byte(string(utf16.Decode(uint16s)))], of the standard library. *)
Variable utf16_Decode : list Z -> list byte.

(** [utf16ToUTF8(input []byte) []byte] *)
Definition utf16ToUTF8 (input : list byte) : Res (list byte) :=
  match input with
  | a :: b :: rest =>
      let '(bigEndian, input) :=
        if byte_is a 0xFF && byte_is b 0xFE then (false, rest)
        else if byte_is a 0xFE && byte_is b 0xFF then (true, rest)
        else (true, input) in
      uint16s ← or_panic (code_units bigEndian input);
      Ok (utf16_Decode uint16s)
  | _ => Panic index_out_of_range
  end.

(** [reencode(b []byte, encoding Encoding) []byte] *)
Definition reencode (b : list byte) (encoding : Encoding) : Res (list byte) :=
  if bool_decide (encoding = utf16bom) || bool_decide (encoding = utf16be)
  then utf16ToUTF8 b
  else if bool_decide (encoding = utf8) then Ok b
  else if bool_decide (encoding = iso88591) then Ok (iso88591ToUTF8 b)
  else Panic "unsupported".

(** [readTXXXFrame(r io.Reader, header FrameHeader, headerSize int) Frame] *)
Definition readTXXXFrame (r : Reader) (header : FrameHeader) (headerSize : Z)
    : Res (Frame * Reader) :=
  let '(enc, r) := read_bytes r 1 in
  let encoding := nth 0 enc Byte.x00 in
  _ ← make_bytes (headerSize - 1);
  let '(rest, r) := read_bytes r (Z.to_nat (headerSize - 1)) in
  let parts := splitNullN_main rest encoding 2 in
  p0 ← part parts 0;
  d ← reencode p0 encoding;
  p1 ← part parts 1;
  t ← reencode p1 encoding;
  Ok (UserTextInformationFrame header (string_of_list_byte d)
        (string_of_list_byte t), r).

(** [readWXXXFrame(r io.Reader, header FrameHeader, headerSize int) Frame] *)
Definition readWXXXFrame (r : Reader) (header : FrameHeader) (headerSize : Z)
    : Res (Frame * Reader) :=
  let '(enc, r) := read_bytes r 1 in
  let encoding := nth 0 enc Byte.x00 in
  _ ← make_bytes (headerSize - 1);
  let '(rest, r) := read_bytes r (Z.to_nat (headerSize - 1)) in
  let parts := splitNullN_main rest encoding 2 in
  p0 ← part parts 0;
  d ← reencode p0 encoding;
  p1 ← part parts 1;
  Ok (UserDefinedURLLinkFrame header (string_of_list_byte d)
        (string_of_list_byte (iso88591ToUTF8 p1)), r).

(** [readUFIDFrame(r io.Reader, header FrameHeader, headerSize int) Frame] *)
Definition readUFIDFrame (r : Reader) (header : FrameHeader) (headerSize : Z)
    : Res (Frame * Reader) :=
  _ ← make_bytes headerSize;
  let '(rest, r) := read_bytes r (Z.to_nat headerSize) in
  let parts := bytes_SplitN rest [Byte.x00] 2 in
  p0 ← part parts 0;
  o ← reencode p0 iso88591;
  p1 ← part parts 1;
  Ok (UniqueFileIdentifierFrame header (string_of_list_byte o) p1, r).

(** [readCOMMFrame(r io.Reader, header FrameHeader, headerSize int) Frame] *)
Definition readCOMMFrame (r : Reader) (header : FrameHeader) (headerSize : Z)
    : Res (Frame * Reader) :=
  _ ← make_bytes (headerSize - 4);
  let '(enc, r) := read_bytes r 1 in
  let encoding := nth 0 enc Byte.x00 in
  let '(language, r) := read_bytes r 3 in
  let '(rest, r) := read_bytes r (Z.to_nat (headerSize - 4)) in
  let parts := splitNullN_main rest encoding 2 in
  p0 ← part parts 0;
  d ← reencode p0 encoding;
  p1 ← part parts 1;
  t ← reencode p1 encoding;
  Ok (CommentFrame header (string_of_list_byte language)
        (string_of_list_byte d) (string_of_list_byte t), r).

(** [readFrame(r io.Reader) (Frame, error)] of the older snapshot.  Its
    [UnsupportedFrame] holds the header only. *)
Definition readFrame_main (r : Reader) : Res ReadResult :=
  let '(ID, r) := read_bytes r 4 in
  let '(Size, r) := read_bytes r 4 in
  let '(Flags, r) := read_bytes r 2 in
  let header :=
    mkFrameHeader (string_of_list_byte ID)
      (wrap_uint16 (int16_of_bytes (nth 0 Flags Byte.x00)
                                   (nth 1 Flags Byte.x00))) in
  let headerSize :=
    desynchsafeInt_main (nth 0 Size Byte.x00, nth 1 Size Byte.x00,
                         nth 2 Size Byte.x00, nth 3 Size Byte.x00) in
  if byte_is (nth 0 ID Byte.x00) 0 then Ok ((None, Some EOF), r)
  else if is_text_id (id header) then
    _ ← make_bytes (headerSize - 1);
    let '(enc, r) := read_bytes r 1 in
    let '(information, r) := read_bytes r (Z.to_nat (headerSize - 1)) in
    text ← reencode information (nth 0 enc Byte.x00);
    Ok ((Some (TextInformationFrame header (string_of_list_byte text)),
         None), r)
  else if is_link_id (id header) then
    _ ← make_bytes headerSize;
    let '(url, r) := read_bytes r (Z.to_nat headerSize) in
    Ok ((Some (URLLinkFrame header
                 (string_of_list_byte (iso88591ToUTF8 url))), None), r)
  else if bool_decide (id header = "TXXX"%string) then
    '(f, r) ← readTXXXFrame r header headerSize; Ok ((Some f, None), r)
  else if bool_decide (id header = "WXXX"%string) then
    '(f, r) ← readWXXXFrame r header headerSize; Ok ((Some f, None), r)
  else if bool_decide (id header = "UFID"%string) then
    '(f, r) ← readUFIDFrame r header headerSize; Ok ((Some f, None), r)
  else if bool_decide (id header = "COMM"%string) then
    '(f, r) ← readCOMMFrame r header headerSize; Ok ((Some f, None), r)
  else
    _ ← make_bytes headerSize;
    let '(_, r) := Read r (Z.to_nat headerSize) in
    Ok ((Some (UnsupportedFrame header []), None), r).

End OlderReaders.

(** [desynchsafeInt(headerBytes.Size)] as the older [readFrame] decodes
    the size of a frame. *)
Definition frameSize_main (hb : list byte) : Z :=
  desynchsafeInt_main (nth 0 (headerBytes_Size hb) Byte.x00,
                       nth 1 (headerBytes_Size hb) Byte.x00,
                       nth 2 (headerBytes_Size hb) Byte.x00,
                       nth 3 (headerBytes_Size hb) Byte.x00).

(** [func (f *File) SetTextFrame(name FrameType, value string)] of the
    older snapshot, on the frames of the file. *)
Definition File_SetTextFrame (fm : gmap string (list Frame))
    (name : FrameType) (value : string) : Res (gmap string (list Frame)) :=
  match name with
  | EmptyString => Panic index_out_of_range
  | String c _ =>
      if negb (bool_decide (c = "T"%char)) || bool_decide (name = "TXXX"%string)
      then Panic ("not a valid text frame name: " ++ name)
      else
        let frame := TextInformationFrame (mkFrameHeader name 0) value in
        match fm !! name with
        | None => Ok (<[name := [frame]]> fm)
        | Some [] => Panic index_out_of_range
        | Some (_ :: rest) => Ok (<[name := frame :: rest]> fm)
        end
  end.

(** [func (f *File) GetTextFrame(name FrameType) string] of the older
    snapshot. *)
Definition File_GetTextFrame (fm : gmap string (list Frame))
    (name : FrameType) : Res string :=
  match name with
  | EmptyString => Panic index_out_of_range
  | String c _ =>
      if negb (bool_decide (c = "T"%char)) then
        match fm !! "TXXX" with
        | None => Ok ""%string
        | Some frames => getUserText frames name
        end
      else
        match fm !! name with
        | None => Ok ""%string
        | Some [] => Panic index_out_of_range
        | Some (TextInformationFrame _ Text :: _) => Ok Text
        | Some (_ :: _) =>
            Panic "interface conversion: Frame is not TextInformationFrame"
        end
  end.

(** A string field that holds no zero byte. *)
Definition NUL_free (s : string) : Prop :=
  Forall (λ b, b <> Byte.x00) (bytes_of s).

(** A string that is Latin-1 text without U+0080, and without U+0000
    where [nul_too] is set. *)
Definition latin1_text (nul_too : bool) (s : string) : Prop :=
  exists l,
    bytes_of s = utf8_of_latin1 l /\
    Forall (λ c, c <> Byte.x80 /\ (nul_too = true -> c <> Byte.x00)) l.

(** The frames that the older snapshot reads back as it wrote them: an
    identifier of four bytes that selects the reader of the frame's
    type, flags of sixteen bits, a payload below [2^14] bytes, no zero
    byte in a field that a terminator follows, and Latin-1 text without
    U+0080 where the field is written in ISO-8859-1. *)
Definition reads_back (f : Frame) : Prop :=
  let h := Frame_header f in
  String.length (id h) = 4%nat /\ 0 <= flags h < 2 ^ 16 /\
  match f with
  | TextInformationFrame _ Text =>
      is_text_id (id h) = true /\ id h <> "TRDA"%string /\
      strlen Text + 1 < 2 ^ 14
  | UserTextInformationFrame _ Description Text =>
      id h = "TXXX"%string /\ NUL_free Description /\
      strlen Description + strlen Text + 2 < 2 ^ 14
  | UniqueFileIdentifierFrame _ Owner Identifier =>
      id h = "UFID"%string /\ latin1_text true Owner /\
      len Identifier + strlen Owner + 1 < 2 ^ 14
  | URLLinkFrame _ URL =>
      is_link_id (id h) = true /\ latin1_text false URL /\
      strlen URL < 2 ^ 14
  | UserDefinedURLLinkFrame _ Description URL =>
      id h = "WXXX"%string /\ NUL_free Description /\ latin1_text false URL /\
      strlen Description + strlen URL + 2 < 2 ^ 14
  | CommentFrame _ Language Description Text =>
      id h = "COMM"%string /\ strlen Language = 3 /\ NUL_free Description /\
      strlen Description + strlen Text + 5 < 2 ^ 14
  | UnsupportedFrame _ _ => False
  end.

(** ** Two files that an in-place save does not keep

    A tag with a comment whose language has four bytes, and a tag that
    reserves [2^17] bytes. *)

(** A tag that reserves 45 bytes and holds one comment whose language
    has four bytes, as [SetComments] stores it. *)
Definition sample_engl : Tag :=
  SetComments (mkTag (mkTagHeader 0x0400 Byte.x00 45) ∅)
    [mkComment "engl" "" ""].

(** A file of 58 bytes: a tag that reserves 45 bytes, then three bytes
    of audio. *)
Definition sample_engl_disk : list byte :=
  bytes_of_Z [0x49; 0x44; 0x33; 4; 0; 0; 0; 0; 0; 45]
    ++ repeat Byte.x00 45 ++ bytes_of_Z [255; 1; 2].

(** A file whose tag reserves [2^17] bytes, then five bytes of audio. *)
Definition sample_wide_disk : list byte :=
  bytes_of_Z [0x49; 0x44; 0x33; 4; 0; 0; 0; 8; 0; 0]
    ++ repeat Byte.x00 (Z.to_nat 131072) ++ bytes_of_Z [1; 2; 3; 4; 5].

(** * Properties *)

(** ** Synchsafe integers *)

Lemma byte_to_Z_range (b : byte) : 0 <= byte_to_Z b < 256.
Proof.
  unfold byte_to_Z. pose proof (Byte.to_N_bounded b). lia.
Qed.

Lemma byte_to_of_Z (z : Z) : byte_to_Z (byte_of_Z z) = z mod 256.
Proof.
  unfold byte_to_Z, byte_of_Z.
  pose proof (Z.mod_pos_bound z 256 eq_refl) as Hm.
  destruct (Byte.of_N (Z.to_N (z mod 256))) as [b|] eqn:E.
  - apply Byte.to_of_N in E. rewrite E. lia.
  - apply Byte.of_N_None_iff in E. lia.
Qed.

Lemma byte_of_to_Z (b : byte) : byte_of_Z (byte_to_Z b) = b.
Proof.
  unfold byte_of_Z. pose proof (byte_to_Z_range b) as Hr.
  rewrite Z.mod_small by lia. unfold byte_to_Z.
  rewrite N2Z.id, Byte.of_to_N. reflexivity.
Qed.

Lemma len_app {A} (a b : list A) : len (a ++ b) = len a + len b.
Proof. unfold len. rewrite length_app. lia. Qed.

Lemma len_cons {A} (x : A) (l : list A) : len (x :: l) = 1 + len l.
Proof. unfold len. cbn [length]. lia. Qed.

Lemma len_nil {A} : len (@nil A) = 0.
Proof. reflexivity. Qed.

Lemma high_bits (x p : Z) :
  0 <= p -> 0 <= x < 2 ^ p -> forall k, p <= k -> Z.testbit x k = false.
Proof.
  intros Hp Hx k Hk. rewrite <- (Z.mod_small x (2 ^ p)) by lia.
  apply Z.mod_pow2_bits_high. lia.
Qed.

Ltac bits_step :=
  first [ rewrite Z.lor_spec | rewrite Z.land_spec
        | rewrite Z.shiftl_spec by lia
        | rewrite Z.shiftr_spec by lia
        | rewrite Z.testbit_ones by lia
        | rewrite Z.testbit_neg_r by lia ].

(** Bit [n] of both sides, for a bit [n] given as a numeral: the bits of
    [x] from [Hhi] on are known to be clear, the others are left as
    they are. *)
Ltac bits_at x Hhi :=
  repeat bits_step;
  repeat match goal with
         | |- context [Z.testbit x ?k] =>
             let k' := eval vm_compute in k in
             progress change (Z.testbit x k) with (Z.testbit x k')
         end;
  repeat match goal with
         | |- context [Z.testbit x ?k] => rewrite (Hhi k) by lia
         end;
  let t := fresh "t" in
  generalize (Z.testbit x); intros t; vm_compute;
  repeat match goal with
         | |- context [t ?k] => destruct (t k)
         end;
  reflexivity.

(** The value that [synchsafeInt] returns fits in 27 bits whatever its
    argument, so neither its shifts nor those of [intToBytes] and
    [desynchsafeInt] leave the range of a 64-bit [int]. *)
Lemma synchsafeInt_range (i : Z) : 0 <= synchsafeInt i < 2 ^ 27.
Proof.
  assert (H : Z.land (synchsafeInt i) (Z.ones 27) = synchsafeInt i).
  { apply Z.bits_inj'. intros n Hn. rewrite Z.land_spec, Z.testbit_ones by lia.
    destruct (Z.lt_ge_cases n 27) as [Hlt|Hge].
    - replace (0 <=? n) with true by (symmetry; apply Z.leb_le; lia).
      replace (n <? 27) with true by (symmetry; apply Z.ltb_lt; lia).
      apply andb_true_r.
    - replace (n <? 27) with false by (symmetry; apply Z.ltb_ge; lia).
      rewrite andb_false_r, andb_false_r. symmetry.
      unfold synchsafeInt. repeat bits_step.
      rewrite (high_bits 0x7f 7), (high_bits 0x3f80 14),
        (high_bits 0x1fc000 21), (high_bits 0xfe0000 24) by lia.
      rewrite !andb_false_r. reflexivity. }
  rewrite Z.land_ones in H by lia. rewrite <- H.
  apply Z.mod_pos_bound. lia.
Qed.

(** Below [2^17] the round trip of C1 holds: the two overlapping masks
    of [synchsafeInt] see no bit there. *)
Lemma synchsafe_roundtrip_below_2p17 (x : Z) :
  0 <= x < 2 ^ 17 -> decodeSynchsafe (encodeSynchsafe x) = Some x.
Proof.
  intros Hx. pose proof (high_bits x 17 ltac:(lia) Hx) as Hhi.
  unfold decodeSynchsafe, encodeSynchsafe, intToBytes, array4, desynchsafeInt.
  cbn [fmap option_fmap option_map]. rewrite !byte_to_of_Z. f_equal.
  change 256 with (2 ^ 8). rewrite <- !Z.land_ones by lia.
  unfold synchsafeInt.
  apply Z.bits_inj'. intros n Hn.
  destruct (Z.lt_ge_cases n 29) as [Hlt|Hge].
  { rewrite <- (Z2Nat.id n Hn).
    assert (Hm : (Z.to_nat n < 29)%nat) by lia.
    generalize dependent (Z.to_nat n). clear Hn. intros m Hm.
    do 29 (destruct m as [|m]; [clear Hm; simpl Z.of_nat; bits_at x Hhi|]).
    exfalso. lia. }
  repeat bits_step. rewrite (Hhi n) by lia.
  replace (n - 21 <? 8) with false by (symmetry; apply Z.ltb_ge; lia).
  replace (n - 14 <? 8) with false by (symmetry; apply Z.ltb_ge; lia).
  replace (n - 7 <? 8) with false by (symmetry; apply Z.ltb_ge; lia).
  replace (n <? 8) with false by (symmetry; apply Z.ltb_ge; lia).
  rewrite !andb_false_r. reflexivity.
Qed.

(** C1, at the input where it breaks: the mask of the top group in
    [synchsafeInt] is [0xfe0000], which overlaps the mask [0x1fc000] of
    the group below it, so the four bytes written for 131072 decode to
    393216. *)
Theorem synchsafe_roundtrip_131072 :
  0 <= 131072 < 2 ^ 28 /\
  decodeSynchsafe (encodeSynchsafe 131072) = Some 393216.
Proof. split; [lia | reflexivity]. Qed.

(** ** Latin-1 codec *)

Lemma byte_forall (P : byte -> bool) :
  forallb P all_bytes = true -> forall b, P b = true.
Proof.
  intros H b. rewrite forallb_forall in H. apply H.
  unfold all_bytes. apply in_map_iff.
  exists (Z.to_nat (byte_to_Z b)). pose proof (byte_to_Z_range b). split.
  - rewrite Z2Nat.id by lia. apply byte_of_to_Z.
  - apply in_seq. lia.
Qed.

Lemma point_check_all (c : byte) : point_check c = true.
Proof. revert c. apply byte_forall. vm_compute. reflexivity. Qed.

Lemma utf8ToISO88591_point (c : byte) (tail : list byte) :
  utf8ToISO88591 (utf8_of_latin1_point c ++ tail)
  = cons c <$> utf8ToISO88591 tail.
Proof.
  pose proof (point_check_all c) as H. unfold point_check in H.
  destruct (utf8_of_latin1_point c) as [|b [|c2 [|]]]; try discriminate.
  - apply andb_true_iff in H as [H1 H2]. apply bool_decide_eq_true in H2.
    subst b. cbn [app utf8ToISO88591]. rewrite H1. reflexivity.
  - apply andb_true_iff in H as [H1 H2]. apply bool_decide_eq_true in H2.
    apply negb_true_iff in H1.
    cbn [app utf8ToISO88591]. rewrite H1, H2. reflexivity.
Qed.

(** Encoding to Latin-1 recovers every code point of the block. *)
Lemma utf8ToISO88591_latin1 (s : list byte) :
  utf8ToISO88591 (utf8_of_latin1 s) = Some s.
Proof.
  induction s as [|c s IH]; [reflexivity|].
  unfold utf8_of_latin1 in *. cbn [flat_map].
  rewrite utf8ToISO88591_point, IH. reflexivity.
Qed.

Lemma iso88591ToUTF8_step_point (c : byte) :
  c <> Byte.x80 -> iso88591ToUTF8_step c = utf8_of_latin1_point c.
Proof.
  intros Hc.
  assert (H : forall b, bool_decide (b = Byte.x80)
                || bool_decide (iso88591ToUTF8_step b = utf8_of_latin1_point b)
                = true).
  { apply byte_forall. vm_compute. reflexivity. }
  specialize (H c). apply orb_true_iff in H as [H|H];
    apply bool_decide_eq_true in H; [contradiction | exact H].
Qed.

(** X11: away from U+0080 the round trip of C2 holds: for every Latin-1
    text without that code point, [utf8ToISO88591] followed by
    [iso88591ToUTF8] gives back its UTF-8 bytes. *)
Lemma latin1_roundtrip_without_U0080 (s : list byte) :
  Forall (λ c, c <> Byte.x80) s ->
  iso88591ToUTF8 <$> utf8ToISO88591 (utf8_of_latin1 s)
  = Some (utf8_of_latin1 s).
Proof.
  intros Hs. rewrite utf8ToISO88591_latin1. cbn. f_equal.
  unfold iso88591ToUTF8, utf8_of_latin1.
  induction Hs as [|c s Hc _ IH]; [reflexivity|].
  cbn [flat_map]. rewrite IH, (iso88591ToUTF8_step_point c Hc). reflexivity.
Qed.

(** C2, at the input where it breaks: [iso88591ToUTF8] copies every byte
    [b <= 128], so the Latin-1 byte 0x80 of U+0080 comes back as the
    single byte 0x80 and not as its UTF-8 encoding [C2 80]. *)
Theorem latin1_roundtrip_U0080 :
  utf8_of_latin1 [Byte.x80] = [Byte.xc2; Byte.x80] /\
  utf8ToISO88591 [Byte.xc2; Byte.x80] = Some [Byte.x80] /\
  iso88591ToUTF8 [Byte.x80] = [Byte.x80] /\
  iso88591ToUTF8 <$> utf8ToISO88591 (utf8_of_latin1 [Byte.x80])
  <> Some (utf8_of_latin1 [Byte.x80]).
Proof. repeat split; try reflexivity. discriminate. Qed.

(** ** Terminator splitting *)

Lemma byte_is_0 (b : byte) : byte_is b 0 = true <-> b = Byte.x00.
Proof.
  unfold byte_is. rewrite Z.eqb_eq. split.
  - intros H. rewrite <- (byte_of_to_Z b), H. reflexivity.
  - intros ->. reflexivity.
Qed.

Lemma length_units (us : list (byte * byte)) :
  length (units us) = (2 * length us)%nat.
Proof. induction us as [|[a b] us IH]; cbn [units length]; lia. Qed.

(** The loop runs over code units that are not the terminator without
    recording anything, also where one of their two bytes is zero, and
    stops at the terminator with the piece [data[0:i]]. *)
Lemma splitNullN_loop_units (data post : list byte) (n : Z)
    (matches : list (list byte)) (us : list (byte * byte)) :
  Forall (λ u, u <> (Byte.x00, Byte.x00)) us ->
  forall i : nat,
    len matches = n - 2 ->
    splitNullN_loop data (units us ++ Byte.x00 :: Byte.x00 :: post) i n matches
    = Some (matches ++ [slice data 0 (i + 2 * length us)]).
Proof.
  intros Hus. induction Hus as [|[a b] us Hab _ IH]; intros i Hn.
  - cbn [units app splitNullN_loop length]. change (byte_is Byte.x00 0) with true.
    cbn iota. rewrite len_app. change (len [slice data 0 i]) with 1.
    replace (len matches + 1 =? n - 1) with true
      by (symmetry; apply Z.eqb_eq; lia).
    rewrite Nat.mul_0_r, Nat.add_0_r. reflexivity.
  - cbn [units app splitNullN_loop length].
    replace (i + 2 * S (length us))%nat with (i + 2 + 2 * length us)%nat by lia.
    destruct (byte_is a 0) eqn:Ea.
    + apply byte_is_0 in Ea. subst a.
      destruct (byte_is b 0) eqn:Eb.
      * apply byte_is_0 in Eb. subst b. contradiction.
      * apply IH. exact Hn.
    + apply IH. exact Hn.
Qed.

(** What [splitNullN] returns for UTF-16 data made of code units, a
    first terminator on a unit boundary and anything after it, asked
    for two pieces: the bytes before the terminator, then the whole
    input.  A zero byte inside a code unit does not split. *)
Lemma splitNullN_utf16_two (us : list (byte * byte)) (post : list byte)
    (encoding : byte) :
  encoding <> utf8 -> encoding <> iso88591 ->
  Forall (λ u, u <> (Byte.x00, Byte.x00)) us ->
  let data := units us ++ Byte.x00 :: Byte.x00 :: post in
  splitNullN data encoding 2 = Some [units us; data].
Proof.
  intros H8 Hiso Hus data. unfold splitNullN.
  rewrite !bool_decide_eq_false_2 by assumption. cbn [orb].
  unfold data at 2.
  rewrite (splitNullN_loop_units data post 2 [] us Hus 0%nat eq_refl).
  replace (Z.of_nat 0 <? len data - 1) with true.
  - cbn [app skipn]. do 3 f_equal. unfold slice, data.
    cbn [skipn Nat.add]. rewrite Nat.sub_0_r, <- length_units.
    apply take_app_length.
  - symmetry. apply Z.ltb_lt. unfold data, len.
    rewrite length_app. cbn [length]. lia.
Qed.

(** C9, at an input where it breaks: ["A"], the terminator and ["B"] in
    UTF-16LE.  [prev] is never advanced, so the second piece is the
    whole input instead of the bytes after the terminator. *)
Theorem splitNullN_utf16_second_piece :
  let data := [Byte.x41; Byte.x00; Byte.x00; Byte.x00; Byte.x42; Byte.x00] in
  splitNullN data utf16bom 2 = Some [[Byte.x41; Byte.x00]; data] /\
  splitNullN data utf16bom 2
  <> Some [[Byte.x41; Byte.x00]; [Byte.x42; Byte.x00]].
Proof. split; [reflexivity | discriminate]. Qed.

(** ** User text frames *)

Lemma findUserTextFrame_none (name : string) (frames : list Frame) (i : nat) :
  Forall (other_description name) frames ->
  findUserTextFrame frames name i = Ok None.
Proof.
  intros H. revert i. induction H as [|f frames Hf _ IH]; intros i.
  - reflexivity.
  - destruct f; try contradiction. cbn [findUserTextFrame other_description] in *.
    rewrite bool_decide_eq_false_2 by exact Hf. apply IH.
Qed.

Lemma findUserTextFrame_first (name : string) (pre post : list Frame)
    (h : FrameHeader) (v : string) (i : nat) :
  Forall (other_description name) pre ->
  findUserTextFrame (pre ++ UserTextInformationFrame h name v :: post) name i
  = Ok (Some (i + length pre)%nat).
Proof.
  intros H. revert i. induction H as [|f pre Hf _ IH]; intros i.
  - cbn [app findUserTextFrame length].
    rewrite bool_decide_eq_true_2 by reflexivity.
    rewrite Nat.add_0_r. reflexivity.
  - destruct f; try contradiction.
    cbn [app findUserTextFrame other_description length] in *.
    rewrite bool_decide_eq_false_2 by exact Hf. rewrite IH.
    do 2 f_equal. lia.
Qed.

(** Without a bucket the entry is appended to a fresh one. *)
Lemma setUserTextFrame_fresh (t : Tag) (name value : string) :
  Frames t !! "TXXX" = None ->
  setUserTextFrame t name value
  = Ok (set_Frames t (<["TXXX" := [userText name value]]> (Frames t))).
Proof.
  intros H. unfold setUserTextFrame. rewrite H.
  cbn [findUserTextFrame mbind Res_bind orb bool_decide].
  rewrite bool_decide_eq_false_2 by (intros [? [=]]).
  rewrite lookup_insert_eq, insert_insert_eq. reflexivity.
Qed.

(** With an entry of that description in the bucket, the first such
    entry is replaced and the others are kept. *)
Lemma setUserTextFrame_replaces (t : Tag) (name value : string)
    (pre post : list Frame) (h : FrameHeader) (v : string) :
  Frames t !! "TXXX" = Some (pre ++ UserTextInformationFrame h name v :: post) ->
  Forall (other_description name) pre ->
  setUserTextFrame t name value
  = Ok (set_Frames t
          (<["TXXX" := pre ++ userText name value :: post]> (Frames t))).
Proof.
  intros H Hpre. unfold setUserTextFrame. rewrite H.
  rewrite (findUserTextFrame_first name pre post h v 0 Hpre).
  cbn [mbind Res_bind orb Nat.add].
  replace (length pre <? length (pre ++ UserTextInformationFrame h name v :: post))%nat
    with true
    by (symmetry; apply Nat.ltb_lt; rewrite length_app; cbn [length]; lia).
  rewrite insert_app_r_alt by lia. rewrite Nat.sub_diag. reflexivity.
Qed.

(** With a bucket that holds no entry of that description, the last
    entry of the bucket is overwritten: nothing is appended. *)
Lemma setUserTextFrame_overwrites_last (t : Tag) (name value : string)
    (pre : list Frame) (last : Frame) :
  Frames t !! "TXXX" = Some (pre ++ [last]) ->
  Forall (other_description name) (pre ++ [last]) ->
  setUserTextFrame t name value
  = Ok (set_Frames t (<["TXXX" := pre ++ [userText name value]]> (Frames t))).
Proof.
  intros H Hall. unfold setUserTextFrame. rewrite H.
  rewrite (findUserTextFrame_none name _ 0 Hall).
  cbn [mbind Res_bind orb]. rewrite length_app. cbn [length].
  replace (Nat.pred (length pre + 1)) with (length pre) by lia.
  replace (length pre <? length pre + 1)%nat with true
    by (symmetry; apply Nat.ltb_lt; lia).
  rewrite insert_app_r_alt by lia. rewrite Nat.sub_diag. reflexivity.
Qed.

(** *** Buckets are never empty *)

Lemma Buckets_nonempty_NewTag : Buckets_nonempty (Frames NewTag).
Proof. apply map_Forall_empty. Qed.

Lemma Buckets_nonempty_insert (fm : gmap string (list Frame)) (k : string)
    (frames : list Frame) :
  Buckets_nonempty fm -> frames <> [] ->
  Buckets_nonempty (<[k := frames]> fm).
Proof. intros H Hf. apply map_Forall_insert_2; assumption. Qed.

Lemma Buckets_nonempty_lookup (fm : gmap string (list Frame)) (k : string) :
  Buckets_nonempty fm -> fm !! k <> Some [].
Proof. intros H E. exact (H k [] E eq_refl). Qed.

Lemma setUserTextFrame_nonempty (t t' : Tag) (name value : string) :
  Buckets_nonempty (Frames t) ->
  setUserTextFrame t name value = Ok t' ->
  Buckets_nonempty (Frames t').
Proof.
  intros H. unfold setUserTextFrame.
  destruct (Frames t !! "TXXX") as [frames|] eqn:E.
  - destruct (findUserTextFrame frames name 0) as [found|msg];
      cbn [mbind Res_bind orb]; [|discriminate].
    destruct (_ <? _)%nat; [|discriminate].
    intros [= <-]. cbn [Frames set_Frames].
    apply Buckets_nonempty_insert; [exact H|].
    intros E0. apply (f_equal length) in E0.
    rewrite length_insert in E0. cbn [length] in E0.
    apply (Buckets_nonempty_lookup _ "TXXX" H).
    rewrite E. destruct frames; [reflexivity|discriminate].
  - cbn [findUserTextFrame mbind Res_bind orb].
    rewrite bool_decide_eq_false_2 by (intros [? [=]]).
    intros [= <-]. cbn [Frames set_Frames].
    rewrite lookup_insert_eq, insert_insert_eq.
    apply Buckets_nonempty_insert; [exact H|]. discriminate.
Qed.

(** [SetTextFrame] keeps the store free of empty buckets, so the bucket
    of ["TDTG"] that [Save] and [Encode] stamp is never one. *)
Lemma SetTextFrame_nonempty (t t' : Tag) (name : FrameType) (value : string) :
  Buckets_nonempty (Frames t) ->
  SetTextFrame t name value = Ok t' ->
  Buckets_nonempty (Frames t').
Proof.
  intros H. unfold SetTextFrame.
  destruct (frameNameToUserFrame name) as [u|].
  - apply setUserTextFrame_nonempty. exact H.
  - destruct (Frames t !! name) as [[|f rest]|]; [discriminate| |];
      intros [= <-]; cbn [Frames set_Frames];
      (apply Buckets_nonempty_insert; [exact H|discriminate]).
Qed.

Lemma addFrame_nonempty (fm : gmap string (list Frame)) (frame : Frame) :
  Buckets_nonempty fm -> Buckets_nonempty (addFrame fm frame).
Proof.
  intros H. apply Buckets_nonempty_insert; [exact H|].
  destruct (default [] (fm !! Frame_ID frame)); discriminate.
Qed.

(** C6, at an input where it breaks: the bucket holds one entry, of
    description ["a"]; setting the entry of description ["b"] finds no
    match, yet [ok] is still true from the map lookup and [i] is the last
    index, so the entry ["a"] is overwritten instead of ["b"] being
    appended. *)
Theorem setUserTextFrame_overwrites_other :
  let t := set_Frames NewTag {["TXXX" := [userText "a" "1"]]} in
  let bucket (t : Tag) := Frames t !! "TXXX" in
  getUserTextFrame t "b" = Ok ""%string /\
  bucket <$> SetTextFrame t "TXXX:b" "2" = Ok (Some [userText "b" "2"]) /\
  bucket <$> SetTextFrame t "TXXX:b" "2"
  <> Ok (Some [userText "a" "1"; userText "b" "2"]).
Proof.
  assert (E : (λ t : Tag, Frames t !! "TXXX")
              <$> SetTextFrame
                    (set_Frames NewTag {["TXXX" := [userText "a" "1"]]})
                    "TXXX:b" "2"
              = Ok (Some [userText "b" "2"])) by (vm_compute; reflexivity).
  cbv zeta. split; [vm_compute; reflexivity|]. split; [exact E|].
  intros H. pose proof (eq_trans (eq_sym E) H) as H'. inversion H'.
Qed.


(** ** Reading frames *)

(** The store that the loop of [Parse] builds holds, under each
    identifier, the frames read with it, in the order read. *)
Lemma foldl_addFrame_lookup (k : string) (fs : list Frame) :
  forall acc : gmap string (list Frame),
    foldl addFrame acc fs !! k
    = match frames_of_ID k fs with
      | [] => acc !! k
      | bucket => Some (default [] (acc !! k) ++ bucket)
      end.
Proof.
  unfold frames_of_ID.
  induction fs as [|f fs IH]; intros acc; [reflexivity|].
  cbn [foldl]. rewrite IH. rewrite filter_cons.
  unfold addFrame at 1 2.
  destruct (decide (Frame_ID f = k)) as [->|Hne].
  - rewrite lookup_insert_eq. cbn [default].
    destruct (filter _ fs) as [|g gs].
    + reflexivity.
    + unfold Datatypes.id. rewrite <- app_assoc. reflexivity.
  - rewrite lookup_insert_ne by exact Hne. reflexivity.
Qed.

Lemma foldl_addFrame_empty (k : string) (fs : list Frame) :
  foldl addFrame ∅ fs !! k = bucket_of k fs.
Proof.
  rewrite foldl_addFrame_lookup, lookup_empty. unfold bucket_of.
  destruct (frames_of_ID k fs); reflexivity.
Qed.

Section ReadingFacts.

Variable toUTF8 : Encoding -> list byte -> Res (list byte).
Variable readTyped : FrameType -> Reader -> FrameHeader -> Z -> Res ReadResult.
Variable upgrade : Tag -> Res Tag.

Local Abbreviation readFrame' := (readFrame toUTF8 readTyped).
Local Abbreviation readFrames' := (readFrames toUTF8 readTyped).
Local Abbreviation parseFrames' := (parseFrames toUTF8 readTyped).
Local Abbreviation Parse' := (Parse toUTF8 readTyped upgrade).

Lemma valid_id_not_padding (ID : list byte) :
  forallb id_byte_ok ID = true ->
  bool_decide (ID = [Byte.x00; Byte.x00; Byte.x00; Byte.x00]) = false.
Proof.
  intros Hok. apply bool_decide_eq_false. intros ->.
  vm_compute in Hok. discriminate.
Qed.

Lemma readFrame_header (r r' : Reader) (hb : list byte) :
  ReadFull r 10 = ((hb, None), r') ->
  readFrame' r = readFrame_body toUTF8 readTyped hb r'.
Proof. intros H. unfold readFrame. rewrite H. reflexivity. Qed.

Lemma readFrame_bad_identifier (r r' : Reader) (hb : list byte) :
  ReadFull r 10 = ((hb, None), r') ->
  headerBytes_ID hb <> [Byte.x00; Byte.x00; Byte.x00; Byte.x00] ->
  forallb id_byte_ok (headerBytes_ID hb) = false ->
  readFrame' r = Ok ((None, Some (NotAFrameHeader hb)), r').
Proof.
  intros HR Hpad Hbad. rewrite (readFrame_header _ _ _ HR).
  unfold readFrame_body. rewrite bool_decide_eq_false_2 by exact Hpad.
  rewrite Hbad. reflexivity.
Qed.

Lemma set_Frames_twice (t : Tag) (a b : gmap string (list Frame)) :
  set_Frames (set_Frames t a) b = set_Frames t b.
Proof. reflexivity. Qed.

(** The loop of [Parse] follows the frames read one by one. *)
Lemma parseFrames_readFrames (n : nat) :
  forall (r r1 : Reader) (fs : list Frame) (t : Tag) (fuel : nat),
    readFrames' n r = Some (fs, r1) ->
    parseFrames' (n + fuel) r t
    = parseFrames' fuel r1 (set_Frames t (foldl addFrame (Frames t) fs)).
Proof.
  induction n as [|n IH]; intros r r1 fs t fuel H; cbn in H.
  - injection H as <- <-. destruct t; reflexivity.
  - destruct (readFrame' r)
      as [[[[f|] [e|]] r']|] eqn:E; try discriminate.
    destruct (readFrames' n r')
      as [[fs' r'']|] eqn:E'; try discriminate.
    injection H as <- <-.
    cbn [Nat.add parseFrames]. rewrite E.
    rewrite (IH _ _ _ _ fuel E'). reflexivity.
Qed.

(** The tag that the loop of [Parse] hands back, with or without an
    error, has no empty bucket. *)
Lemma parseFrames_nonempty (fuel : nat) (r : Reader) (tag tag' : Tag) :
  Buckets_nonempty (Frames tag) ->
  parseFrames' fuel r tag = Some (Ok (inl tag'))
  \/ (exists e, parseFrames' fuel r tag = Some (Ok (inr (tag', e)))) ->
  Buckets_nonempty (Frames tag').
Proof.
  revert r tag. induction fuel as [|fuel IH]; intros r tag H HP.
  - destruct HP as [HP|[e HP]]; discriminate.
  - cbn [parseFrames] in HP.
    destruct (readFrame' r) as [[[[frame|] [e|]] r1]|msg].
    + destruct e; destruct HP as [HP|[e' HP]]; inversion HP; subst; exact H.
    + apply (IH r1 (set_Frames tag (addFrame (Frames tag) frame)));
        [exact (addFrame_nonempty _ frame H) | exact HP].
    + destruct e; destruct HP as [HP|[e' HP]]; inversion HP; subst; exact H.
    + destruct HP as [HP|[e' HP]]; discriminate.
    + destruct HP as [HP|[e' HP]]; discriminate.
Qed.

(** C7: a frame header whose identifier is neither the padding nor made
    of digits and capital letters makes [readFrame] return
    [NotAFrameHeader]; [Parse] then returns, with that error, the tag
    that holds the frames read before it and no other: under each
    identifier the frames read with it, in the order read.  What follows
    the bad header in the input is not looked at. *)
Theorem Parse_stops_at_bad_identifier
    (input : list byte) (header : TagHeader) (r0 r1 r2 : Reader)
    (n : nat) (fs : list Frame) (hb : list byte) :
  ParseHeader (mkReader input None) = ((header, None), r0) ->
  ExtendedHeader (Flags header) = false ->
  Unsynchronisation (Flags header) = false ->
  readFrames' n (LimitReader r0 (Size header + tagHeaderSize)) = Some (fs, r1) ->
  ReadFull r1 10 = ((hb, None), r2) ->
  headerBytes_ID hb <> [Byte.x00; Byte.x00; Byte.x00; Byte.x00] ->
  forallb id_byte_ok (headerBytes_ID hb) = false ->
  readFrame' r1 = Ok ((None, Some (NotAFrameHeader hb)), r2) /\
  forall fuel, (n < fuel)%nat ->
    exists store : gmap string (list Frame),
      Parse' fuel input
      = Some (Ok (Some (mkTag header store), Some (NotAFrameHeader hb))) /\
      forall k, store !! k = bucket_of k fs.
Proof.
  intros HH Hext Huns Hfs HR Hpad Hbad.
  pose proof (readFrame_bad_identifier _ _ _ HR Hpad Hbad) as Hrf.
  split; [exact Hrf|]. intros fuel Hfuel.
  exists (foldl addFrame ∅ fs). split; [|intros k; apply foldl_addFrame_empty].
  unfold Parse. rewrite HH, Hext, Huns.
  replace fuel with (n + S (fuel - S n))%nat by lia.
  rewrite (parseFrames_readFrames n _ _ _ _ _ Hfs).
  cbn [parseFrames]. rewrite Hrf. reflexivity.
Qed.

(** C5 as the code has it: a frame header with a valid identifier whose
    flags have the compression, encryption or grouping bit set makes
    [readFrame] panic with a "not implemented" message; the loop of
    [Parse] does not recover and panics with it.  No error is
    returned. *)
Theorem readFrame_flagged_panics (r r' : Reader) (hb : list byte) :
  ReadFull r 10 = ((hb, None), r') ->
  forallb id_byte_ok (headerBytes_ID hb) = true ->
  Compressed (frameFlags hb) || Encrypted (frameFlags hb)
    || Grouped (frameFlags hb) = true ->
  exists msg,
    (msg = "not implemented: cannot read compressed frame"%string
     \/ msg = "not implemented: cannot read encrypted frame"%string
     \/ msg = "not implemented: cannot read grouped frame"%string) /\
    readFrame' r = Panic msg /\
    forall fuel t, parseFrames' (S fuel) r t = Some (Panic msg).
Proof.
  intros HR Hok Hfl.
  assert (exists msg,
    (msg = "not implemented: cannot read compressed frame"%string
     \/ msg = "not implemented: cannot read encrypted frame"%string
     \/ msg = "not implemented: cannot read grouped frame"%string) /\
    readFrame' r = Panic msg) as (msg & Hmsg & Hrf).
  { rewrite (readFrame_header _ _ _ HR). unfold readFrame_body.
    rewrite (valid_id_not_padding _ Hok), Hok. cbn [negb flags frameHeader].
    destruct (Compressed (frameFlags hb)); [eauto|].
    destruct (Encrypted (frameFlags hb)); [eauto 6|].
    destruct (Grouped (frameFlags hb)); [eauto 6|discriminate]. }
  exists msg. repeat split; [exact Hmsg | exact Hrf |].
  intros fuel t. cbn [parseFrames]. rewrite Hrf. reflexivity.
Qed.

Lemma firstn_length_self {A} (k : nat) (l : list A) :
  firstn k l = firstn (length (firstn k l)) l.
Proof.
  rewrite length_firstn. destruct (Nat.le_ge_cases k (length l)) as [H|H].
  - rewrite Nat.min_l by exact H. reflexivity.
  - rewrite Nat.min_r by exact H.
    rewrite firstn_all, firstn_all2 by exact H. reflexivity.
Qed.

Lemma Read_prefix (r r' : Reader) (n : nat) (got : list byte)
    (err : option error) :
  Read r n = ((got, err), r') ->
  got = firstn (length got) (rest r) /\
  ((n <= length (available r))%nat -> got = firstn n (rest r)).
Proof.
  unfold Read, available. intros H.
  destruct (N r) as [lim|] eqn:EN.
  - destruct (lim <=? 0) eqn:El.
    + injection H as <- <- <-. split; [reflexivity|].
      intros Hn. rewrite length_firstn in Hn.
      assert (n = 0%nat) as -> by lia. reflexivity.
    + apply Z.leb_gt in El.
      remember (Nat.min n (Z.to_nat lim)) as k eqn:Ek.
      destruct k as [|k].
      * injection H as <- <- <-. split; [reflexivity|].
        intros _. assert (n = 0%nat) as -> by lia. reflexivity.
      * destruct (rest r) as [|b l] eqn:Er.
        -- injection H as <- <- <-. split; [reflexivity|].
           intros _. rewrite firstn_nil. reflexivity.
        -- injection H as <- <- <-.
           change (b :: firstn k l) with (firstn (S k) (b :: l)).
           split; [apply firstn_length_self|].
           intros Hn. rewrite length_firstn in Hn. f_equal. lia.
  - destruct n as [|k].
    + injection H as <- <- <-. split; reflexivity.
    + destruct (rest r) as [|b l] eqn:Er.
      * injection H as <- <- <-. split; reflexivity.
      * injection H as <- <- <-.
        change (b :: firstn k l) with (firstn (S k) (b :: l)).
        split; [apply firstn_length_self|reflexivity].
Qed.

End ReadingFacts.

(** [Parse_stops_at_bad_identifier] on a tag with two frames, then a
    frame header of identifier [ZaZZ], then one more frame: the store
    returned holds the two frames and nothing under another
    identifier. *)
Lemma Parse_stops_at_bad_identifier_witness :
  exists store : gmap string (list Frame),
    Parse toUTF8_plain readTyped_absent upgrade_nothing 3
      (sample_header ++ sample_TIT2 ++ sample_ZZZZ ++ sample_bad
         ++ sample_TIT2)
    = Some (Ok (Some (mkTag (mkTagHeader 0x0400 Byte.x00 64) store),
                Some (NotAFrameHeader (firstn 10 sample_bad)))) /\
    store !! "TIT2"%string
    = Some [TextInformationFrame (mkFrameHeader "TIT2" 0) "Hi"] /\
    store !! "ZZZZ"%string
    = Some [UnsupportedFrame (mkFrameHeader "ZZZZ" 0) (bytes_of_Z [1; 2; 3])] /\
    forall k, k <> "TIT2"%string -> k <> "ZZZZ"%string -> store !! k = None.
Proof.
  destruct (proj2 (Parse_stops_at_bad_identifier
                   toUTF8_plain readTyped_absent upgrade_nothing
                   (sample_header ++ sample_TIT2 ++ sample_ZZZZ ++ sample_bad
                      ++ sample_TIT2)
                   (mkTagHeader 0x0400 Byte.x00 64)
                   (mkReader (sample_TIT2 ++ sample_ZZZZ ++ sample_bad
                                ++ sample_TIT2) None)
                   (mkReader (sample_bad ++ sample_TIT2) (Some 48))
                   (mkReader (skipn 10 sample_bad ++ sample_TIT2) (Some 38))
                   2
                   [TextInformationFrame (mkFrameHeader "TIT2" 0) "Hi";
                    UnsupportedFrame (mkFrameHeader "ZZZZ" 0)
                      (bytes_of_Z [1; 2; 3])]
                   (firstn 10 sample_bad)
                   ltac:(vm_compute; reflexivity) eq_refl eq_refl
                   ltac:(vm_compute; reflexivity)
                   ltac:(vm_compute; reflexivity)
                   ltac:(vm_compute; discriminate)
                   ltac:(vm_compute; reflexivity)) 3%nat ltac:(lia))
    as (store & HP & Hk).
  exists store. split; [exact HP|].
  split; [rewrite Hk; vm_compute; reflexivity|].
  split; [rewrite Hk; vm_compute; reflexivity|].
  intros k H1 H2. rewrite Hk. unfold bucket_of, frames_of_ID.
  rewrite !filter_cons, filter_nil. cbn [Frame_ID Frame_header id].
  destruct (decide ("TIT2"%string = k)) as [E|_]; [congruence|].
  destruct (decide ("ZZZZ"%string = k)) as [E|_]; [congruence|].
  reflexivity.
Defined.

(** C5 as stated fails: a [TIT2] frame with the compression bit set
    makes [readFrame], and [Parse] with it, panic; no error result
    reaches the caller. *)
Lemma compressed_frame_aborts :
  let r := mkReader sample_compressed (Some 64) in
  Compressed (frameFlags (firstn 10 sample_compressed)) = true /\
  readFrame toUTF8_plain readTyped_absent r
  = Panic "not implemented: cannot read compressed frame" /\
  Parse toUTF8_plain readTyped_absent upgrade_nothing 5
    (sample_header ++ sample_compressed)
  = Some (Panic "not implemented: cannot read compressed frame") /\
  ~ exists res, readFrame toUTF8_plain readTyped_absent r = Ok res.
Proof.
  assert (E : readFrame toUTF8_plain readTyped_absent
                (mkReader sample_compressed (Some 64))
              = Panic "not implemented: cannot read compressed frame")
    by (vm_compute; reflexivity).
  cbv zeta. split; [vm_compute; reflexivity|]. split; [exact E|].
  split; [vm_compute; reflexivity|].
  intros [res H]. pose proof (eq_trans (eq_sym E) H) as H'. inversion H'.
Qed.

(** [readFrame_flagged_panics] on that frame. *)
Lemma readFrame_flagged_panics_witness :
  exists msg,
    (msg = "not implemented: cannot read compressed frame"%string
     \/ msg = "not implemented: cannot read encrypted frame"%string
     \/ msg = "not implemented: cannot read grouped frame"%string) /\
    readFrame toUTF8_plain readTyped_absent
      (mkReader sample_compressed (Some 64)) = Panic msg /\
    forall fuel t,
      parseFrames toUTF8_plain readTyped_absent (S fuel)
        (mkReader sample_compressed (Some 64)) t = Some (Panic msg).
Proof.
  refine (readFrame_flagged_panics toUTF8_plain readTyped_absent
            (mkReader sample_compressed (Some 64))
            (mkReader (skipn 10 sample_compressed) (Some 54))
            (firstn 10 sample_compressed) _ _ _).
  - vm_compute. reflexivity.
  - vm_compute. reflexivity.
  - vm_compute. reflexivity.
Defined.


(** ** Frames on the wire *)

Lemma length_bytes_of (s : string) : len (bytes_of s) = strlen s.
Proof.
  unfold len, strlen, bytes_of, list_byte_of_string. f_equal.
  rewrite length_map. induction s as [|a s IH]; cbn; congruence.
Qed.

Lemma bytes_of_inj (s1 s2 : string) : bytes_of s1 = bytes_of s2 -> s1 = s2.
Proof.
  intros H. rewrite <- (string_of_list_byte_of_string s1).
  rewrite <- (string_of_list_byte_of_string s2).
  unfold bytes_of in H. rewrite H. reflexivity.
Qed.

Lemma length_copy {A} (dst src : list A) : length (copy dst src) = length dst.
Proof. unfold copy. rewrite length_app, length_firstn, length_skipn. lia. Qed.

Lemma length_copy_at {A} (dst : list A) (lo hi : nat) (src : list A) :
  (lo <= hi <= length dst)%nat -> length (copy_at dst lo hi src) = length dst.
Proof.
  intros H. unfold copy_at, slice.
  rewrite !length_app, length_copy, !length_firstn, !length_skipn. lia.
Qed.

Lemma length_serialize (h : FrameHeader) (sz : Z) : length (serialize h sz) = 10%nat.
Proof.
  unfold serialize.
  set (out0 := copy (repeat Byte.x00 10) (bytes_of (id h))).
  assert (H0 : length out0 = 10%nat)
    by (unfold out0; rewrite length_copy, repeat_length; reflexivity).
  set (out1 := copy_at out0 8 10 _).
  assert (H1 : length out1 = 10%nat)
    by (unfold out1; rewrite length_copy_at; lia).
  rewrite length_copy_at; lia.
Qed.

Lemma len_serialize (h : FrameHeader) (sz : Z) : len (serialize h sz) = 10.
Proof. unfold len. rewrite length_serialize. reflexivity. Qed.

(** [size()] is the number of bytes that [WriteTo] hands to the writer,
    for every frame whose methods do not panic. *)
Lemma Frame_wire_size (f : Frame) (sz : Z) :
  Frame_wf f ->
  Frame_size f = Ok sz -> exists wire, Frame_wire f = Ok wire /\ len wire = sz.
Proof.
  unfold Frame_wire. intros Hwf. revert Hwf.
  destruct f as [h T|h D T|h O I|h U|h D U|h L D T|h D]; cbn [Frame_WriteTo].
  - cbn [Frame_size]. intros _. destruct (bool_decide (id h = "TRDA")).
    + intros [= <-]. eexists; split; [reflexivity|]. reflexivity.
    + intros [= <-]. eexists; split; [reflexivity|].
      cbn [concat]. rewrite !len_app, len_serialize, length_bytes_of, len_nil.
      change (len utf8byte) with 1; unfold frameLength. lia.
  - intros _ H. rewrite H. injection H as <-.
    eexists; split; [reflexivity|].
    cbn [concat]. rewrite !len_app, len_serialize, !length_bytes_of, len_nil.
    change (len utf8byte) with 1; change (len nul) with 1; unfold frameLength. lia.
  - intros _ H. rewrite H. cbn [Frame_size] in H.
    destruct (utf8ToISO88591 (bytes_of O)) as [iso|]; [|discriminate].
    cbn in H. injection H as <-.
    eexists; split; [reflexivity|].
    cbn [concat]. rewrite !len_app, len_serialize, len_nil.
    change (len nul) with 1; unfold frameLength. lia.
  - intros _ H. rewrite H. cbn [Frame_size] in H.
    destruct (utf8ToISO88591 (bytes_of U)) as [iso|]; [|discriminate].
    cbn in H. injection H as <-.
    eexists; split; [reflexivity|].
    cbn [concat]. rewrite !len_app, len_serialize, len_nil.
    unfold frameLength. lia.
  - intros _ H. rewrite H. cbn [Frame_size] in H.
    destruct (utf8ToISO88591 (bytes_of U)) as [iso|]; [|discriminate].
    cbn in H. injection H as <-.
    eexists; split; [reflexivity|].
    cbn [concat]. rewrite !len_app, len_serialize, length_bytes_of, len_nil.
    change (len utf8byte) with 1; change (len nul) with 1; unfold frameLength. lia.
  - intros Hwf H. rewrite H. injection H as <-.
    eexists; split; [reflexivity|]. cbn [Frame_wf] in Hwf.
    cbn [concat]. rewrite !len_app, len_serialize, !length_bytes_of, len_nil.
    change (len utf8byte) with 1; change (len nul) with 1; unfold frameLength.
    lia.
  - intros _ [= <-]. eexists; split; reflexivity.
Qed.

Lemma Frame_size_panic (f : Frame) (msg : string) :
  Frame_size f = Panic msg -> msg = index_out_of_range.
Proof.
  destruct f as [h T|h D T|h O I|h U|h D U|h L D T|h D]; cbn [Frame_size];
    try discriminate.
  - destruct (bool_decide (id h = "TRDA")); discriminate.
  - destruct (utf8ToISO88591 (bytes_of O)); cbn; [discriminate|congruence].
  - destruct (utf8ToISO88591 (bytes_of U)); cbn; [discriminate|congruence].
  - destruct (utf8ToISO88591 (bytes_of U)); cbn; [discriminate|congruence].
Qed.

Lemma frames_size_panic (frames : list Frame) (msg : string) :
  frames_size frames = Panic msg -> msg = index_out_of_range.
Proof.
  induction frames as [|f frames IH]; cbn [frames_size]; [discriminate|].
  destruct (Frame_size f) as [a|m] eqn:E; cbn.
  - destruct (frames_size frames) as [b|m'] eqn:E'; cbn; [discriminate|].
    intros [= <-]. apply IH. reflexivity.
  - intros [= <-]. apply (Frame_size_panic _ _ E).
Qed.

(** The sum does not depend on the order in which the frames are
    visited. *)
Lemma frames_size_Permutation (l l' : list Frame) :
  l ≡ₚ l' -> frames_size l = frames_size l'.
Proof.
  induction 1 as [|x l l' _ IH|x y l|l l' l'' _ IH1 _ IH2].
  - reflexivity.
  - cbn [frames_size]. rewrite IH. reflexivity.
  - cbn [frames_size].
    destruct (Frame_size x) as [a|m] eqn:Ex;
      destruct (Frame_size y) as [b|m'] eqn:Ey; cbn;
      destruct (frames_size l) as [c|m''] eqn:El; cbn;
      try reflexivity; try (f_equal; lia);
      repeat match goal with
        | H : Frame_size _ = Panic _ |- _ =>
            apply Frame_size_panic in H; subst
        | H : frames_size _ = Panic _ |- _ =>
            apply frames_size_panic in H; subst
        end; reflexivity.
  - congruence.
Qed.

Lemma frames_wire_size (frames : list Frame) (F : Z) :
  Forall Frame_wf frames ->
  frames_size frames = Ok F ->
  exists wire, frames_wire frames = Ok wire /\ len wire = F.
Proof.
  intros Hwf. revert F.
  induction Hwf as [|f frames Hf _ IH]; intros F; cbn [frames_size frames_wire].
  - intros [= <-]. eexists; split; reflexivity.
  - destruct (Frame_size f) as [a|] eqn:Ea; cbn; [|discriminate].
    destruct (frames_size frames) as [b|] eqn:Eb; cbn; [|discriminate].
    intros [= <-].
    destruct (Frame_wire_size f a Hf Ea) as (wa & -> & Hla).
    destruct (IH b eq_refl) as (wb & -> & Hlb).
    cbn. eexists; split; [reflexivity|]. rewrite len_app. lia.
Qed.

Lemma frames_wire_app (a b : list Frame) :
  frames_wire (a ++ b)
  = wa ← frames_wire a; wb ← frames_wire b; Ok (wa ++ wb).
Proof.
  induction a as [|f a IH]; cbn [app frames_wire].
  - destruct (frames_wire b); reflexivity.
  - destruct (Frame_wire f) as [wf|]; cbn; [|reflexivity].
    rewrite IH. destruct (frames_wire a) as [wa|]; cbn; [|reflexivity].
    destruct (frames_wire b) as [wb|]; cbn; [|reflexivity].
    rewrite app_assoc. reflexivity.
Qed.

(** ** Writing at an offset *)

Lemma write_at_prefix (c : list byte) (p : nat) :
  length (firstn p (c ++ repeat Byte.x00 (p - length c))) = p.
Proof. rewrite length_firstn, length_app, repeat_length. lia. Qed.

Lemma length_write_at (c : list byte) (p : nat) (bs : list byte) :
  length (write_at c p bs) = Nat.max (length c) (p + length bs).
Proof.
  unfold write_at. rewrite !length_app, write_at_prefix, length_skipn. lia.
Qed.

Lemma write_at_app (c : list byte) (p : nat) (a b : list byte) :
  write_at (write_at c p a) (p + length a) b = write_at c p (a ++ b).
Proof.
  unfold write_at at 1.
  set (X := write_at c p a).
  assert (HX : (p + length a <= length X)%nat)
    by (unfold X; rewrite length_write_at; lia).
  replace (p + length a - length X)%nat with 0%nat by lia.
  cbn [repeat]. rewrite app_nil_r.
  unfold X, write_at.
  set (P := firstn p (c ++ repeat Byte.x00 (p - length c))).
  assert (HP : length P = p) by apply write_at_prefix.
  rewrite (app_assoc P a).
  rewrite take_app_length' by (rewrite length_app; lia).
  rewrite drop_app_ge by (rewrite length_app; lia).
  rewrite length_app, HP.
  replace (p + length a + length b - (p + length a))%nat with (length b) by lia.
  rewrite drop_drop, length_app, <- !app_assoc.
  rewrite Nat.add_assoc. reflexivity.
Qed.

Lemma write_at_end (c bs : list byte) : write_at c (length c) bs = c ++ bs.
Proof.
  unfold write_at. rewrite Nat.sub_diag. cbn [repeat].
  rewrite app_nil_r, firstn_all, skipn_all2 by lia.
  rewrite app_nil_r. reflexivity.
Qed.

Lemma write_at_0 (c bs : list byte) :
  write_at c 0 bs = bs ++ skipn (length bs) c.
Proof. reflexivity. Qed.

Lemma write_at_nil (c : list byte) (p : nat) :
  (p <= length c)%nat -> write_at c p [] = c.
Proof.
  intros H. unfold write_at.
  replace (p - length c)%nat with 0%nat by lia. cbn [repeat length app].
  rewrite app_nil_r, Nat.add_0_r. apply firstn_skipn.
Qed.


(** ** Computations on the storage *)

Lemma IO_bind_inv {A B} (m : IO A) (k : A -> IO B) (w : World)
    (r : B * World) :
  (m ≫= k) w = Ok r -> exists a w1, m w = Ok (a, w1) /\ k a w1 = Ok r.
Proof.
  unfold mbind, IO_bind. destruct (m w) as [[a w1]|]; [|discriminate].
  intros H. exists a, w1. split; [reflexivity|exact H].
Qed.

Lemma IO_bind_run {A B} (m : IO A) (k : A -> IO B) (w w1 : World) (a : A) :
  m w = Ok (a, w1) -> (m ≫= k) w = k a w1.
Proof. unfold mbind, IO_bind. intros ->. reflexivity. Qed.

Lemma liftRes_inv {A} (m : Res A) (w w' : World) (a : A) :
  liftRes m w = Ok (a, w') -> m = Ok a /\ w' = w.
Proof. unfold liftRes. destruct m; intros [= <- <-]; split; reflexivity. Qed.

Lemma mret_inv {A} (a a' : A) (w w' : World) :
  (mret a : IO A) w = Ok (a', w') -> a' = a /\ w' = w.
Proof. intros [= <- <-]. split; reflexivity. Qed.

Tactic Notation "io_inv" hyp(H) "as" ident(a) ident(w) ident(E) :=
  apply IO_bind_inv in H as (a & w & E & H).

Lemma scratch_step_refl (s : Sink) (w : World) :
  scratch_ok s w -> scratch_step s w w None (Ok []).
Proof.
  intros H. repeat split; [exact H|]. intros _. exists [].
  rewrite app_nil_r. split; reflexivity.
Qed.

Lemma scratch_step_fail (s : Sink) (w w' : World) (e : error)
    (wire wire' : Res (list byte)) :
  scratch_step s w w' (Some e) wire -> scratch_step s w w' (Some e) wire'.
Proof.
  intros (Hd & Hp & Hok & _). repeat split; try assumption. discriminate.
Qed.

Lemma scratch_step_seq (s : Sink) (w w1 w2 : World) (err : option error)
    (a : list byte) (wb : Res (list byte)) :
  scratch_step s w w1 None (Ok a) ->
  scratch_step s w1 w2 err wb ->
  scratch_step s w w2 err (x ← wb; Ok (a ++ x)).
Proof.
  intros (Hd & Hp & Hok & Ha) (Hd' & Hp' & Hok' & Hb).
  repeat split; try congruence.
  intros He. destruct (Ha eq_refl) as (a' & [= <-] & Ea).
  destruct (Hb He) as (b' & -> & Eb).
  exists (a ++ b'). split; [reflexivity|].
  rewrite Eb, Ea, app_assoc. reflexivity.
Qed.

Lemma Write_scratch (s : Sink) (bs : list byte) (w w' : World)
    (err : option error) :
  s <> TheFile -> scratch_ok s w ->
  Write s bs w = Ok (err, w') -> scratch_step s w w' err (Ok bs).
Proof.
  intros Hs Hok H. destruct s; [contradiction| |].
  - destruct w as [d p t b fl]. unfold scratch_ok in Hok. cbn in Hok.
    unfold Write, Temp_Write, mbind, IO_bind, next_fault, get_world,
      put_temp, mret, IO_ret in H.
    destruct fl as [|[k|] fl]; destruct t as [[c off]|]; cbn in H, Hok;
      injection H as <- <-; subst; unfold scratch_step, scratch_ok; cbn;
      rewrite ?write_at_end, ?skipn_nil, ?app_nil_r, ?length_app;
      (split; [reflexivity|split; [reflexivity|split; [reflexivity|]]]);
      first [ discriminate | intros _; eexists; split; reflexivity ].
  - destruct w as [d p t b fl].
    unfold Write, mbind, IO_bind, get_world, put_buffer, mret, IO_ret in H.
    cbn in H. injection H as <- <-.
    unfold scratch_step, scratch_ok; cbn. repeat split.
    intros _. eexists; split; reflexivity.
Qed.

Lemma writeMany_scratch (s : Sink) (data : list (list byte)) :
  s <> TheFile ->
  forall (w w' : World) (err : option error),
    scratch_ok s w ->
    writeMany s data w = Ok (err, w') ->
    scratch_step s w w' err (Ok (concat data)).
Proof.
  intros Hs. induction data as [|d data IH]; intros w w' err Hok H.
  - cbn in H. apply mret_inv in H as [-> ->]. apply scratch_step_refl, Hok.
  - cbn [writeMany] in H. io_inv H as a w0 E.
    pose proof (Write_scratch _ _ _ _ _ Hs Hok E) as Hstep.
    destruct a as [e|].
    + apply mret_inv in H as [-> ->]. eapply scratch_step_fail, Hstep.
    + destruct Hstep as (Hd & Hp & Hok1 & Ha).
      pose proof (IH _ _ _ Hok1 H) as Hrest.
      exact (scratch_step_seq _ _ _ _ _ _ _
               (conj Hd (conj Hp (conj Hok1 Ha))) Hrest).
Qed.

Lemma Frame_Encode_scratch (s : Sink) (f : Frame) (w w' : World)
    (err : option error) :
  s <> TheFile -> scratch_ok s w ->
  Frame_Encode s f w = Ok (err, w') ->
  scratch_step s w w' err (Frame_wire f).
Proof.
  intros Hs Hok H. unfold Frame_Encode in H. io_inv H as data w0 E.
  apply liftRes_inv in E as [E ->].
  unfold Frame_wire. rewrite E. cbn.
  exact (writeMany_scratch _ _ Hs _ _ _ Hok H).
Qed.

Lemma frames_Encode_scratch (s : Sink) (frames : list Frame) :
  s <> TheFile ->
  forall (w w' : World) (err : option error),
    scratch_ok s w ->
    frames_Encode s frames w = Ok (err, w') ->
    scratch_step s w w' err (frames_wire frames).
Proof.
  intros Hs. induction frames as [|f frames IH]; intros w w' err Hok H.
  - cbn in H. apply mret_inv in H as [-> ->]. apply scratch_step_refl, Hok.
  - cbn [frames_Encode] in H. io_inv H as a w0 E.
    pose proof (Frame_Encode_scratch _ _ _ _ _ Hs Hok E) as Hstep.
    destruct a as [e|].
    + apply mret_inv in H as [-> ->]. eapply scratch_step_fail, Hstep.
    + cbn [frames_wire].
      destruct Hstep as (Hd & Hp & Hok1 & Ha).
      destruct (Ha eq_refl) as (wf & Ef & Edata). rewrite Ef. cbn.
      pose proof (IH _ _ _ Hok1 H) as Hrest.
      refine (scratch_step_seq _ _ _ _ _ wf _ _ Hrest).
      repeat split; try assumption.
      intros _. exists wf. split; [reflexivity|exact Edata].
Qed.


(** ** The save engine *)

Section SavingFacts.

Variable Time : Type.
Variable Format : Time -> string.
Variable Padding : Z.
Variable InMemoryThreshold : Z.
Variable range : gmap string (list Frame) -> list (string * list Frame).
Hypothesis range_perm : forall fm, range fm ≡ₚ map_to_list fm.

Local Abbreviation SetTextFrameTime' := (SetTextFrameTime Time Format).
Local Abbreviation stamp' := (stamp Time Format).
Local Abbreviation stamped' := (stamped Time Format).
Local Abbreviation Tag_image' := (Tag_image Padding range).
Local Abbreviation FramesMap_Encode' := (FramesMap_Encode range).
Local Abbreviation Tag_Encode' := (Tag_Encode Time Format Padding range).
Local Abbreviation SaveTo' := (SaveTo Time Format Padding range).
Local Abbreviation saveInplace' := (saveInplace range).
Local Abbreviation saveNew_scratch' := (saveNew_scratch InMemoryThreshold).
Local Abbreviation saveNew_commit' := (saveNew_commit Padding).
Local Abbreviation saveNew' :=
  (saveNew Time Format Padding InMemoryThreshold range).
Local Abbreviation Save' := (Save Time Format Padding InMemoryThreshold range).

(** What [SetTextFrameTime] does for ["TDTG"]: it panics on a bucket that
    is present and empty and otherwise leaves the stamped tag. *)
Lemma SetTextFrameTime_TDTG (t : Tag) (now : Time) :
  SetTextFrameTime' t "TDTG" now
  = match Frames t !! "TDTG" with
    | Some [] => Panic index_out_of_range
    | _ => Ok (stamped' t now)
    end.
Proof.
  unfold SetTextFrameTime, SetTextFrame, stamped, stamp.
  change (frameNameToUserFrame "TDTG") with (@None string).
  destruct (Frames t !! "TDTG") as [[|f fs]|]; reflexivity.
Qed.

Lemma SetTextFrameTime_TDTG_Ok (t t1 : Tag) (now : Time) :
  SetTextFrameTime' t "TDTG" now = Ok t1 ->
  t1 = stamped' t now /\ Frames t !! "TDTG" <> Some [].
Proof.
  rewrite SetTextFrameTime_TDTG.
  destruct (Frames t !! "TDTG") as [[|f fs]|]; try discriminate;
    intros [= <-]; split; try reflexivity; discriminate.
Qed.

Lemma stamped_Header (t : Tag) (now : Time) :
  Header (stamped' t now) = Header t.
Proof. reflexivity. Qed.

Lemma stamped_lookup (t : Tag) (now : Time) :
  Frames (stamped' t now) !! "TDTG"
  = Some (stamp' now :: tail (default [] (Frames t !! "TDTG"))).
Proof. unfold stamped. cbn [Frames set_Frames]. apply lookup_insert_eq. Qed.

Lemma stamped_lookup_ne (t : Tag) (now : Time) (k : string) :
  k <> "TDTG" -> Frames (stamped' t now) !! k = Frames t !! k.
Proof.
  intros Hk. unfold stamped. cbn [Frames set_Frames].
  apply lookup_insert_ne. congruence.
Qed.

Lemma stamped_twice (t : Tag) (now now' : Time) :
  stamped' (stamped' t now) now' = stamped' t now'.
Proof.
  unfold stamped at 1. rewrite stamped_lookup. cbn [default tail].
  unfold stamped. cbn [Frames set_Frames Header].
  rewrite insert_insert_eq. reflexivity.
Qed.

Lemma stamped_nonempty (t : Tag) (now : Time) :
  (0 < size (Frames (stamped' t now)))%nat.
Proof.
  assert (size (Frames (stamped' t now)) <> 0%nat); [|lia].
  apply map_size_ne_0_lookup. exists "TDTG"%string.
  rewrite stamped_lookup. eauto.
Qed.

Lemma scratch_step_wire (s : Sink) (w w' : World) (err : option error)
    (bs : list byte) (wire : Res (list byte)) :
  wire = Ok bs -> scratch_step s w w' err (Ok bs) ->
  scratch_step s w w' err wire.
Proof. intros ->. exact (fun H => H). Qed.

(** The [Encode] of a tag into a scratch store: the tag is left
    stamped, [f.f] untouched, and a return without error means that the
    whole of [Tag_image] was appended. *)
Lemma Tag_Encode_scratch (now : Time) (s : Sink) (t t' : Tag)
    (w w' : World) (err : option error) :
  s <> TheFile -> scratch_ok s w ->
  Tag_Encode' now s t w = Ok ((err, t'), w') ->
  t' = stamped' t now /\ Frames t !! "TDTG" <> Some [] /\
  scratch_step s w w' err (Tag_image' t').
Proof.
  intros Hs Hok H. unfold Tag_Encode in H.
  io_inv H as t1 w0 E. apply liftRes_inv in E as [E ->].
  apply SetTextFrameTime_TDTG_Ok in E as [-> Hne].
  io_inv H as F w0 EF. apply liftRes_inv in EF as [EF ->].
  io_inv H as e1 w1 E1.
  pose proof (Write_scratch _ _ _ _ _ Hs Hok E1) as S1.
  destruct e1 as [e|].
  { apply mret_inv in H as [[= -> ->] ->].
    split; [reflexivity|split; [exact Hne|]]. eapply scratch_step_fail, S1. }
  io_inv H as e2 w2 E2. unfold FramesMap_Encode in E2.
  destruct S1 as (Hd1 & Hp1 & Hok1 & Ha1).
  pose proof (frames_Encode_scratch _ _ Hs _ _ _ Hok1 E2) as S2.
  pose proof (scratch_step_seq _ _ _ _ _ _ _
                (conj Hd1 (conj Hp1 (conj Hok1 Ha1))) S2) as S12.
  destruct e2 as [e|].
  { apply mret_inv in H as [[= -> ->] ->].
    split; [reflexivity|split; [exact Hne|]]. eapply scratch_step_fail, S12. }
  io_inv H as pad w3 EP. apply liftRes_inv in EP as [EP ->].
  io_inv H as e3 w3 E3. apply mret_inv in H as [[= -> ->] ->].
  destruct S12 as (Hd2 & Hp2 & Hok2 & Ha2).
  pose proof (Write_scratch _ _ _ _ _ Hs Hok2 E3) as S3.
  split; [reflexivity|split; [exact Hne|]].
  destruct (frames_wire (concat (range (Frames (stamped' t now))).*2))
    as [wire|] eqn:EW; [|destruct (Ha2 eq_refl) as (? & ? & _); discriminate].
  assert (S12' : scratch_step s w w2 None
                   (Ok (generateHeader (F + Padding) ++ wire))).
  { split; [|split; [|split]]; assumption. }
  pose proof (scratch_step_seq _ _ _ _ _ _ _ S12' S3) as S123.
  refine (scratch_step_wire _ _ _ _
            ((generateHeader (F + Padding) ++ wire) ++ pad) _ _ S123).
  unfold Tag_image. rewrite EF. cbn [mbind Res_bind].
  rewrite EW. cbn [mbind Res_bind]. rewrite EP. cbn [mbind Res_bind].
  rewrite <- app_assoc. reflexivity.
Qed.


Lemma next_fault_inv (w w0 : World) (o : option nat) :
  next_fault w = Ok (o, w0) ->
  disk w0 = disk w /\ pos w0 = pos w /\ temp w0 = temp w /\
  buffer w0 = buffer w.
Proof.
  unfold next_fault. destruct (faults w); intros [= <- <-]; repeat split.
Qed.

Lemma Copy_audio_scratch (s : Sink) (f : File) (w w' : World)
    (err : option error) :
  s <> TheFile -> scratch_ok s w ->
  Copy_audio s f w = Ok (err, w') ->
  scratch_step s w w' err (Ok (audio_bytes f (disk w))).
Proof.
  intros Hs Hok H. unfold Copy_audio in H.
  io_inv H as o w0 E. apply next_fault_inv in E as (Hd & Hp & Ht & Hb).
  assert (Hsd : sink_data s w0 = sink_data s w)
    by (destruct s; cbn; congruence).
  assert (Hok0 : scratch_ok s w0)
    by (unfold scratch_ok in *; destruct s; cbn in *; congruence).
  io_inv H as st w1 E. injection E as <- <-.
  rewrite Hd in H.
  destruct o as [k|].
  - io_inv H as werr w1 E. apply mret_inv in H as [-> ->].
    assert (S1 : scratch_step s w0 w1 werr
                   (Ok (firstn k (audio_bytes f (disk w))))).
    { destruct (firstn k (audio_bytes f (disk w))) eqn:Ek.
      - apply mret_inv in E as [-> ->]. apply scratch_step_refl, Hok0.
      - exact (Write_scratch _ _ _ _ _ Hs Hok0 E). }
    destruct S1 as (Hd1 & Hp1 & Hok1 & _).
    split; [congruence|]. split; [congruence|]. split; [exact Hok1|].
    destruct werr; discriminate.
  - io_inv H as werr w1 E. apply mret_inv in H as [-> ->].
    assert (S1 : scratch_step s w0 w1 werr (Ok (audio_bytes f (disk w)))).
    { destruct (audio_bytes f (disk w)) eqn:Ek.
      - apply mret_inv in E as [-> ->]. apply scratch_step_refl, Hok0.
      - exact (Write_scratch _ _ _ _ _ Hs Hok0 E). }
    destruct S1 as (Hd1 & Hp1 & Hok1 & Ha1).
    split; [congruence|]. split; [congruence|]. split; [exact Hok1|].
    intros He. destruct werr; [discriminate|].
    destruct (Ha1 eq_refl) as (bs & Ebs & Edata).
    exists bs. split; [exact Ebs|]. rewrite Edata, Hsd. reflexivity.
Qed.

(** [SaveTo] into a scratch store: the file handle is left with the
    stamped tag, [f.f] untouched, and a return without error means that
    the store received the image of the tag followed by the audio
    bytes. *)
Lemma SaveTo_scratch (now : Time) (s : Sink) (f f' : File) (w w' : World)
    (err : option error) :
  s <> TheFile -> scratch_ok s w ->
  SaveTo' now s f w = Ok ((err, f'), w') ->
  f' = set_tag f (stamped' (tag f) now) /\
  Frames (tag f) !! "TDTG" <> Some [] /\
  scratch_step s w w' err
    (img ← Tag_image' (tag f'); Ok (img ++ audio_bytes f (disk w))).
Proof.
  intros Hs Hok H. unfold SaveTo in H.
  io_inv H as r w1 E. destruct r as [e1 t1].
  destruct (Tag_Encode_scratch _ _ _ _ _ _ _ Hs Hok E) as (-> & Hne & S1).
  destruct e1 as [e|].
  { apply mret_inv in H as [[= -> ->] ->].
    split; [reflexivity|]. split; [exact Hne|].
    eapply scratch_step_fail, S1. }
  io_inv H as e2 w2 E2. apply mret_inv in H as [[= -> ->] ->].
  split; [reflexivity|]. split; [exact Hne|].
  destruct S1 as (Hd1 & Hp1 & Hok1 & Ha1).
  destruct (Ha1 eq_refl) as (img & Eimg & Edata).
  pose proof (Copy_audio_scratch _ _ _ _ _ Hs Hok1 E2) as S2.
  cbn [tag set_tag]. rewrite Eimg. cbn [mbind Res_bind].
  assert (S1' : scratch_step s w w1 None (Ok img)).
  { split; [|split; [|split]]; try assumption.
    intros _. exists img. split; [reflexivity|exact Edata]. }
  pose proof (scratch_step_seq _ _ _ _ _ _ _ S1' S2) as S12.
  rewrite Hd1 in S12. exact S12.
Qed.

Lemma saveNew_scratch_inv (f : File) (w w0 : World) (err : option error)
    (buf : Sink) :
  saveNew_scratch' f w = Ok ((err, buf), w0) ->
  disk w0 = disk w /\ pos w0 = pos w /\ buf <> TheFile /\
  (err = None -> scratch_ok buf w0 /\ sink_data buf w0 = []).
Proof.
  unfold saveNew_scratch. destruct w as [d p t b fl].
  destruct (fileSize f <? InMemoryThreshold).
  - intros [= <- <- <-]. repeat split; discriminate.
  - unfold TempFile, mbind, IO_bind, next_fault, put_temp, mret, IO_ret.
    destruct fl as [|[k|] fl]; cbn; intros [= <- <- <-];
      repeat split; discriminate.
Qed.

Lemma liftRes_run {A B} (a : A) (k : A -> IO B) (w : World) :
  (liftRes (Ok a) ≫= k) w = k a w.
Proof. reflexivity. Qed.

(** [Save] stamps the tag, sums the sizes of the stamped store and then
    takes one of its two paths. *)
Lemma Save_paths (now now' : Time) (f : File) (w : World) (F : Z) :
  Frames (tag f) !! "TDTG" <> Some [] ->
  FramesMap_size (Frames (stamped' (tag f) now)) = Ok F ->
  Save' now now' f w
  = (if HasTag f && (F <=? Size (Header (tag f)))
     then saveInplace' F (set_tag f (stamped' (tag f) now))
     else saveNew' now' F (set_tag f (stamped' (tag f) now))) w.
Proof.
  intros Hne HF. unfold Save. rewrite SetTextFrameTime_TDTG.
  destruct (Frames (tag f) !! "TDTG") as [[|x l]|] eqn:El;
    [contradiction| |];
    rewrite liftRes_run; cbn [tag set_tag]; rewrite HF, liftRes_run;
    pose proof (stamped_nonempty (tag f) now) as Hsz;
    (replace (0 <? Z.of_nat (size (Frames (stamped' (tag f) now))))
       with true by (symmetry; apply Z.ltb_lt; lia));
    rewrite andb_true_r; reflexivity.
Qed.

(** C3: on the Rebuild path [Save] builds the whole image in the scratch
    store before it touches the file.  When the temporary file cannot be
    created, or when [SaveTo] returns an error, [Save] returns that
    error and the file holds what it held.  When [SaveTo] returns no
    error the scratch store holds the complete image (header, frames,
    padding, audio) while the file is still untouched, and what is left
    of [Save] is the commit, which starts with the truncation. *)
Theorem Save_rebuild_stages_before_truncating
    (now now' : Time) (f : File) (w : World) (F : Z) :
  let f1 := set_tag f (stamped' (tag f) now) in
  Frames (tag f) !! "TDTG" <> Some [] ->
  FramesMap_size (Frames (tag f1)) = Ok F ->
  HasTag f = false \/ Size (Header (tag f)) < F ->
  (forall e buf w0,
     saveNew_scratch' f1 w = Ok ((Some e, buf), w0) ->
     Save' now now' f w = Ok ((Some e, f1), w0) /\ disk w0 = disk w) /\
  (forall buf w0 err f2 w1,
     saveNew_scratch' f1 w = Ok ((None, buf), w0) ->
     SaveTo' now' buf f1 w0 = Ok ((err, f2), w1) ->
     disk w1 = disk w /\
     match err with
     | Some e =>
         exists w', Save' now now' f w = Ok ((Some e, f2), w') /\
                    disk w' = disk w
     | None =>
         exists image,
           (img ← Tag_image' (tag f2); Ok (img ++ audio_bytes f (disk w)))
           = Ok image /\
           sink_data buf w1 = image /\
           Save' now now' f w
           = (r ← saveNew_commit' F buf f2;
              _ ← saveNew_cleanup buf;
              mret r) w1
     end).
Proof.
  intros f1 Hne HF Hpath.
  assert (HS : Save' now now' f w = saveNew' now' F f1 w).
  { rewrite (Save_paths now now' f w F Hne HF).
    replace (HasTag f && (F <=? Size (Header (tag f)))) with false;
      [reflexivity|].
    symmetry. destruct Hpath as [-> | Hlt]; [reflexivity|].
    apply andb_false_iff. right. apply Z.leb_gt. exact Hlt. }
  split.
  - intros e buf w0 Hsc.
    destruct (saveNew_scratch_inv _ _ _ _ _ Hsc) as (Hd & _).
    split; [|exact Hd].
    rewrite HS. unfold saveNew. rewrite (IO_bind_run _ _ _ _ _ Hsc).
    reflexivity.
  - intros buf w0 err f2 w1 Hsc Hto.
    destruct (saveNew_scratch_inv _ _ _ _ _ Hsc) as (Hd & Hp & Hbuf & Hok).
    destruct (Hok eq_refl) as [Hok0 Hempty].
    destruct (SaveTo_scratch _ _ _ _ _ _ _ Hbuf Hok0 Hto)
      as (Hf2 & _ & (Hd1 & Hp1 & Hok1 & Ha1)).
    split; [congruence|].
    destruct err as [e|].
    + destruct (saveNew_cleanup buf w1) as [[[] w2]|] eqn:Ecl.
      2:{ destruct buf; discriminate. }
      exists w2. split.
      * rewrite HS. unfold saveNew. rewrite (IO_bind_run _ _ _ _ _ Hsc).
        cbn beta iota.
        unfold mbind at 1, IO_bind at 1.
        rewrite (IO_bind_run _ _ _ _ _ Hto). cbn beta iota.
        change ((mret (Some e, f2) : IO _) w1) with (Ok ((Some e, f2), w1)).
        cbn beta iota. rewrite (IO_bind_run _ _ _ _ _ Ecl). reflexivity.
      * destruct buf; cbn in Ecl; injection Ecl as <-; cbn; congruence.
    + destruct (Ha1 eq_refl) as (image & Eimage & Edata).
      exists image. split; [|split].
      * rewrite <- Eimage. rewrite Hd. reflexivity.
      * rewrite Edata, Hempty. reflexivity.
      * rewrite HS. unfold saveNew. rewrite (IO_bind_run _ _ _ _ _ Hsc).
        cbn beta iota.
        unfold mbind at 1, IO_bind at 1.
        rewrite (IO_bind_run _ _ _ _ _ Hto). cbn beta iota.
        reflexivity.
Qed.

Lemma saveInplace_Frames (F : Z) (f f' : File) (w w' : World)
    (err : option error) :
  saveInplace' F f w = Ok ((err, f'), w') ->
  Frames (tag f') = Frames (tag f).
Proof.
  unfold saveInplace. intros H.
  io_inv H as e1 w1 E1. destruct e1;
    [apply mret_inv in H as [[= -> ->] ->]; reflexivity|].
  io_inv H as e2 w2 E2. destruct e2;
    [apply mret_inv in H as [[= -> ->] ->]; reflexivity|].
  io_inv H as e3 w3 E3. destruct e3;
    [apply mret_inv in H as [[= -> ->] ->]; reflexivity|].
  io_inv H as zeros w4 E4. io_inv H as e5 w5 E5.
  apply mret_inv in H as [[= -> ->] ->]. reflexivity.
Qed.

Lemma saveNew_commit_Frames (F : Z) (buf : Sink) (f f' : File)
    (w w' : World) (err : option error) :
  saveNew_commit' F buf f w = Ok ((err, f'), w') ->
  Frames (tag f') = Frames (tag f).
Proof.
  unfold saveNew_commit. intros H.
  io_inv H as e1 w1 E1. destruct e1;
    [apply mret_inv in H as [[= -> ->] ->]; reflexivity|].
  io_inv H as e2 w2 E2. destruct e2;
    [apply mret_inv in H as [[= -> ->] ->]; reflexivity|].
  io_inv H as e3 w3 E3. destruct e3;
    apply mret_inv in H as [[= -> ->] ->]; reflexivity.
Qed.

Lemma saveNew_Frames (now' : Time) (F : Z) (f f' : File) (w w' : World)
    (err : option error) :
  saveNew' now' F f w = Ok ((err, f'), w') ->
  Frames (tag f') = Frames (tag f)
  \/ Frames (tag f') = Frames (stamped' (tag f) now').
Proof.
  unfold saveNew. intros H.
  io_inv H as r w0 Hsc. destruct r as [e0 buf].
  destruct e0 as [e|];
    [apply mret_inv in H as [[= -> ->] ->]; left; reflexivity|].
  destruct (saveNew_scratch_inv _ _ _ _ _ Hsc) as (_ & _ & Hbuf & Hok).
  destruct (Hok eq_refl) as [Hok0 _].
  io_inv H as r w1 Hin. io_inv H as u w2 Hcl.
  apply mret_inv in H as [Er ->]. subst r.
  io_inv Hin as r2 w3 Hto. destruct r2 as [e2 f2].
  destruct (SaveTo_scratch _ _ _ _ _ _ _ Hbuf Hok0 Hto) as (-> & _ & _).
  right. destruct e2 as [e|].
  - apply mret_inv in Hin as [[= -> ->] ->]. reflexivity.
  - apply saveNew_commit_Frames in Hin. exact Hin.
Qed.

(** Whatever its outcome, a [Save] that returns leaves the store of the
    file handle stamped, with the time read by [Save] or with the one
    read by the [Encode] of the tag. *)
Lemma Save_leaves_stamped (now now' : Time) (f f' : File) (w w' : World)
    (err : option error) :
  Save' now now' f w = Ok ((err, f'), w') ->
  Frames (tag f) !! "TDTG" <> Some [] /\
  (Frames (tag f') = Frames (stamped' (tag f) now)
   \/ Frames (tag f') = Frames (stamped' (tag f) now')).
Proof.
  unfold Save. intros H.
  io_inv H as t1 w0 E. apply liftRes_inv in E as [E ->].
  apply SetTextFrameTime_TDTG_Ok in E as [-> Hne]. split; [exact Hne|].
  io_inv H as F w0 EF. apply liftRes_inv in EF as [EF ->].
  cbn [tag set_tag] in H.
  destruct (_ && _) in H.
  - apply saveInplace_Frames in H. left. exact H.
  - apply saveNew_Frames in H. cbn [tag set_tag] in H.
    rewrite stamped_twice in H. exact H.
Qed.


(** *** Writing into the buffer never fails *)

Lemma Write_buffer (bs : list byte) (w : World) :
  Write TheBuffer bs w = Ok (None, with_buffer w (buffer w ++ bs)).
Proof. reflexivity. Qed.

Lemma with_buffer_twice (w : World) (a b : list byte) :
  with_buffer (with_buffer w a) b = with_buffer w b.
Proof. reflexivity. Qed.

Lemma with_buffer_same (w : World) : with_buffer w (buffer w) = w.
Proof. destruct w. reflexivity. Qed.

Lemma writeMany_buffer (data : list (list byte)) (w : World) :
  writeMany TheBuffer data w
  = Ok (None, with_buffer w (buffer w ++ concat data)).
Proof.
  revert w. induction data as [|d data IH]; intros w.
  - cbn [writeMany concat]. rewrite app_nil_r, with_buffer_same. reflexivity.
  - cbn [writeMany concat].
    rewrite (IO_bind_run _ _ _ _ _ (Write_buffer d w)). rewrite IH.
    cbn [buffer with_buffer]. rewrite with_buffer_twice, <- app_assoc.
    reflexivity.
Qed.

Lemma frames_Encode_buffer (frames : list Frame) (w : World) :
  frames_Encode TheBuffer frames w
  = match frames_wire frames with
    | Ok wire => Ok (None, with_buffer w (buffer w ++ wire))
    | Panic msg => Panic msg
    end.
Proof.
  revert w. induction frames as [|f frames IH]; intros w.
  - cbn [frames_Encode frames_wire]. rewrite app_nil_r, with_buffer_same.
    reflexivity.
  - cbn [frames_Encode frames_wire]. unfold Frame_Encode, Frame_wire.
    destruct (Frame_WriteTo f) as [data|msg]; [|reflexivity].
    unfold mbind at 1, IO_bind at 1. rewrite liftRes_run, writeMany_buffer.
    rewrite IH. cbn [mbind Res_bind buffer with_buffer].
    destruct (frames_wire frames) as [wire|msg]; [|reflexivity].
    cbn [mbind Res_bind]. rewrite with_buffer_twice, <- app_assoc.
    reflexivity.
Qed.

(** The [Encode] of a tag into a buffer, as a function of the stamped
    tag. *)
Lemma Tag_Encode_buffer (now : Time) (t : Tag) (w : World) :
  Frames t !! "TDTG" <> Some [] ->
  Tag_Encode' now TheBuffer t w
  = match Tag_image' (stamped' t now) with
    | Ok image =>
        Ok ((None, stamped' t now), with_buffer w (buffer w ++ image))
    | Panic msg => Panic msg
    end.
Proof.
  intros Hne. unfold Tag_Encode, Tag_image.
  rewrite SetTextFrameTime_TDTG.
  destruct (Frames t !! "TDTG") as [[|x l]|] eqn:El; [contradiction| |];
    rewrite liftRes_run;
    (destruct (FramesMap_size (Frames (stamped' t now))) as [F|msg];
       [|reflexivity]);
    rewrite liftRes_run; cbn [mbind Res_bind];
    rewrite (IO_bind_run _ _ _ _ _ (Write_buffer _ w));
    unfold FramesMap_Encode;
    unfold mbind at 1, IO_bind at 1; rewrite frames_Encode_buffer;
    (destruct (frames_wire (concat (range (Frames (stamped' t now))).*2))
       as [wire|msg]; [|reflexivity]);
    cbn [mbind Res_bind];
    (destruct (make_bytes Padding) as [pad|msg]; [|reflexivity]);
    rewrite liftRes_run;
    rewrite (IO_bind_run _ _ _ _ _ (Write_buffer _ _));
    cbn [mbind Res_bind buffer with_buffer];
    rewrite !with_buffer_twice, <- !app_assoc; reflexivity.
Qed.

(** *** The order of a traversal *)

Lemma range_lookup (fm : gmap string (list Frame)) (k : string)
    (v : list Frame) :
  (k, v) ∈ range fm -> fm !! k = Some v.
Proof.
  intros H. rewrite (range_perm fm) in H.
  apply elem_of_map_to_list in H. exact H.
Qed.

Lemma range_buckets (fm : gmap string (list Frame)) :
  (range fm).*2 = (λ k, default [] (fm !! k)) <$> (range fm).*1.
Proof.
  assert (H : forall l : list (string * list Frame),
             (forall k v, (k, v) ∈ l -> fm !! k = Some v) ->
             l.*2 = (λ k, default [] (fm !! k)) <$> l.*1).
  { induction l as [|[k v] l IH]; intros Hl; [reflexivity|].
    cbn [fmap list_fmap fst snd]. f_equal.
    - rewrite (Hl k v) by (apply list_elem_of_here). reflexivity.
    - apply IH. intros k' v' Hin. apply Hl. apply list_elem_of_further, Hin. }
  apply H. intros k v. apply range_lookup.
Qed.

Lemma range_keys_NoDup (fm : gmap string (list Frame)) :
  NoDup (range fm).*1.
Proof. rewrite (range_perm fm). apply NoDup_fst_map_to_list. Qed.

Lemma range_has_key (fm : gmap string (list Frame)) (k : string)
    (v : list Frame) :
  fm !! k = Some v -> k ∈ (range fm).*1.
Proof.
  intros H. rewrite (range_perm fm).
  apply list_elem_of_fmap. exists (k, v). split; [reflexivity|].
  apply elem_of_map_to_list. exact H.
Qed.

(** The sizes summed by [FramesMap.size] are those of the frames that
    [FramesMap.Encode] visits. *)
Lemma FramesMap_size_range (fm : gmap string (list Frame)) :
  FramesMap_size fm = frames_size (concat (range fm).*2).
Proof.
  unfold FramesMap_size. apply frames_size_Permutation.
  rewrite (range_perm fm). reflexivity.
Qed.

(** *** Two encodings at two times *)

Lemma stamp_wire (now : Time) :
  Frame_wire (stamp' now)
  = Ok (serialize (mkFrameHeader "TDTG" 0) (strlen (Format now) + 1)
          ++ utf8byte ++ bytes_of (Format now)).
Proof.
  unfold Frame_wire, stamp. cbn [Frame_WriteTo Frame_size id].
  rewrite bool_decide_eq_false_2 by discriminate.
  cbn [mbind Res_bind concat]. rewrite app_nil_r.
  replace (frameLength + strlen (Format now) + 1 - frameLength)
    with (strlen (Format now) + 1) by lia.
  reflexivity.
Qed.

Lemma Ok_inj {A} (a b : A) : Ok a = Ok b -> a = b.
Proof. congruence. Qed.

Lemma stamp_wire_differs (now1 now2 : Time) :
  Format now1 <> Format now2 -> Frame_wire (stamp' now1) <> Frame_wire (stamp' now2).
Proof.
  intros Hne H. rewrite !stamp_wire in H. apply Ok_inj in H.
  apply app_inj_1 in H as [_ H]; [|rewrite !length_serialize; reflexivity].
  apply app_inv_head in H. apply bytes_of_inj in H. contradiction.
Qed.

Lemma length_generateHeader (size : Z) : length (generateHeader size) = 10%nat.
Proof. reflexivity. Qed.

(** The frames visited, for a stamped tag: the buckets before ["TDTG"],
    the stamp, the other frames of its bucket, the buckets after it. *)
Lemma stamped_frames (t : Tag) (now : Time) (ks1 ks2 : list string) :
  (range (Frames (stamped' t now))).*1 = ks1 ++ "TDTG"%string :: ks2 ->
  concat (range (Frames (stamped' t now))).*2
  = concat ((λ k, default [] (Frames t !! k)) <$> ks1)
    ++ stamp' now
    :: (tail (default [] (Frames t !! "TDTG"))
        ++ concat ((λ k, default [] (Frames t !! k)) <$> ks2)).
Proof.
  intros Hks.
  pose proof (range_keys_NoDup (Frames (stamped' t now))) as Hnd.
  rewrite Hks in Hnd. apply NoDup_app in Hnd as (_ & H1 & H2).
  apply NoDup_cons in H2 as [H2 _].
  rewrite range_buckets, Hks, fmap_app, fmap_cons, stamped_lookup.
  cbn [default]. rewrite concat_app, concat_cons.
  assert (Hext : forall ks : list string, "TDTG"%string ∉ ks ->
            (λ k, default [] (Frames (stamped' t now) !! k)) <$> ks
            = (λ k, default [] (Frames t !! k)) <$> ks).
  { intros ks Hks'. apply list_fmap_ext. intros i k Hk.
    rewrite stamped_lookup_ne; [reflexivity|].
    intros ->. apply Hks'. apply list_elem_of_lookup. eauto. }
  rewrite (Hext ks1), (Hext ks2); [reflexivity|exact H2|].
  intros Hin. apply (H1 _ Hin). apply list_elem_of_here.
Qed.

Lemma stamped_keys_split (t : Tag) (now : Time) :
  exists ks1 ks2,
    (range (Frames (stamped' t now))).*1 = ks1 ++ "TDTG"%string :: ks2.
Proof.
  pose proof (range_has_key _ _ _ (stamped_lookup t now)) as Hin.
  apply list_elem_of_split in Hin as (ks1 & ks2 & Hks). eauto.
Qed.

Lemma frames_wire_around (A R : list Frame) (x : Frame) (wire : list byte) :
  frames_wire (A ++ x :: R) = Ok wire ->
  exists wa wx wr,
    frames_wire A = Ok wa /\ Frame_wire x = Ok wx /\ frames_wire R = Ok wr /\
    wire = wa ++ wx ++ wr.
Proof.
  rewrite frames_wire_app. cbn [frames_wire].
  destruct (frames_wire A) as [wa|]; [|discriminate].
  destruct (Frame_wire x) as [wx|]; [|discriminate].
  destruct (frames_wire R) as [wr|]; [|discriminate].
  cbn. intros H. apply Ok_inj in H. subst wire.
  exists wa, wx, wr. repeat split.
Qed.

(** With the buckets visited in the same order, the images of a tag
    stamped at two times whose renderings differ are different. *)
Lemma Tag_image_differs (t : Tag) (now1 now2 : Time) (i1 i2 : list byte) :
  Format now1 <> Format now2 ->
  (range (Frames (stamped' t now1))).*1 = (range (Frames (stamped' t now2))).*1 ->
  Tag_image' (stamped' t now1) = Ok i1 ->
  Tag_image' (stamped' t now2) = Ok i2 ->
  i1 <> i2.
Proof.
  intros Hne Hkeys H1 H2 Heq. subst i2.
  destruct (stamped_keys_split t now1) as (ks1 & ks2 & Hk1).
  pose proof Hk1 as Hk2. rewrite Hkeys in Hk2.
  pose proof (stamped_frames t now1 ks1 ks2 Hk1) as Hc1.
  pose proof (stamped_frames t now2 ks1 ks2 Hk2) as Hc2.
  unfold Tag_image in H1, H2. rewrite Hc1 in H1. rewrite Hc2 in H2.
  destruct (FramesMap_size (Frames (stamped' t now1))) as [F1|];
    [|discriminate].
  destruct (FramesMap_size (Frames (stamped' t now2))) as [F2|];
    [|discriminate].
  cbn [mbind Res_bind] in H1, H2.
  destruct (frames_wire (_ ++ stamp' now1 :: _)) as [wire1|] eqn:E1;
    [|discriminate].
  destruct (frames_wire (_ ++ stamp' now2 :: _)) as [wire2|] eqn:E2;
    [|discriminate].
  cbn [mbind Res_bind] in H1, H2.
  destruct (make_bytes Padding) as [pad|]; [|discriminate].
  cbn [mbind Res_bind] in H1, H2.
  apply Ok_inj in H1, H2. rewrite <- H2 in H1.
  apply app_inj_1 in H1 as [_ H1]; [|reflexivity].
  apply app_inv_tail in H1.
  apply frames_wire_around in E1 as (wa & wx & wr & Ea & Ex & Er & ->).
  apply frames_wire_around in E2 as (wa' & wx' & wr' & Ea' & Ex' & Er' & ->).
  rewrite Ea in Ea'. apply Ok_inj in Ea'. subst wa'.
  rewrite Er in Er'. apply Ok_inj in Er'. subst wr'.
  apply app_inv_head in H1. apply app_inv_tail in H1. subst wx'.
  apply (stamp_wire_differs now1 now2 Hne). congruence.
Qed.


(** C10: [Save] and the [Encode] of a tag first put the current time
    into the first slot of the ["TDTG"] bucket, and only that bucket is
    changed.  The sizes that decide the path of [Save] and that are
    written into the header, and the frames written, are those of the
    stamped store; a [Save] that returns leaves the store stamped; and
    two encodings of one tag at times whose renderings differ write
    different bytes (the buckets visited in the same order). *)
Theorem TDTG_stamped_before_sizes_and_writes (t : Tag) (now : Time) :
  Frames t !! "TDTG" <> Some [] ->
  SetTextFrameTime' t "TDTG" now = Ok (stamped' t now) /\
  Frames (stamped' t now) !! "TDTG"
  = Some (stamp' now :: tail (default [] (Frames t !! "TDTG"))) /\
  (forall k, k <> "TDTG"%string ->
     Frames (stamped' t now) !! k = Frames t !! k) /\
  (forall w,
     Tag_Encode' now TheBuffer t w
     = match Tag_image' (stamped' t now) with
       | Ok image =>
           Ok ((None, stamped' t now), with_buffer w (buffer w ++ image))
       | Panic msg => Panic msg
       end) /\
  (forall now' f w F,
     tag f = t ->
     FramesMap_size (Frames (stamped' t now)) = Ok F ->
     Save' now now' f w
     = (if HasTag f && (F <=? Size (Header (tag f)))
        then saveInplace' F (set_tag f (stamped' t now))
        else saveNew' now' F (set_tag f (stamped' t now))) w) /\
  (forall now' f w err f' w',
     tag f = t ->
     Save' now now' f w = Ok ((err, f'), w') ->
     Frames (tag f') = Frames (stamped' t now)
     \/ Frames (tag f') = Frames (stamped' t now')) /\
  (forall now2 w r1 w1 r2 w2,
     Format now <> Format now2 ->
     (range (Frames (stamped' t now))).*1
     = (range (Frames (stamped' t now2))).*1 ->
     Tag_Encode' now TheBuffer t w = Ok (r1, w1) ->
     Tag_Encode' now2 TheBuffer t w = Ok (r2, w2) ->
     buffer w1 <> buffer w2).
Proof.
  intros Hne. split; [|split; [|split; [|split; [|split; [|split]]]]].
  - rewrite SetTextFrameTime_TDTG.
    destruct (Frames t !! "TDTG") as [[|x l]|]; [contradiction| |];
      reflexivity.
  - apply stamped_lookup.
  - intros k Hk. apply stamped_lookup_ne, Hk.
  - intros w. apply Tag_Encode_buffer, Hne.
  - intros now' f w F <- HF. apply Save_paths; assumption.
  - intros now' f w err f' w' <- H.
    apply Save_leaves_stamped in H as [_ H]. exact H.
  - intros now2 w r1 w1 r2 w2 Hfmt Hkeys H1 H2.
    rewrite (Tag_Encode_buffer now t w Hne) in H1.
    rewrite (Tag_Encode_buffer now2 t w Hne) in H2.
    destruct (Tag_image' (stamped' t now)) as [i1|] eqn:E1; [|discriminate].
    destruct (Tag_image' (stamped' t now2)) as [i2|] eqn:E2; [|discriminate].
    injection H1 as _ <-. injection H2 as _ <-.
    cbn [buffer with_buffer]. intros Heq. apply app_inv_head in Heq.
    exact (Tag_image_differs t now now2 i1 i2 Hfmt Hkeys E1 E2 Heq).
Qed.

(** *** Writing into the file when no operation fails *)

Lemma File_Seek0_nofault (w : World) :
  faults w = [] -> File_Seek0 w = Ok (None, file_at w (disk w) 0).
Proof.
  destruct w as [d p t b fl]. cbn. intros ->. reflexivity.
Qed.

Lemma File_Write_nofault (bs : list byte) (w : World) :
  faults w = [] ->
  File_Write bs w
  = Ok (None, file_at w (write_at (disk w) (pos w) bs) (pos w + length bs)).
Proof.
  destruct w as [d p t b fl]. cbn. intros ->. reflexivity.
Qed.

Lemma file_at_twice (w : World) (c c' : list byte) (p p' : nat) :
  file_at (file_at w c p) c' p' = file_at w c' p'.
Proof. reflexivity. Qed.

Lemma file_at_same (w : World) : file_at w (disk w) (pos w) = w.
Proof. destruct w. reflexivity. Qed.

Lemma writeMany_file (data : list (list byte)) (w : World) :
  faults w = [] -> (pos w <= length (disk w))%nat ->
  writeMany TheFile data w
  = Ok (None, file_at w (write_at (disk w) (pos w) (concat data))
                (pos w + length (concat data))).
Proof.
  revert w. induction data as [|d data IH]; intros w Hf Hp.
  - cbn [writeMany concat length]. rewrite write_at_nil by exact Hp.
    rewrite Nat.add_0_r, file_at_same. reflexivity.
  - cbn [writeMany concat Write].
    rewrite (IO_bind_run _ _ _ _ _ (File_Write_nofault d w Hf)).
    rewrite IH.
    + cbn [disk pos file_at]. rewrite file_at_twice, write_at_app, length_app.
      rewrite Nat.add_assoc. reflexivity.
    + exact Hf.
    + cbn [disk pos file_at]. rewrite length_write_at. lia.
Qed.

Lemma frames_Encode_file (frames : list Frame) :
  forall (w : World) (wire : list byte),
    faults w = [] -> (pos w <= length (disk w))%nat ->
    frames_wire frames = Ok wire ->
    frames_Encode TheFile frames w
    = Ok (None, file_at w (write_at (disk w) (pos w) wire)
                  (pos w + length wire)).
Proof.
  induction frames as [|f frames IH]; intros w wire Hf Hp Hw.
  - cbn in Hw. apply Ok_inj in Hw. subst wire.
    cbn [frames_Encode length]. rewrite write_at_nil by exact Hp.
    rewrite Nat.add_0_r, file_at_same. reflexivity.
  - cbn [frames_wire] in Hw. unfold Frame_wire in Hw.
    destruct (Frame_WriteTo f) as [data|] eqn:Ed; [|discriminate].
    cbn [mbind Res_bind] in Hw.
    destruct (frames_wire frames) as [wr|] eqn:Er; [|discriminate].
    cbn [mbind Res_bind] in Hw. apply Ok_inj in Hw. subst wire.
    cbn [frames_Encode]. unfold Frame_Encode. rewrite Ed.
    unfold mbind at 1, IO_bind at 1.
    rewrite liftRes_run, (writeMany_file data w Hf Hp).
    rewrite (IH _ wr); [|exact Hf| |reflexivity].
    + cbn [disk pos file_at]. rewrite file_at_twice, write_at_app, length_app.
      rewrite Nat.add_assoc. reflexivity.
    + cbn [disk pos file_at]. rewrite length_write_at. lia.
Qed.

Lemma stamped_wf (t : Tag) (now : Time) : Tag_wf t -> Tag_wf (stamped' t now).
Proof.
  unfold Tag_wf, stamped. cbn [Frames set_Frames]. intros H.
  apply map_Forall_insert_2; [|exact H].
  constructor; [exact I|].
  destruct (Frames t !! "TDTG") as [[|x l]|] eqn:E; cbn; try constructor.
  specialize (H _ _ E). cbn in H. apply Forall_cons in H as [_ H]. exact H.
Qed.

Lemma range_wf (t : Tag) :
  Tag_wf t -> Forall Frame_wf (concat (range (Frames t)).*2).
Proof.
  intros H. apply Forall_concat. apply Forall_fmap.
  apply Forall_forall. intros [k v] Hin. cbn.
  apply range_lookup in Hin. exact (H _ _ Hin).
Qed.

(** The in-place path where [size()] tells what [WriteTo] writes.  A
    file that carries a tag of reserved size [S], whose comments have a
    language of three bytes and whose stamped frames add up to
    [F <= S], is saved in place.  When no storage operation fails,
    [Save] returns no error; the file then holds what
    [generateHeader(S)] returns, the frames, [S - F] zero bytes and,
    from offset [10 + S] on, the bytes it held there before. *)
Lemma Save_inplace_image
    (now now' : Time) (f : File) (w : World) (F : Z) :
  let t1 := stamped' (tag f) now in
  let S := Size (Header (tag f)) in
  let audio_offset := Z.to_nat (tagHeaderSize + S) in
  Frames (tag f) !! "TDTG" <> Some [] ->
  Tag_wf (tag f) ->
  FramesMap_size (Frames t1) = Ok F ->
  HasTag f = true ->
  F <= S ->
  faults w = [] ->
  tagHeaderSize + S <= len (disk w) ->
  exists (wire : list byte) (f' : File) (w' : World),
    frames_wire (concat (range (Frames t1)).*2) = Ok wire /\
    len wire = F /\
    Save' now now' f w = Ok ((None, f'), w') /\
    disk w'
    = generateHeader S ++ wire ++ repeat Byte.x00 (Z.to_nat (S - F))
      ++ skipn audio_offset (disk w) /\
    skipn audio_offset (disk w') = skipn audio_offset (disk w) /\
    length (disk w') = length (disk w) /\
    Size (Header (tag f')) = S /\
    Frames (tag f') = Frames t1.
Proof.
  intros t1 S audio_offset Hne Hwf HF Htag HFS Hfaults Hlen.
  pose proof (range_wf _ (stamped_wf _ now Hwf)) as Hwfs.
  pose proof HF as HF'. rewrite FramesMap_size_range in HF'.
  destruct (frames_wire_size _ _ Hwfs HF') as (wire & Hwire & Hlw).
  assert (HF0 : 0 <= F) by (rewrite <- Hlw; unfold len; lia).
  set (zeros := repeat Byte.x00 (Z.to_nat (S - F))).
  set (image := generateHeader S ++ wire ++ zeros).
  assert (Himg : length image = audio_offset).
  { unfold image, zeros, audio_offset, tagHeaderSize.
    rewrite !length_app, length_generateHeader, repeat_length.
    unfold len in Hlw. lia. }
  exists wire,
    (set_tag (set_tag f t1)
       (set_Header t1 (mkTagHeader 0x0400 (Flags (Header t1)) (Size (Header t1))))),
    (file_at w (write_at (disk w) 0 image) (0 + length image)).
  split; [exact Hwire|]. split; [exact Hlw|].
  assert (Hdisk : write_at (disk w) 0 image
                  = generateHeader S ++ wire ++ zeros
                    ++ skipn audio_offset (disk w)).
  { rewrite write_at_0, Himg. unfold image. rewrite <- !app_assoc.
    reflexivity. }
  split; [|cbn [disk file_at];
            split; [exact Hdisk|rewrite write_at_0, <- Himg;
                                split; [|split; [|split; reflexivity]]]].
  - rewrite (Save_paths now now' f w F Hne HF).
    rewrite Htag. replace (F <=? Size (Header (tag f))) with true
      by (symmetry; apply Z.leb_le; exact HFS).
    cbn [andb]. unfold saveInplace. cbn [tag set_tag].
    change (Header (stamped' (tag f) now)) with (Header (tag f)).
    fold S. fold t1.
    rewrite (IO_bind_run _ _ _ _ _ (File_Seek0_nofault w Hfaults)).
    match goal with
    | |- (File_Write ?bs ≫= _) ?w0 = _ =>
        rewrite (IO_bind_run _ _ _ _ _ (File_Write_nofault bs w0 Hfaults))
    end.
    cbn [disk pos file_at]. rewrite file_at_twice.
    unfold FramesMap_Encode.
    match goal with
    | |- (frames_Encode TheFile ?fs ≫= _) ?w0 = _ =>
        rewrite (IO_bind_run _ _ _ _ _
                   (frames_Encode_file fs w0 wire Hfaults
                      ltac:(cbn [disk pos file_at];
                            rewrite length_write_at; lia)
                      Hwire))
    end.
    cbn [disk pos file_at]. rewrite file_at_twice, write_at_app.
    unfold make_bytes. replace (S - F <? 0) with false
      by (symmetry; apply Z.ltb_ge; lia).
    rewrite liftRes_run. fold zeros.
    match goal with
    | |- (File_Write ?bs ≫= _) ?w0 = _ =>
        rewrite (IO_bind_run _ _ _ _ _ (File_Write_nofault bs w0 Hfaults))
    end.
    cbn [disk pos file_at]. rewrite file_at_twice.
    rewrite <- (Nat.add_assoc 0), <- length_app, write_at_app.
    rewrite <- (Nat.add_assoc 0), <- length_app, <- app_assoc. fold image.
    reflexivity.
  - apply drop_app_length.
  - rewrite length_app, length_skipn, Himg.
    unfold audio_offset. unfold len in Hlen. lia.
Qed.

End SavingFacts.


(** ** The save engine on a sample file *)

Lemma range_map_to_list_perm (fm : gmap string (list Frame)) :
  range_map_to_list fm ≡ₚ map_to_list fm.
Proof. reflexivity. Qed.

Lemma sample_tag_wf (version size : Z) : Tag_wf (sample_tag version size).
Proof.
  unfold Tag_wf, sample_tag. cbn [Frames].
  apply map_Forall_insert_2; [|apply map_Forall_empty].
  repeat constructor.
Qed.

Lemma sample_tag_TDTG (version size : Z) :
  Frames (sample_tag version size) !! "TDTG" <> Some [].
Proof. intros H. vm_compute in H. discriminate H. Qed.

(** [Save_rebuild_stages_before_truncating] on a file of 79 bytes that
    carries no tag. *)
Lemma Save_rebuild_stages_before_truncating_witness :
  let f := NewFile 79 (sample_tag 0 0) in
  let f1 := set_tag f (stamped string render (tag f) sample_time) in
  let save :=
    Save string render default_Padding default_InMemoryThreshold
      range_map_to_list sample_time sample_later f in
  let w := sample_world in
  (forall e buf w0,
     saveNew_scratch default_InMemoryThreshold f1 w = Ok ((Some e, buf), w0) ->
     save w = Ok ((Some e, f1), w0) /\ disk w0 = disk w) /\
  (forall buf w0 err f2 w1,
     saveNew_scratch default_InMemoryThreshold f1 w = Ok ((None, buf), w0) ->
     SaveTo string render default_Padding range_map_to_list sample_later
       buf f1 w0 = Ok ((err, f2), w1) ->
     disk w1 = disk w /\
     match err with
     | Some e => exists w', save w = Ok ((Some e, f2), w') /\ disk w' = disk w
     | None =>
         exists image,
           (img ← Tag_image default_Padding range_map_to_list (tag f2);
            Ok (img ++ audio_bytes f (disk w))) = Ok image /\
           sink_data buf w1 = image /\
           save w
           = (r ← saveNew_commit default_Padding 43 buf f2;
              _ ← saveNew_cleanup buf;
              mret r) w1
     end).
Proof.
  intros f f1 save w.
  refine (Save_rebuild_stages_before_truncating string render
            default_Padding default_InMemoryThreshold range_map_to_list
            sample_time sample_later f w 43 _ _ _).
  - apply sample_tag_TDTG.
  - vm_compute. reflexivity.
  - left. reflexivity.
Defined.

(** [TDTG_stamped_before_sizes_and_writes] on a tag with one title
    frame: the stamp, and two encodings one second apart. *)
Lemma TDTG_stamped_before_sizes_and_writes_witness :
  let t := sample_tag 0x0400 64 in
  let encode now :=
    Tag_Encode string render default_Padding range_map_to_list now
      TheBuffer t sample_world in
  SetTextFrameTime string render t "TDTG" sample_time
  = Ok (stamped string render t sample_time) /\
  Frames (stamped string render t sample_time) !! "TDTG"
  = Some [TextInformationFrame (mkFrameHeader "TDTG" 0) sample_time] /\
  Frames (stamped string render t sample_time) !! "TIT2" = Frames t !! "TIT2" /\
  forall r1 w1 r2 w2,
    encode sample_time = Ok (r1, w1) ->
    encode sample_later = Ok (r2, w2) ->
    buffer w1 <> buffer w2.
Proof.
  intros t encode.
  destruct (TDTG_stamped_before_sizes_and_writes string render
              default_Padding default_InMemoryThreshold range_map_to_list
              range_map_to_list_perm t sample_time (sample_tag_TDTG _ _))
    as (H1 & H2 & H3 & _ & _ & _ & H7).
  split; [exact H1|]. split; [exact H2|].
  split; [apply H3; discriminate|].
  assert (Hfmt : render sample_time <> render sample_later)
    by discriminate.
  assert (Hkeys : (range_map_to_list
                     (Frames (stamped string render t sample_time))).*1
                  = (range_map_to_list
                       (Frames (stamped string render t sample_later))).*1)
    by (vm_compute; reflexivity).
  intros r1 w1 r2 w2 E1 E2.
  exact (H7 sample_later sample_world r1 w1 r2 w2 Hfmt Hkeys E1 E2).
Defined.

(** * Further properties

    What the code shows beyond the claims above: the other paths of the
    reader and of the save engine, the accessors of the store, and the
    readers of the older snapshot. *)

(** ** The tag header *)

(** The four size bytes written for a size below [2^17] decode to it. *)
Lemma decode_intToBytes (x : Z) :
  0 <= x < 2 ^ 17 ->
  exists b0 b1 b2 b3,
    intToBytes (synchsafeInt x) = [b0; b1; b2; b3] /\
    desynchsafeInt (b0, b1, b2, b3) = x.
Proof.
  intros Hx. pose proof (synchsafe_roundtrip_below_2p17 x Hx) as H.
  unfold decodeSynchsafe, encodeSynchsafe, intToBytes in *.
  cbn [array4 fmap option_fmap option_map] in H.
  do 4 eexists. split; [reflexivity|]. injection H as H. exact H.
Qed.

Lemma ReadFull_enough (r : Reader) (n : nat) (bs tail : list byte) :
  available r = bs ++ tail -> length bs = n ->
  ReadFull r n = ((bs, None), advance r n).
Proof.
  intros Ha Hl. unfold ReadFull. rewrite Ha.
  destruct (n =? 0)%nat eqn:E0.
  - apply Nat.eqb_eq in E0. subst n. destruct bs; [|discriminate].
    unfold advance. cbn [skipn]. destruct r as [l [k|]]; cbn; [|reflexivity].
    do 3 f_equal. lia.
  - replace (n <=? length (bs ++ tail))%nat with true
      by (symmetry; apply Nat.leb_le; rewrite length_app; lia).
    rewrite <- Hl, take_app_length. reflexivity.
Qed.

Lemma ReadFull_ok_inv (r r' : Reader) (n : nat) (bs : list byte) :
  ReadFull r n = ((bs, None), r') ->
  length bs = n /\ r' = advance r n /\ exists tail, available r = bs ++ tail.
Proof.
  unfold ReadFull. destruct (n =? 0)%nat eqn:E0.
  - apply Nat.eqb_eq in E0. subst n. intros [= <- <-]. split; [reflexivity|].
    split.
    + unfold advance. cbn [skipn]. destruct r as [l [k|]]; cbn; [|reflexivity].
      do 2 f_equal. lia.
    + exists (available r). reflexivity.
  - destruct (n <=? length (available r))%nat eqn:E1.
    + apply Nat.leb_le in E1. intros [= <- <-]. split; [|split].
      * rewrite length_firstn. lia.
      * reflexivity.
      * exists (skipn n (available r)). symmetry. apply firstn_skipn.
    + destruct (available r); discriminate.
Qed.

(** X1: the header that [generateHeader] writes for a size below [2^17]
    is read back by [readHeader], and by [ParseHeader], as version 2.4,
    no flags and that size, with the reader left right behind its ten
    bytes. *)
Theorem readHeader_generateHeader (size : Z) (tail : list byte) :
  0 <= size < 2 ^ 17 ->
  length (generateHeader size) = 10%nat /\
  readHeader (mkReader (generateHeader size ++ tail) None)
  = ((mkTagHeader 0x0400 Byte.x00 size, None), mkReader tail None) /\
  ParseHeader (mkReader (generateHeader size ++ tail) None)
  = ((mkTagHeader 0x0400 Byte.x00 size, None), mkReader tail None).
Proof.
  intros Hs. destruct (decode_intToBytes size Hs) as (b0 & b1 & b2 & b3 & E & D).
  split; [reflexivity|].
  unfold ParseHeader, generateHeader. rewrite E. rewrite <- D.
  split; reflexivity.
Qed.

(** A reader that delivers ["ID3"], a major version of 3 or 4 and six
    more bytes gives [readHeader] its header. *)
Lemma readHeader_well_formed (r : Reader)
    (v0 v1 fl s0 s1 s2 s3 : byte) (tail : list byte) :
  available r
  = [Byte.x49; Byte.x44; Byte.x33; v0; v1; fl; s0; s1; s2; s3] ++ tail ->
  3 <= byte_to_Z v0 <= 4 ->
  readHeader r
  = ((mkTagHeader (int16_of_bytes v0 v1) fl (desynchsafeInt (s0, s1, s2, s3)),
      None), advance r 10).
Proof.
  intros Ha Hv.
  unfold readHeader. rewrite (ReadFull_enough r 10 _ tail Ha eq_refl).
  rewrite bool_decide_eq_true_2 by reflexivity. cbn [negb].
  replace ((4 <? byte_to_Z v0) || (byte_to_Z v0 <? 3)) with false; [reflexivity|].
  symmetry. apply orb_false_iff. split; apply Z.ltb_ge; lia.
Qed.

(** X2: [readHeader] returns a header exactly when the reader can
    deliver ten bytes that start with ["ID3"] and whose major version
    byte is 3 or 4; the header then holds the version, the flags byte
    and the decoded size, and the reader has advanced by ten bytes. *)
Theorem readHeader_accepts (r r' : Reader) (h : TagHeader) :
  readHeader r = ((h, None), r') <->
  exists v0 v1 fl s0 s1 s2 s3 tail,
    available r
    = [Byte.x49; Byte.x44; Byte.x33; v0; v1; fl; s0; s1; s2; s3] ++ tail /\
    3 <= byte_to_Z v0 <= 4 /\
    h = mkTagHeader (int16_of_bytes v0 v1) fl (desynchsafeInt (s0, s1, s2, s3)) /\
    r' = advance r 10.
Proof.
  split.
  - unfold readHeader.
    destruct (ReadFull r 10) as [[bs err] r1] eqn:ER.
    destruct err as [e|]; [discriminate|].
    apply ReadFull_ok_inv in ER as (Hl & -> & tail & Ha).
    destruct bs as [|m0 [|m1 [|m2 [|v0 [|v1 [|fl [|s0 [|s1 [|s2 [|s3 [|]]]]]]]]]]];
      try discriminate.
    destruct (bool_decide ([m0; m1; m2] = [Byte.x49; Byte.x44; Byte.x33])) eqn:EM;
      cbn [negb]; [|discriminate].
    apply bool_decide_eq_true in EM. injection EM as -> -> ->.
    destruct ((4 <? byte_to_Z v0) || (byte_to_Z v0 <? 3)) eqn:EV; [discriminate|].
    apply orb_false_iff in EV as [E4 E3].
    apply Z.ltb_ge in E4. apply Z.ltb_ge in E3.
    intros [= <- <-]. exists v0, v1, fl, s0, s1, s2, s3, tail.
    split; [exact Ha|]. split; [lia|]. split; reflexivity.
  - intros (v0 & v1 & fl & s0 & s1 & s2 & s3 & tail & Ha & Hv & -> & ->).
    exact (readHeader_well_formed r v0 v1 fl s0 s1 s2 s3 tail Ha Hv).
Qed.


(** ** The other ways out of [Parse] *)

Section ParseFacts.

Variable toUTF8 : Encoding -> list byte -> Res (list byte).
Variable readTyped : FrameType -> Reader -> FrameHeader -> Z -> Res ReadResult.
Variable upgrade : Tag -> Res Tag.

(** X3: on an input that does not start with a tag header, [Parse] returns
    the empty tag of [NewTag] together with the error of the header,
    which the input decides: [io.EOF] for an empty input,
    [io.ErrUnexpectedEOF] for one to nine bytes, whatever they are,
    [notATagHeader] with the first three bytes when there are ten bytes
    and they do not start with ["ID3"], [UnsupportedVersion] when they
    do and the major version is not 3 or 4.  No fuel is needed: the
    loop is not entered. *)
Theorem Parse_not_a_tag (input : list byte) (fuel : nat) :
  (forall v0 v1 fl s0 s1 s2 s3 tail,
     input = [Byte.x49; Byte.x44; Byte.x33; v0; v1; fl; s0; s1; s2; s3] ++ tail ->
     ~ 3 <= byte_to_Z v0 <= 4) ->
  exists e,
    Parse toUTF8 readTyped upgrade fuel input = Some (Ok (Some NewTag, Some e)) /\
    (input = [] -> e = EOF) /\
    ((0 < length input < 10)%nat -> e = ErrUnexpectedEOF) /\
    ((10 <= length input)%nat ->
     firstn 3 input <> [Byte.x49; Byte.x44; Byte.x33] ->
     e = notATagHeader (firstn 3 input)) /\
    ((10 <= length input)%nat ->
     firstn 3 input = [Byte.x49; Byte.x44; Byte.x33] ->
     exists v0 v1,
       firstn 5 input = [Byte.x49; Byte.x44; Byte.x33; v0; v1] /\
       ~ 3 <= byte_to_Z v0 <= 4 /\
       e = UnsupportedVersion (int16_of_bytes v0 v1)).
Proof.
  intros Hno. unfold Parse, ParseHeader, readHeader.
  destruct (Nat.lt_ge_cases (length input) 10) as [Hlt|Hge].
  - unfold ReadFull. cbn [Nat.eqb available N rest].
    replace (10 <=? length input)%nat with false
      by (symmetry; apply Nat.leb_gt; exact Hlt).
    destruct input as [|b input].
    + exists EOF. split; [reflexivity|]. split; [reflexivity|].
      cbn [length]. split; [lia|]. split; intros; lia.
    + exists ErrUnexpectedEOF. split; [reflexivity|].
      split; [discriminate|]. split; [reflexivity|].
      split; intros; lia.
  - rewrite (ReadFull_enough _ 10 (firstn 10 input) (skipn 10 input))
      by (cbn [available N rest]; rewrite ?firstn_skipn, ?length_firstn;
          lia || reflexivity).
    destruct input as [|m0 [|m1 [|m2 [|v0 [|v1 [|fl [|s0 [|s1 [|s2 [|s3 tail]]]]]]]]]];
      cbn [length] in Hge; try lia.
    cbn [firstn].
    destruct (bool_decide ([m0; m1; m2] = [Byte.x49; Byte.x44; Byte.x33])) eqn:EM;
      cbn [negb].
    + apply bool_decide_eq_true in EM. injection EM as -> -> ->.
      destruct ((4 <? byte_to_Z v0) || (byte_to_Z v0 <? 3)) eqn:EV.
      * exists (UnsupportedVersion (int16_of_bytes v0 v1)). split; [reflexivity|].
        split; [discriminate|]. split; [cbn [length]; lia|].
        split; [intros _ H; contradiction|].
        intros _ _. exists v0, v1. split; [reflexivity|]. split; [|reflexivity].
        apply (Hno v0 v1 fl s0 s1 s2 s3 tail eq_refl).
      * exfalso. apply orb_false_iff in EV as [E4 E3].
        apply Z.ltb_ge in E4. apply Z.ltb_ge in E3.
        apply (Hno v0 v1 fl s0 s1 s2 s3 tail eq_refl). lia.
    + apply bool_decide_eq_false in EM.
      exists (notATagHeader [m0; m1; m2]). split; [reflexivity|].
      split; [discriminate|]. split; [cbn [length]; lia|].
      split; [intros _ _; reflexivity|].
      intros _ H. contradiction.
Qed.

(** X4: a tag header with the extended-header or the unsynchronisation
    flag makes [Parse] return a nil tag, not an empty one, and
    [ErrNoExtendedHeader] or, with only the second flag,
    [ErrNoUnsynchronizedTag], before any frame is read. *)
Theorem Parse_rejects_flagged_header
    (v0 v1 fl s0 s1 s2 s3 : byte) (tail : list byte) (fuel : nat) :
  3 <= byte_to_Z v0 <= 4 ->
  ExtendedHeader fl || Unsynchronisation fl = true ->
  Parse toUTF8 readTyped upgrade fuel
    ([Byte.x49; Byte.x44; Byte.x33; v0; v1; fl; s0; s1; s2; s3] ++ tail)
  = Some (Ok (None,
              Some (if ExtendedHeader fl then ErrNoExtendedHeader
                    else ErrNoUnsynchronizedTag))).
Proof.
  intros Hv Hfl. unfold Parse, ParseHeader.
  assert (E : readHeader (mkReader ([Byte.x49; Byte.x44; Byte.x33; v0; v1; fl;
                                     s0; s1; s2; s3] ++ tail) None)
              = ((mkTagHeader (int16_of_bytes v0 v1) fl
                    (desynchsafeInt (s0, s1, s2, s3)), None),
                 advance (mkReader ([Byte.x49; Byte.x44; Byte.x33; v0; v1; fl;
                                     s0; s1; s2; s3] ++ tail) None) 10)).
  { apply (readHeader_well_formed _ v0 v1 fl s0 s1 s2 s3 tail);
      [reflexivity | exact Hv]. }
  rewrite E. cbn [Flags].
  destruct (ExtendedHeader fl); [reflexivity|].
  cbn [orb] in Hfl. rewrite Hfl. reflexivity.
Qed.

(** [readFrame] reports the end of the frames both in the padding and
    where fewer than ten bytes are left. *)
Lemma readFrame_at_end (r : Reader) :
  (length (available r) < 10)%nat
  \/ firstn 4 (available r) = [Byte.x00; Byte.x00; Byte.x00; Byte.x00] ->
  exists r', readFrame toUTF8 readTyped r = Ok ((None, Some EOF), r').
Proof.
  intros H. unfold readFrame.
  destruct (Nat.lt_ge_cases (length (available r)) 10) as [Hlt|Hge].
  - unfold ReadFull. cbn [Nat.eqb].
    replace (10 <=? length (available r))%nat with false
      by (symmetry; apply Nat.leb_gt; exact Hlt).
    destruct (available r); eexists; reflexivity.
  - destruct H as [H|H]; [lia|].
    rewrite (ReadFull_enough r 10 (firstn 10 (available r))
               (skipn 10 (available r)))
      by (rewrite ?firstn_skipn, ?length_firstn; lia || reflexivity).
    unfold readFrame_body, headerBytes_ID, slice. cbn [skipn Nat.sub].
    rewrite drop_0, take_take. cbn [Nat.min]. rewrite H.
    rewrite bool_decide_eq_true_2 by reflexivity. eexists; reflexivity.
Qed.

(** X5: after [n] frames read without error, four zero bytes where the
    next identifier would be, or fewer than ten bytes left within the
    limit, make [readFrame] report [io.EOF]; the loop of [Parse] ends
    without an error and [Parse] returns the tag that holds the frames
    read and no other, under each identifier the frames read with it in
    the order read, passed through [upgrade] when the version is below
    2.4. *)
Theorem Parse_ends_at_padding
    (input : list byte) (header : TagHeader) (r0 r1 : Reader)
    (n : nat) (fs : list Frame) :
  ParseHeader (mkReader input None) = ((header, None), r0) ->
  ExtendedHeader (Flags header) = false ->
  Unsynchronisation (Flags header) = false ->
  readFrames toUTF8 readTyped n (LimitReader r0 (Size header + tagHeaderSize))
  = Some (fs, r1) ->
  (length (available r1) < 10)%nat
  \/ firstn 4 (available r1) = [Byte.x00; Byte.x00; Byte.x00; Byte.x00] ->
  (exists r', readFrame toUTF8 readTyped r1 = Ok ((None, Some EOF), r')) /\
  forall fuel, (n < fuel)%nat ->
    exists store : gmap string (list Frame),
      (forall k, store !! k = bucket_of k fs) /\
      Parse toUTF8 readTyped upgrade fuel input
      = Some (let t := mkTag header store in
              if Version header <? 0x0400
              then t' ← upgrade t; Ok (Some t', None)
              else Ok (Some t, None)).
Proof.
  intros HH Hext Huns Hfs Hend.
  destruct (readFrame_at_end r1 Hend) as [r' Hrf].
  split; [exists r'; exact Hrf|]. intros fuel Hfuel.
  exists (foldl addFrame ∅ fs). split; [intros k; apply foldl_addFrame_empty|].
  unfold Parse. rewrite HH, Hext, Huns.
  replace fuel with (n + S (fuel - S n))%nat by lia.
  rewrite (parseFrames_readFrames toUTF8 readTyped n _ _ _ _ _ Hfs).
  cbn [parseFrames]. rewrite Hrf. cbv zeta.
  destruct (Version header <? 1024); reflexivity.
Qed.

(** X6: a text frame header that announces a size of 0 makes [readFrame]
    panic in [make([]byte, frameSize-1)], and the loop of [Parse] with
    it. *)
Theorem readFrame_empty_text_frame_panics (r r' : Reader) (hb : list byte) :
  ReadFull r 10 = ((hb, None), r') ->
  forallb id_byte_ok (headerBytes_ID hb) = true ->
  Compressed (frameFlags hb) || Encrypted (frameFlags hb)
    || Grouped (frameFlags hb) = false ->
  is_text_id (id (frameHeader hb)) = true ->
  frameSize_of hb = 0 ->
  readFrame toUTF8 readTyped r
  = Panic "runtime error: makeslice: len out of range" /\
  forall fuel t,
    parseFrames toUTF8 readTyped (S fuel) r t
    = Some (Panic "runtime error: makeslice: len out of range").
Proof.
  intros HR Hok Hfl Htext Hsz.
  assert (E : readFrame toUTF8 readTyped r
              = Panic "runtime error: makeslice: len out of range").
  { rewrite (readFrame_header _ _ _ _ _ HR). unfold readFrame_body.
    rewrite (valid_id_not_padding _ Hok), Hok. cbn [negb flags frameHeader].
    apply orb_false_iff in Hfl as [Hfl HG].
    apply orb_false_iff in Hfl as [HC HE].
    rewrite HC, HE, HG, Htext, Hsz.
    reflexivity. }
  split; [exact E|]. intros fuel t. cbn [parseFrames]. rewrite E. reflexivity.
Qed.


End ParseFacts.

(** ** The Latin-1 codec in the other direction *)

Lemma step_check_all (b : byte) : step_check b = true.
Proof. revert b. apply byte_forall. vm_compute. reflexivity. Qed.

Lemma utf8ToISO88591_step (b : byte) (tail : list byte) :
  utf8ToISO88591 (iso88591ToUTF8_step b ++ tail)
  = cons b <$> utf8ToISO88591 tail.
Proof.
  pose proof (step_check_all b) as H. unfold step_check in H.
  destruct (iso88591ToUTF8_step b) as [|x [|y [|]]]; try discriminate.
  - apply andb_true_iff in H as [H1 H2]. apply bool_decide_eq_true in H2.
    subst x. cbn [app utf8ToISO88591]. rewrite H1. reflexivity.
  - apply andb_true_iff in H as [H1 H2]. apply bool_decide_eq_true in H2.
    apply negb_true_iff in H1.
    cbn [app utf8ToISO88591]. rewrite H1, H2. reflexivity.
Qed.

(** X10: every byte string taken as ISO-8859-1 and converted by
    [iso88591ToUTF8] is converted back to itself by [utf8ToISO88591],
    the byte 0x80 included. *)
Theorem utf8ToISO88591_iso88591ToUTF8 (input : list byte) :
  utf8ToISO88591 (iso88591ToUTF8 input) = Some input.
Proof.
  unfold iso88591ToUTF8.
  induction input as [|b input IH]; [reflexivity|].
  cbn [flat_map]. rewrite utf8ToISO88591_step, IH. reflexivity.
Qed.

Lemma utf8ToISO88591_app_latin1 (s tail : list byte) :
  utf8ToISO88591 (utf8_of_latin1 s ++ tail)
  = app s <$> utf8ToISO88591 tail.
Proof.
  unfold utf8_of_latin1.
  induction s as [|c s IH]; cbn [flat_map app].
  - destruct (utf8ToISO88591 tail); reflexivity.
  - rewrite <- app_assoc, utf8ToISO88591_point, IH.
    destruct (utf8ToISO88591 tail); reflexivity.
Qed.

(** X12: [utf8ToISO88591] reads the byte after every byte above 128
    without a test of the length, so Latin-1 text followed by one such
    byte makes it panic, and with it the [size()] of a link frame that
    holds such a URL. *)
Theorem utf8ToISO88591_dangling (s : list byte) (b : byte) (h : FrameHeader) :
  128 < byte_to_Z b ->
  utf8ToISO88591 (utf8_of_latin1 s ++ [b]) = None /\
  Frame_size
    (URLLinkFrame h (string_of_list_byte (utf8_of_latin1 s ++ [b])))
  = Panic index_out_of_range.
Proof.
  intros Hb.
  assert (E : utf8ToISO88591 (utf8_of_latin1 s ++ [b]) = None).
  { rewrite utf8ToISO88591_app_latin1. cbn [utf8ToISO88591].
    unfold byte_leb. replace (byte_to_Z b <=? 128) with false; [reflexivity|].
    symmetry. apply Z.leb_gt. exact Hb. }
  split; [exact E|].
  cbn [Frame_size]. unfold bytes_of. rewrite list_byte_of_string_of_list_byte.
  rewrite E. reflexivity.
Qed.


(** ** Splitting at the terminator *)

Lemma cut_nul_none (s : list byte) :
  Forall (fun b => b <> Byte.x00) s -> cut_nul s = None.
Proof.
  induction 1 as [|b s Hb _ IH]; [reflexivity|].
  cbn [cut_nul]. destruct (byte_is b 0) eqn:E.
  - apply byte_is_0 in E. contradiction.
  - rewrite IH. reflexivity.
Qed.

Lemma cut_nul_first (pre post : list byte) :
  Forall (fun b => b <> Byte.x00) pre ->
  cut_nul (pre ++ Byte.x00 :: post) = Some (pre, post).
Proof.
  induction 1 as [|b s Hb _ IH]; [reflexivity|].
  cbn [app cut_nul]. destruct (byte_is b 0) eqn:E.
  - apply byte_is_0 in E. contradiction.
  - rewrite IH. reflexivity.
Qed.

Lemma cut_nul_some (s pre post : list byte) :
  cut_nul s = Some (pre, post) ->
  s = pre ++ Byte.x00 :: post /\ Forall (fun b => b <> Byte.x00) pre.
Proof.
  revert pre post. induction s as [|b s IH]; intros pre post H; [discriminate|].
  cbn [cut_nul] in H. destruct (byte_is b 0) eqn:E.
  - apply byte_is_0 in E. subst b. injection H as <- <-. split; [reflexivity|constructor].
  - destruct (cut_nul s) as [[p q]|]; [|discriminate].
    injection H as <- <-. destruct (IH p q eq_refl) as [-> Hp].
    split; [reflexivity|]. constructor; [|exact Hp].
    intros ->. discriminate.
Qed.

Lemma splitNullN_latin1 (data : list byte) (encoding : byte) (n : Z) :
  encoding = utf8 \/ encoding = iso88591 ->
  splitNullN data encoding n = Some (bytes_SplitN_nul data n).
Proof.
  intros [-> | ->]; reflexivity.
Qed.

(** X13: for UTF-8 and ISO-8859-1, [splitNullN] asked for two pieces cuts
    at the first zero byte: the bytes before it and all the bytes after
    it; data without a zero byte comes back as one piece. *)
Theorem splitNullN_single_byte_two (encoding : byte) (pre post data : list byte) :
  encoding = utf8 \/ encoding = iso88591 ->
  Forall (fun b => b <> Byte.x00) pre ->
  Forall (fun b => b <> Byte.x00) data ->
  splitNullN (pre ++ Byte.x00 :: post) encoding 2 = Some [pre; post] /\
  splitNullN data encoding 2 = Some [data].
Proof.
  intros He Hpre Hdata. rewrite !splitNullN_latin1 by exact He.
  change (bytes_SplitN_nul ?s 2) with (splitNul 1 s). cbn [splitNul].
  rewrite (cut_nul_first pre post Hpre), (cut_nul_none data Hdata).
  split; reflexivity.
Qed.

Lemma splitNul_join (k : nat) (s : list byte) :
  join_nul (splitNul k s) = s /\ (length (splitNul k s) <= S k)%nat /\
  splitNul k s <> [].
Proof.
  revert s. induction k as [|k IH]; intros s; cbn [splitNul].
  - split; [reflexivity|]. split; [cbn; lia|discriminate].
  - destruct (cut_nul s) as [[pre post]|] eqn:E.
    + apply cut_nul_some in E as [-> _].
      destruct (IH post) as (IH1 & IH2 & IH3).
      split; [|split; [cbn [length]; lia|discriminate]].
      cbn [join_nul]. destruct (splitNul k post) eqn:Es; [contradiction|].
      rewrite IH1. reflexivity.
    + split; [reflexivity|]. split; [cbn; lia|discriminate].
Qed.

(** X14: for UTF-8 and ISO-8859-1 and any [n], [splitNullN] returns no
    piece for [n = 0]; otherwise at least one piece, at most [n] when
    [n] is positive, and the pieces joined by zero bytes are the
    data. *)
Theorem splitNullN_single_byte_join (encoding : byte) (data : list byte) (n : Z) :
  encoding = utf8 \/ encoding = iso88591 ->
  exists pieces,
    splitNullN data encoding n = Some pieces /\
    (n = 0 -> pieces = []) /\
    (n <> 0 -> join_nul pieces = data /\ pieces <> []) /\
    (0 < n -> len pieces <= n).
Proof.
  intros He. rewrite splitNullN_latin1 by exact He.
  eexists. split; [reflexivity|]. unfold bytes_SplitN_nul.
  destruct (n =? 0) eqn:E0.
  - apply Z.eqb_eq in E0. subst n. split; [reflexivity|]. split; [congruence|lia].
  - apply Z.eqb_neq in E0. split; [congruence|].
    destruct (n <? 0) eqn:En.
    + apply Z.ltb_lt in En. split; [|lia]. intros _.
      destruct (splitNul_join (length data) data) as (H1 & _ & H3). split; assumption.
    + apply Z.ltb_ge in En.
      destruct (splitNul_join (Z.to_nat (n - 1)) data) as (H1 & H2 & H3).
      split; [intros _; split; assumption|]. intros _. unfold len. lia.
Qed.

Lemma splitNullN_loop_no_terminator (data : list byte) (n : Z)
    (us : list (byte * byte)) :
  Forall (fun u => u <> (Byte.x00, Byte.x00)) us ->
  forall (i : nat) (matches : list (list byte)),
    splitNullN_loop data (units us) i n matches = Some matches /\
    splitNullN_loop data (units us ++ [Byte.x00]) i n matches = None /\
    forall b, b <> Byte.x00 ->
      splitNullN_loop data (units us ++ [b]) i n matches = Some matches.
Proof.
  induction 1 as [|[a b] us Hab _ IH]; intros i matches.
  - cbn [units app splitNullN_loop]. change (byte_is Byte.x00 0) with true.
    cbn iota. split; [reflexivity|]. split; [reflexivity|].
    intros b Hb. destruct (byte_is b 0) eqn:E; [|reflexivity].
    apply byte_is_0 in E. contradiction.
  - cbn [units app splitNullN_loop].
    destruct (byte_is a 0) eqn:Ea.
    + apply byte_is_0 in Ea. subst a.
      destruct (byte_is b 0) eqn:Eb.
      * apply byte_is_0 in Eb. subst b. contradiction.
      * apply IH.
    + apply IH.
Qed.

(** X15: for the UTF-16 encodings, [splitNullN] returns no piece for
    empty data, the data as its one piece when they are code units
    without a terminator, and panics on [data[i+1]] when one zero byte
    follows the last whole code unit. *)
Theorem splitNullN_utf16_no_terminator (encoding : byte) (n : Z)
    (us : list (byte * byte)) :
  encoding <> utf8 -> encoding <> iso88591 ->
  Forall (fun u => u <> (Byte.x00, Byte.x00)) us ->
  splitNullN [] encoding n = Some [] /\
  (us <> [] -> splitNullN (units us) encoding n = Some [units us]) /\
  splitNullN (units us ++ [Byte.x00]) encoding n = None.
Proof.
  intros H8 Hiso Hus. unfold splitNullN.
  rewrite !bool_decide_eq_false_2 by assumption. cbn [orb].
  destruct (splitNullN_loop_no_terminator (units us) n us Hus 0 []) as (E1 & _ & _).
  destruct (splitNullN_loop_no_terminator (units us ++ [Byte.x00]) n us Hus 0 [])
    as (_ & E2 & _).
  rewrite E1, E2. split; [reflexivity|]. split; [|reflexivity].
  intros Hne. replace (Z.of_nat 0 <? len (units us) - 1) with true; [reflexivity|].
  symmetry. apply Z.ltb_lt. unfold len. rewrite length_units.
  destruct us; [contradiction|]. cbn [length]. lia.
Qed.


(** ** What [WriteTo] writes and [readFrame] reads *)

(** X9: for every frame whose [size()] returns, [WriteTo] hands the
    writer that many bytes, except for a comment, where it writes
    [len(Language) - 3] bytes more: the two agree exactly on the frames
    with a three-byte language. *)
Theorem WriteTo_length (f : Frame) (sz : Z) :
  Frame_size f = Ok sz ->
  exists wire,
    Frame_wire f = Ok wire /\ len wire = sz + size_excess f /\
    (len wire = sz <-> Frame_wf f).
Proof.
  unfold Frame_wire.
  destruct f as [h T|h D T|h O I|h U|h D U|h L D T|h D];
    cbn [Frame_WriteTo size_excess Frame_wf].
  - cbn [Frame_size]. destruct (bool_decide (id h = "TRDA")).
    + intros [= <-]. eexists; split; [reflexivity|]. split; [reflexivity|tauto].
    + intros [= <-]. eexists; split; [reflexivity|].
      cbn [concat]. rewrite !len_app, len_serialize, length_bytes_of, len_nil.
      change (len utf8byte) with 1; unfold frameLength. split; [lia|]. split; [tauto|lia].
  - intros H. rewrite H. injection H as <-.
    eexists; split; [reflexivity|].
    cbn [concat]. rewrite !len_app, len_serialize, !length_bytes_of, len_nil.
    change (len utf8byte) with 1; change (len nul) with 1; unfold frameLength.
    split; [lia|]. split; [tauto|lia].
  - intros H. rewrite H. cbn [Frame_size] in H.
    destruct (utf8ToISO88591 (bytes_of O)) as [iso|]; [|discriminate].
    cbn in H. injection H as <-.
    eexists; split; [reflexivity|].
    cbn [concat]. rewrite !len_app, len_serialize, len_nil.
    change (len nul) with 1; unfold frameLength. split; [lia|]. split; [tauto|lia].
  - intros H. rewrite H. cbn [Frame_size] in H.
    destruct (utf8ToISO88591 (bytes_of U)) as [iso|]; [|discriminate].
    cbn in H. injection H as <-.
    eexists; split; [reflexivity|].
    cbn [concat]. rewrite !len_app, len_serialize, len_nil.
    unfold frameLength. split; [lia|]. split; [tauto|lia].
  - intros H. rewrite H. cbn [Frame_size] in H.
    destruct (utf8ToISO88591 (bytes_of U)) as [iso|]; [|discriminate].
    cbn in H. injection H as <-.
    eexists; split; [reflexivity|].
    cbn [concat]. rewrite !len_app, len_serialize, length_bytes_of, len_nil.
    change (len utf8byte) with 1; change (len nul) with 1; unfold frameLength.
    split; [lia|]. split; [tauto|lia].
  - intros H. rewrite H. injection H as <-.
    eexists; split; [reflexivity|].
    cbn [concat]. rewrite !len_app, len_serialize, !length_bytes_of, len_nil.
    change (len utf8byte) with 1; change (len nul) with 1; unfold frameLength.
    split; [lia|]. split; lia.
  - intros [= <-]. eexists; split; [reflexivity|]. split; [reflexivity|tauto].
Qed.

Lemma flags_check_all (hi lo : byte) : flags_check hi lo = true.
Proof.
  revert lo. revert hi.
  assert (H : forall hi, forallb (flags_check hi) all_bytes = true).
  { apply byte_forall. vm_compute. reflexivity. }
  intros hi. apply byte_forall. apply H.
Qed.

Lemma high_byte (fl : Z) :
  0 <= fl < 2 ^ 16 -> Z.shiftr (Z.land fl 0xff00) 8 = fl / 256.
Proof.
  intros H. change 256 with (2 ^ 8). rewrite <- Z.shiftr_div_pow2 by lia.
  apply Z.bits_inj'. intros n Hn. rewrite !Z.shiftr_spec, Z.land_spec by lia.
  destruct (Z.lt_ge_cases n 8) as [Hlt|Hge].
  - change 0xff00 with (Z.shiftl (Z.ones 8) 8).
    rewrite Z.shiftl_spec, Z.testbit_ones by lia.
    replace (0 <=? n + 8 - 8) with true by (symmetry; apply Z.leb_le; lia).
    replace (n + 8 - 8 <? 8) with true by (symmetry; apply Z.ltb_lt; lia).
    apply andb_true_r.
  - rewrite (high_bits fl 16) by lia. reflexivity.
Qed.

Lemma flags_roundtrip (fl : Z) :
  0 <= fl < 2 ^ 16 ->
  wrap_uint16
    (int16_of_bytes (byte_of_Z (Z.shiftr (Z.land fl 0xff00) 8))
                    (byte_of_Z (Z.land fl 0xff)))
  = fl.
Proof.
  intros H.
  pose proof (flags_check_all (byte_of_Z (Z.shiftr (Z.land fl 0xff00) 8))
                (byte_of_Z (Z.land fl 0xff))) as A.
  unfold flags_check in A. apply Z.eqb_eq in A. rewrite A.
  rewrite !byte_to_of_Z, high_byte by exact H.
  change 0xff with (Z.ones 8). rewrite Z.land_ones by lia.
  change (2 ^ 8) with 256. rewrite Z.mod_mod by lia.
  rewrite (Z.mod_small (fl / 256)).
  - symmetry. apply Z.div_mod. lia.
  - split; [apply Z.div_pos; lia|]. apply Z.div_lt_upper_bound; lia.
Qed.

Lemma string_length_4 (s : string) :
  String.length s = 4%nat ->
  exists a b c d, s = String a (String b (String c (String d EmptyString))).
Proof.
  destruct s as [|a [|b [|c [|d [|]]]]]; try discriminate.
  intros _. exists a, b, c, d. reflexivity.
Qed.

(** The ten bytes of [serialize] for an identifier of four bytes. *)
Lemma serialize_bytes (h : FrameHeader) (sz : Z) :
  String.length (id h) = 4%nat ->
  serialize h sz
  = bytes_of (id h) ++ intToBytes (synchsafeInt sz)
    ++ [byte_of_Z (Z.shiftr (Z.land (flags h) 0xff00) 8);
        byte_of_Z (Z.land (flags h) 0xff)].
Proof.
  intros H. destruct (string_length_4 _ H) as (a & b & c & d & E).
  unfold serialize. rewrite E. unfold intToBytes. reflexivity.
Qed.

(** [readFrame] decodes the header that [serialize] wrote. *)
Lemma serialize_decodes (h : FrameHeader) (size : Z) :
  String.length (id h) = 4%nat ->
  0 <= flags h < 2 ^ 16 ->
  0 <= size < 2 ^ 17 ->
  length (serialize h size) = 10%nat /\
  frameHeader (serialize h size) = h /\
  frameSize_of (serialize h size) = size.
Proof.
  intros Hid Hfl Hsz. split; [apply length_serialize|].
  rewrite serialize_bytes by exact Hid.
  destruct (string_length_4 _ Hid) as (a & b & c & d & E).
  destruct (decode_intToBytes size Hsz) as (b0 & b1 & b2 & b3 & Es & D).
  rewrite Es. split.
  - unfold frameHeader, frameFlags. rewrite E.
    change (headerBytes_ID _) with (bytes_of (String a (String b (String c (String d EmptyString))))).
    unfold bytes_of. rewrite string_of_list_byte_of_string.
    change (headerBytes_Flags _)
      with [byte_of_Z (Z.shiftr (Z.land (flags h) 0xff00) 8);
            byte_of_Z (Z.land (flags h) 0xff)].
    cbn [nth]. rewrite flags_roundtrip by exact Hfl.
    destruct h as [i f]. cbn in E |- *. rewrite E. reflexivity.
  - unfold frameSize_of. rewrite E.
    change (headerBytes_Size _) with [b0; b1; b2; b3].
    cbn. exact D.
Qed.

Lemma available_advance (r : Reader) (n : nat) :
  available (advance r n) = skipn n (available r).
Proof.
  destruct r as [l [lim|]]; unfold available, advance; cbn [rest N fmap option_fmap option_map];
    [|reflexivity].
  rewrite skipn_firstn_comm. f_equal. lia.
Qed.

Lemma advance_advance (r : Reader) (a b : nat) :
  advance (advance r a) b = advance r (a + b).
Proof.
  destruct r as [l [lim|]]; unfold advance; cbn [rest N fmap option_fmap option_map].
  - rewrite drop_drop. do 2 f_equal. lia.
  - rewrite drop_drop. reflexivity.
Qed.

Lemma ReadFull_app (r : Reader) (bs tail : list byte) :
  available r = bs ++ tail ->
  ReadFull r (length bs) = ((bs, None), advance r (length bs)) /\
  available (advance r (length bs)) = tail.
Proof.
  intros H. split; [apply (ReadFull_enough r _ bs tail H eq_refl)|].
  rewrite available_advance, H, drop_app_length. reflexivity.
Qed.


Section TextFrames.

Variable toUTF8 : Encoding -> list byte -> Res (list byte).
Variable readTyped : FrameType -> Reader -> FrameHeader -> Z -> Res ReadResult.

(** A text frame written by [WriteTo] is read back by [readFrame]. *)
Lemma readFrame_reads_text (h : FrameHeader) (text : string) :
  (forall b, toUTF8 utf8 b = Ok b) ->
  is_text_id (id h) = true ->
  id h <> "TRDA"%string ->
  String.length (id h) = 4%nat ->
  forallb id_byte_ok (bytes_of (id h)) = true ->
  0 <= flags h < 2 ^ 16 ->
  Compressed (flags h) || Encrypted (flags h) || Grouped (flags h) = false ->
  strlen text + 1 < 2 ^ 17 ->
  exists wire,
    Frame_wire (TextInformationFrame h text) = Ok wire /\
    forall (r : Reader) (tail : list byte),
      available r = wire ++ tail ->
      readFrame toUTF8 readTyped r
      = Ok ((Some (TextInformationFrame h text), None),
            advance r (length wire)).
Proof.
  intros Hutf Htext Htrda Hid Hok Hfl Hbits Hsz.
  assert (Hsz0 : 0 <= strlen text + 1 < 2 ^ 17).
  { unfold strlen in *. lia. }
  destruct (serialize_decodes h (strlen text + 1) Hid Hfl Hsz0)
    as (Hlen & Hhdr & Hsize).
  exists (serialize h (strlen text + 1) ++ utf8byte ++ bytes_of text).
  split.
  { unfold Frame_wire. cbn [Frame_WriteTo Frame_size].
    rewrite bool_decide_eq_false_2 by exact Htrda.
    cbn [mbind Res_bind concat]. unfold frameLength.
    replace (10 + strlen text + 1 - 10) with (strlen text + 1) by lia.
    rewrite app_nil_r. reflexivity. }
  intros r tail Ha.
  set (hb := serialize h (strlen text + 1)) in *.
  rewrite <- app_assoc in Ha.
  destruct (ReadFull_app r hb _ Ha) as [R1 A1]. rewrite Hlen in R1, A1.
  unfold readFrame. rewrite R1. unfold readFrame_body.
  assert (HID : headerBytes_ID hb = bytes_of (id h)).
  { unfold hb. rewrite serialize_bytes by exact Hid.
    destruct (string_length_4 _ Hid) as (a & b & c & d & E). rewrite E.
    reflexivity. }
  rewrite HID, (valid_id_not_padding _ Hok), Hok. cbn [negb].
  rewrite Hhdr, Hsize.
  apply orb_false_iff in Hbits as [Hbits HG].
  apply orb_false_iff in Hbits as [HC HE].
  rewrite HC, HE, HG, Htext.
  replace (strlen text + 1 - 1) with (strlen text) by lia.
  unfold make_bytes.
  replace (strlen text <? 0) with false
    by (symmetry; apply Z.ltb_ge; unfold strlen; lia).
  cbn [mbind Res_bind].
  rewrite <- app_assoc in A1.
  destruct (ReadFull_app _ utf8byte _ A1) as [R2 A2].
  change (length utf8byte) with 1%nat in R2, A2. rewrite R2.
  assert (Hl : Z.to_nat (strlen text) = length (bytes_of text)).
  { pose proof (length_bytes_of text) as L. unfold len in L. lia. }
  destruct (ReadFull_app _ (bytes_of text) _ A2) as [R3 A3].
  rewrite Hl, R3. cbn [nth utf8byte]. rewrite Hutf. cbn [mbind Res_bind].
  unfold bytes_of at 1. rewrite string_of_list_byte_of_string.
  rewrite !advance_advance. do 3 f_equal.
  rewrite !length_app, Hlen. reflexivity.
Qed.


End TextFrames.

(** ** The accessors of the store *)

Lemma findUserTextFrame_inv (name : string) (frames : list Frame) :
  forall (i : nat) (found : option nat),
    findUserTextFrame frames name i = Ok found ->
    match found with
    | None => Forall (other_description name) frames
    | Some j =>
        exists pre h v post,
          frames = pre ++ UserTextInformationFrame h name v :: post /\
          Forall (other_description name) pre /\ j = (i + length pre)%nat
    end.
Proof.
  induction frames as [|f frames IH]; intros i found H.
  - cbn in H. injection H as <-. constructor.
  - destruct f as [| h D T | | | | |]; try discriminate.
    cbn [findUserTextFrame] in H.
    destruct (bool_decide (D = name)) eqn:E.
    + apply bool_decide_eq_true in E. subst D. injection H as <-.
      exists [], h, T, frames. split; [reflexivity|]. split; [constructor|].
      cbn [length]. lia.
    + apply bool_decide_eq_false in E. specialize (IH _ _ H).
      destruct found as [j|].
      * destruct IH as (pre & h' & v & post & -> & Hpre & ->).
        exists (UserTextInformationFrame h D T :: pre), h', v, post.
        split; [reflexivity|]. split; [constructor; [exact E|exact Hpre]|].
        cbn [length]. lia.
      * constructor; [exact E|exact IH].
Qed.

Lemma getUserText_after (name value : string) (pre post : list Frame) :
  Forall (other_description name) pre ->
  getUserText (pre ++ userText name value :: post) name = Ok value.
Proof.
  induction 1 as [|f pre Hf _ IH].
  - cbn [app getUserText userText]. rewrite bool_decide_eq_true_2 by reflexivity.
    reflexivity.
  - destruct f; try contradiction. cbn [app getUserText other_description] in *.
    rewrite bool_decide_eq_false_2 by exact Hf. exact IH.
Qed.

Lemma getUserTextFrame_setUserTextFrame (t t' : Tag) (name value : string) :
  setUserTextFrame t name value = Ok t' ->
  getUserTextFrame t' name = Ok value /\
  Header t' = Header t /\
  (forall k, k <> "TXXX"%string -> Frames t' !! k = Frames t !! k).
Proof.
  intros H.
  destruct (Frames t !! "TXXX") as [frames|] eqn:E.
  - assert (H' := H). unfold setUserTextFrame in H'. rewrite E in H'.
    destruct (findUserTextFrame frames name 0) as [found|] eqn:EF; [|discriminate].
    pose proof (findUserTextFrame_inv _ _ _ _ EF) as Hinv.
    destruct found as [j|].
    + destruct Hinv as (pre & h & v & post & -> & Hpre & _).
      rewrite (setUserTextFrame_replaces t name value pre post h v E Hpre) in H.
      injection H as <-. unfold getUserTextFrame. cbn [Frames set_Frames Header].
      rewrite lookup_insert_eq. split; [apply getUserText_after; exact Hpre|].
      split; [reflexivity|].
      intros k Hk. apply lookup_insert_ne. congruence.
    + cbn [mbind Res_bind orb] in H'.
      destruct frames as [|f0 frames0] using rev_ind; [discriminate|].
      clear IHframes0 H'.
      rewrite (setUserTextFrame_overwrites_last t name value frames0 f0 E Hinv) in H.
      injection H as <-. unfold getUserTextFrame. cbn [Frames set_Frames Header].
      rewrite lookup_insert_eq. apply Forall_app in Hinv as [Hpre _].
      split; [apply getUserText_after; exact Hpre|].
      split; [reflexivity|].
      intros k Hk. apply lookup_insert_ne. congruence.
  - rewrite (setUserTextFrame_fresh t name value E) in H. injection H as <-.
    unfold getUserTextFrame. cbn [Frames set_Frames Header].
    rewrite lookup_insert_eq. split.
    + apply (getUserText_after name value [] []). constructor.
    + split; [reflexivity|].
      intros k Hk. apply lookup_insert_ne. congruence.
Qed.

Lemma substring_all (s : string) : substring 0 (String.length s) s = s.
Proof. induction s as [|a s IH]; cbn; congruence. Qed.

(** X16: [frameNameToUserFrame] accepts exactly the names made of
    ["TXXX"], any one character and a description that is not empty,
    and returns that description; the character is not compared with
    [':'], and ["TXXX:"] alone is no user frame name. *)
Theorem frameNameToUserFrame_spec (name : string) (d : string) :
  frameNameToUserFrame name = Some d <->
  exists c, name = ("TXXX" ++ String c d)%string /\ d <> ""%string.
Proof.
  unfold frameNameToUserFrame, strlen. split.
  - destruct (Z.of_nat (String.length name) <? 6) eqn:E6; [discriminate|].
    apply Z.ltb_ge in E6.
    destruct name as [|a [|b [|c [|e [|f [|g rest]]]]]]; cbn [String.length] in E6; try lia.
    cbn [substring]. destruct (bool_decide _) eqn:EB; cbn [negb]; [|discriminate].
    apply bool_decide_eq_true in EB. injection EB as -> -> -> ->.
    cbn [substring String.length Nat.sub]. rewrite substring_all.
    intros [= <-]. exists f. split; [reflexivity|discriminate].
  - intros (c & -> & Hd). destruct d as [|g rest]; [contradiction|].
    change ("TXXX" +:+ String c (String g rest))%string
      with (String "T" (String "X" (String "X" (String "X"
              (String c (String g rest)))))).
    cbn [String.length substring Nat.sub].
    replace (Z.of_nat (S (S (S (S (S (S (String.length rest))))))) <? 6) with false
      by (symmetry; apply Z.ltb_ge; lia).
    rewrite bool_decide_eq_true_2 by reflexivity. cbn [negb].
    rewrite substring_all. reflexivity.
Qed.

(** X17: after [SetTextFrame] has returned for a user frame name,
    [GetTextFrame] returns the value set for that name, whatever the
    [Value] method of the frames is; the header and every bucket other
    than ["TXXX"] are as before. *)
Theorem GetTextFrame_SetTextFrame_user (Value : Frame -> Res string)
    (t t' : Tag) (name d value : string) :
  frameNameToUserFrame name = Some d ->
  SetTextFrame t name value = Ok t' ->
  GetTextFrame Value t' name = Ok value /\
  Header t' = Header t /\
  forall k, k <> "TXXX"%string -> Frames t' !! k = Frames t !! k.
Proof.
  intros Hn H. unfold SetTextFrame in H. unfold GetTextFrame. rewrite Hn in *.
  apply getUserTextFrame_setUserTextFrame in H. tauto.
Qed.

(** X25: in the older snapshot, [SetTextFrame] returns for every name that
    starts with T other than ["TXXX"] unless the bucket is an empty
    slice, and panics for every other name; when it returns,
    [GetTextFrame] gives the value set for that name and what it gave
    before for every other name. *)
Theorem File_GetTextFrame_SetTextFrame (fm : gmap string (list Frame))
    (name value : string) :
  (is_text_id name = true -> fm !! name <> Some [] ->
   exists fm', File_SetTextFrame fm name value = Ok fm') /\
  (forall fm', File_SetTextFrame fm name value = Ok fm' ->
     is_text_id name = true /\
     File_GetTextFrame fm' name = Ok value /\
     (forall other,
        other <> name ->
        File_GetTextFrame fm' other = File_GetTextFrame fm other)).
Proof.
  unfold File_SetTextFrame, File_GetTextFrame, is_text_id, id_first_is.
  destruct name as [|c s]; [split; [discriminate|discriminate]|].
  destruct (bool_decide (c = "T"%char)) eqn:Ec; cbn [negb orb andb];
    [|split; [discriminate|discriminate]].
  destruct (bool_decide (String c s = "TXXX"%string)) eqn:Ex; cbn [negb];
    [split; [discriminate|discriminate]|].
  split.
  - intros _ Hne. destruct (fm !! String c s) as [[|f rest]|]; eauto. contradiction.
  - intros fm' H. split; [reflexivity|].
    assert (E : exists rest, fm' = <[String c s :=
                 TextInformationFrame (mkFrameHeader (String c s) 0) value :: rest]> fm).
    { destruct (fm !! String c s) as [[|f rest]|]; try discriminate;
        injection H as <-; eauto. }
    destruct E as [rest ->]. rewrite lookup_insert_eq.
    split; [reflexivity|].
    apply bool_decide_eq_false in Ex.
    intros other Hne. destruct other as [|c' s']; [reflexivity|].
    rewrite !lookup_insert_ne by congruence. reflexivity.
Qed.

Lemma comments_of_fmap (cs : list Comment) :
  comments_of (comment_frame <$> cs) = Ok cs.
Proof.
  induction cs as [|[L D T] cs IH]; [reflexivity|].
  cbn [fmap list_fmap comments_of comment_frame Comment_Language
       Comment_Description Comment_Text] in *.
  rewrite IH. reflexivity.
Qed.

(** X19: [Comments] returns the comments that [SetComments] stored, in
    their order; [SetComments] replaces the bucket ["COMM"] and leaves
    the header and the other buckets as they were. *)
Theorem Comments_SetComments (t : Tag) (comments : list Comment) :
  Comments (SetComments t comments) = Ok comments /\
  Header (SetComments t comments) = Header t /\
  (forall k, k <> "COMM"%string ->
     Frames (SetComments t comments) !! k = Frames t !! k).
Proof.
  unfold Comments, SetComments. cbn [Frames set_Frames Header].
  rewrite lookup_insert_eq. cbn [default]. split; [apply comments_of_fmap|].
  split; [reflexivity|]. intros k Hk. apply lookup_insert_ne. congruence.
Qed.


(** *** An invariant of the store *)

Lemma Store_filed_insert (fm : gmap string (list Frame)) (k : string)
    (frames : list Frame) :
  Store_filed fm -> frames <> [] -> Forall (fun f => Frame_ID f = k) frames ->
  Store_filed (<[k := frames]> fm).
Proof.
  intros H Hne Hall. apply map_Forall_insert_2; [split; assumption|exact H].
Qed.

Lemma setUserTextFrame_filed (t t' : Tag) (name value : string) :
  Store_filed (Frames t) ->
  setUserTextFrame t name value = Ok t' ->
  Store_filed (Frames t').
Proof.
  intros H. unfold setUserTextFrame.
  destruct (Frames t !! "TXXX") as [frames|] eqn:E.
  - destruct (findUserTextFrame frames name 0) as [found|msg];
      cbn [mbind Res_bind orb]; [|discriminate].
    destruct (_ <? _)%nat eqn:Ei; [|discriminate].
    intros [= <-]. cbn [Frames set_Frames].
    destruct (H _ _ E) as [Hne Hall].
    apply Store_filed_insert; [exact H| |].
    + intros E0. apply (f_equal length) in E0.
      rewrite length_insert in E0. destruct frames; [contradiction|discriminate].
    + apply Forall_insert; [exact Hall|reflexivity].
  - cbn [findUserTextFrame mbind Res_bind orb].
    rewrite bool_decide_eq_false_2 by (intros [? [=]]).
    intros [= <-]. cbn [Frames set_Frames].
    rewrite lookup_insert_eq, insert_insert_eq.
    apply Store_filed_insert; [exact H|discriminate|].
    constructor; [reflexivity|constructor].
Qed.

(** X18: the store of [NewTag] holds every frame under its own identifier
    and no empty bucket, and [SetTextFrame], [RemoveFrames] and
    [Clear] keep it so; on such a store [SetTextFrame] does not panic
    for a name that is no user frame name, and [RemoveFrames] leaves
    [HasFrame] false.  [SetComments] keeps the invariant exactly when
    it is given a comment: with none it stores an empty bucket. *)
Theorem Store_filed_kept :
  Store_filed (Frames NewTag) /\
  (forall t name value t',
     Store_filed (Frames t) -> SetTextFrame t name value = Ok t' ->
     Store_filed (Frames t')) /\
  (forall t name value,
     Store_filed (Frames t) -> frameNameToUserFrame name = None ->
     exists t', SetTextFrame t name value = Ok t') /\
  (forall t name,
     Store_filed (Frames t) ->
     Store_filed (Frames (RemoveFrames t name)) /\
     HasFrame (RemoveFrames t name) name = false) /\
  (forall t, Store_filed (Frames (Clear t))) /\
  (forall t comments,
     Store_filed (Frames t) ->
     (Store_filed (Frames (SetComments t comments)) <-> comments <> [])).
Proof.
  split; [apply map_Forall_empty|].
  split.
  { intros t name value t' H. unfold SetTextFrame.
    destruct (frameNameToUserFrame name) as [u|].
    - apply setUserTextFrame_filed. exact H.
    - destruct (Frames t !! name) as [[|f rest]|] eqn:E; [discriminate| |];
        intros [= <-]; cbn [Frames set_Frames];
        (apply Store_filed_insert; [exact H|discriminate|]).
      + destruct (H _ _ E) as [_ Hall]. apply Forall_cons in Hall as [_ Hall].
        constructor; [reflexivity|exact Hall].
      + constructor; [reflexivity|constructor]. }
  split.
  { intros t name value H Hn. unfold SetTextFrame. rewrite Hn.
    destruct (Frames t !! name) as [[|f rest]|] eqn:E; eauto.
    destruct (H _ _ E) as [Hne _]. contradiction. }
  split.
  { intros t name H. split.
    - unfold RemoveFrames. cbn [Frames set_Frames].
      apply map_Forall_delete. exact H.
    - unfold HasFrame, RemoveFrames. cbn [Frames set_Frames].
      rewrite lookup_delete_eq. apply bool_decide_eq_false_2. intros [? [=]]. }
  split; [intros t; apply map_Forall_empty|].
  intros t comments H. unfold SetComments. cbn [Frames set_Frames]. split.
  - intros H' ->. destruct (H' "COMM"%string [] (lookup_insert_eq _ _ _)) as [Hne _].
    contradiction.
  - intros Hne. apply Store_filed_insert; [exact H| |].
    + destruct comments; [contradiction|discriminate].
    + apply Forall_fmap. apply Forall_forall. intros c _. reflexivity.
Qed.

Lemma addFrame_filed (fm : gmap string (list Frame)) (frame : Frame) :
  Store_filed fm -> Store_filed (addFrame fm frame).
Proof.
  intros H. unfold addFrame. apply Store_filed_insert; [exact H| |].
  - destruct (default [] (fm !! Frame_ID frame)); discriminate.
  - apply Forall_app. split; [|constructor; [reflexivity|constructor]].
    destruct (fm !! Frame_ID frame) as [frames|] eqn:E; [|constructor].
    exact (proj2 (H _ _ E)).
Qed.


Section ParseInvariant.

Variable toUTF8 : Encoding -> list byte -> Res (list byte).
Variable readTyped : FrameType -> Reader -> FrameHeader -> Z -> Res ReadResult.
Variable upgrade : Tag -> Res Tag.

Lemma parseFrames_filed (fuel : nat) :
  forall (r : Reader) (tag : Tag) (res : Tag + Tag * error),
    Store_filed (Frames tag) ->
    parseFrames toUTF8 readTyped fuel r tag = Some (Ok res) ->
    Store_filed (Frames (match res with inl t => t | inr (t, _) => t end)).
Proof.
  induction fuel as [|fuel IH]; intros r tag res H HP; [discriminate|].
  cbn [parseFrames] in HP.
  destruct (readFrame toUTF8 readTyped r) as [[[[frame|] [e|]] r1]|msg];
    try discriminate.
  - destruct e; injection HP as <-; exact H.
  - apply (IH r1 (set_Frames tag (addFrame (Frames tag) frame)) res);
      [exact (addFrame_filed _ frame H) | exact HP].
  - destruct e; injection HP as <-; exact H.
Qed.

(** X7: every tag that [Parse] returns, with or without an error, holds
    each frame under the identifier of the frame and has no empty
    bucket, provided that [upgrade] keeps such stores so. *)
Theorem Parse_store_filed (fuel : nat) (input : list byte) (t : Tag)
    (err : option error) :
  (forall t0 t1, Store_filed (Frames t0) -> upgrade t0 = Ok t1 ->
                 Store_filed (Frames t1)) ->
  Parse toUTF8 readTyped upgrade fuel input = Some (Ok (Some t, err)) ->
  Store_filed (Frames t).
Proof.
  intros Hup. unfold Parse.
  destruct (ParseHeader (mkReader input None)) as [[header [e|]] r].
  - intros [= <- _]. apply map_Forall_empty.
  - destruct (ExtendedHeader (Flags header)); [discriminate|].
    destruct (Unsynchronisation (Flags header)); [discriminate|].
    destruct (parseFrames _ _ _ _ _) as [[[t0|[t0 e0]]|msg]|] eqn:EP;
      try discriminate.
    + pose proof (parseFrames_filed _ _ _ _ (map_Forall_empty _) EP) as H0.
      cbn in H0.
      destruct (Version header <? 1024).
      * destruct (upgrade t0) as [t1|] eqn:EU; [|discriminate].
        intros [= <- _]. exact (Hup t0 t1 H0 EU).
      * intros [= <- _]. exact H0.
    + pose proof (parseFrames_filed _ _ _ _ (map_Forall_empty _) EP) as H0.
      intros [= <- _]. exact H0.
Qed.


End ParseInvariant.

(** ** Writing a tag and parsing it again *)

Lemma plain_text_wf (k : string) (f : Frame) : plain_text k f -> Frame_wf f.
Proof. destruct f; cbn; tauto. Qed.

Lemma plain_text_ID (k : string) (f : Frame) : plain_text k f -> Frame_ID f = k.
Proof. destruct f; cbn; tauto. Qed.

(** Rebuilding the store bucket by bucket. *)
Lemma foldl_addFrame_bucket (k : string) (fs : list Frame) :
  Forall (fun f => Frame_ID f = k) fs ->
  forall (acc : gmap string (list Frame)) (v : list Frame),
    foldl addFrame (<[k := v]> acc) fs = <[k := v ++ fs]> acc.
Proof.
  induction 1 as [|f fs Hf _ IH]; intros acc v; cbn [foldl].
  - rewrite app_nil_r. reflexivity.
  - unfold addFrame at 2. rewrite Hf, lookup_insert_eq. cbn [default].
    rewrite insert_insert_eq, IH, <- app_assoc. reflexivity.
Qed.

Lemma foldl_addFrame_fresh (k : string) (fs : list Frame)
    (acc : gmap string (list Frame)) :
  fs <> [] -> Forall (fun f => Frame_ID f = k) fs -> acc !! k = None ->
  foldl addFrame acc fs = <[k := fs]> acc.
Proof.
  intros Hne Hall Hk. destruct fs as [|f fs]; [contradiction|].
  apply Forall_cons in Hall as [Hf Hall]. cbn [foldl].
  unfold addFrame at 2. rewrite Hf, Hk. cbn [default app].
  apply (foldl_addFrame_bucket k fs Hall acc [f]).
Qed.

Lemma foldl_addFrame_buckets (ps : list (string * list Frame)) :
  NoDup ps.*1 ->
  Forall (fun p => p.2 <> [] /\ Forall (fun f => Frame_ID f = p.1) p.2) ps ->
  forall acc : gmap string (list Frame),
    (forall k, k ∈ ps.*1 -> acc !! k = None) ->
    foldl addFrame acc (concat ps.*2) = list_to_map ps ∪ acc.
Proof.
  induction ps as [|[k b] ps IH]; intros Hnd Hall acc Hacc.
  - cbn. rewrite (left_id_L ∅ (∪)). reflexivity.
  - cbn [fmap list_fmap fst snd concat list_to_map foldr] in *.
    apply NoDup_cons in Hnd as [Hk Hnd].
    apply Forall_cons in Hall as [[Hne Hb] Hall]. cbn [fst snd] in Hne, Hb.
    rewrite foldl_app.
    rewrite (foldl_addFrame_fresh k b acc Hne Hb)
      by (apply Hacc; left).
    rewrite (IH Hnd Hall).
    + rewrite <- insert_union_r, insert_union_l; [reflexivity|].
      apply not_elem_of_list_to_map_1. exact Hk.
    + intros k' Hk'. rewrite lookup_insert_ne by (intros ->; contradiction).
      apply Hacc. right. exact Hk'.
Qed.


Section TagRoundTrip.

Variable toUTF8 : Encoding -> list byte -> Res (list byte).
Variable readTyped : FrameType -> Reader -> FrameHeader -> Z -> Res ReadResult.
Variable upgrade : Tag -> Res Tag.
Variable Padding : Z.
Variable range : gmap string (list Frame) -> list (string * list Frame).
Hypothesis range_perm : forall fm, range fm ≡ₚ map_to_list fm.
Hypothesis toUTF8_utf8 : forall b, toUTF8 utf8 b = Ok b.

Lemma readFrames_wire (fs : list Frame) :
  Forall (fun f => plain_text (Frame_ID f) f) fs ->
  forall (wire : list byte) (r : Reader) (tail : list byte),
    frames_wire fs = Ok wire ->
    available r = wire ++ tail ->
    readFrames toUTF8 readTyped (length fs) r
    = Some (fs, advance r (length wire)).
Proof.
  induction 1 as [|f fs Hf _ IH]; intros wire r tail Hw Ha.
  - cbn in Hw. injection Hw as <-. cbn [length readFrames].
    destruct r as [l [n|]]; unfold advance; cbn; repeat f_equal; lia.
  - cbn [frames_wire] in Hw.
    destruct f as [h text| | | | | |]; try contradiction.
    cbn [Frame_ID Frame_header plain_text] in Hf.
    destruct Hf as (_ & H1 & H2 & H3 & H4 & H5 & H6 & H7).
    destruct (readFrame_reads_text toUTF8 readTyped h text
                toUTF8_utf8 H1 H2 H3 H4 H5 H6 H7) as (w1 & Hw1 & Hread).
    rewrite Hw1 in Hw. cbn [mbind Res_bind] in Hw.
    destruct (frames_wire fs) as [w2|] eqn:Hw2; [|discriminate].
    cbn [mbind Res_bind] in Hw. injection Hw as <-.
    rewrite <- app_assoc in Ha.
    cbn [length readFrames]. rewrite (Hread r _ Ha).
    assert (Ha' : available (advance r (length w1)) = w2 ++ tail).
    { rewrite available_advance, Ha, drop_app_length. reflexivity. }
    rewrite (IH w2 _ tail eq_refl Ha'). rewrite advance_advance, length_app.
    reflexivity.
Qed.

Lemma range_plain (t : Tag) :
  Tag_plain t ->
  Forall (fun p => p.2 <> [] /\ Forall (plain_text p.1) p.2) (range (Frames t)).
Proof.
  intros H. apply Forall_forall. intros [k v] Hin.
  apply (range_lookup range range_perm) in Hin. exact (H k v Hin).
Qed.

Lemma range_rebuilds (t : Tag) :
  Tag_plain t ->
  foldl addFrame ∅ (concat (range (Frames t)).*2) = Frames t.
Proof.
  intros H. rewrite foldl_addFrame_buckets.
  - rewrite (right_id_L ∅ (∪)).
    rewrite (list_to_map_proper _ _ (range_keys_NoDup range range_perm _)
               (range_perm (Frames t))).
    apply list_to_map_to_list.
  - apply (range_keys_NoDup range range_perm).
  - eapply Forall_impl; [apply (range_plain t H)|].
    intros [k v] [Hne Hall]. split; [exact Hne|].
    eapply Forall_impl; [exact Hall|]. intros f. apply plain_text_ID.
  - intros k _. apply lookup_empty.
Qed.

(** X8: what the [Encode] of a tag writes for a store of text frames is
    parsed back into that store.  For a tag whose buckets hold text
    frames under their own identifiers, with a padding of at least four
    bytes, frames and padding below [2^17] bytes, a decoder that leaves
    UTF-8 as it is and whatever bytes follow the tag, [Parse] returns,
    for every fuel above the number of frames, the same frames under a
    header of version 2.4 whose size is that of the frames and the
    padding, and no error. *)
Theorem Parse_Tag_image (t : Tag) (F : Z) (audio : list byte) :
  Tag_plain t ->
  FramesMap_size (Frames t) = Ok F ->
  4 <= Padding ->
  F + Padding < 2 ^ 17 ->
  exists image,
    Tag_image Padding range t = Ok image /\
    len image = tagHeaderSize + F + Padding /\
    forall fuel, (length (concat (range (Frames t)).*2) < fuel)%nat ->
      Parse toUTF8 readTyped upgrade fuel (image ++ audio)
      = Some (Ok (Some (mkTag (mkTagHeader 0x0400 Byte.x00 (F + Padding))
                              (Frames t)),
                  None)).
Proof.
  intros Hplain HF HP Hsz.
  set (fs := concat (range (Frames t)).*2).
  assert (Hfs : Forall (fun f => plain_text (Frame_ID f) f) fs).
  { unfold fs. apply Forall_concat. apply Forall_fmap.
    eapply Forall_impl; [apply (range_plain t Hplain)|].
    intros [k v] [_ Hall]. cbn. eapply Forall_impl; [exact Hall|].
    intros f Hf. rewrite (plain_text_ID k f Hf). exact Hf. }
  assert (Hwf : Forall Frame_wf fs).
  { eapply Forall_impl; [exact Hfs|]. intros f. apply plain_text_wf. }
  pose proof HF as HF'.
  rewrite (FramesMap_size_range range range_perm) in HF'. fold fs in HF'.
  destruct (frames_wire_size fs F Hwf HF') as (wire & Hwire & Hlw).
  assert (HF0 : 0 <= F) by (rewrite <- Hlw; unfold len; lia).
  exists (generateHeader (F + Padding) ++ wire ++ repeat Byte.x00 (Z.to_nat Padding)).
  split.
  { unfold Tag_image. rewrite HF. cbn [mbind Res_bind]. fold fs. rewrite Hwire.
    cbn [mbind Res_bind]. unfold make_bytes.
    replace (Padding <? 0) with false by (symmetry; apply Z.ltb_ge; lia).
    reflexivity. }
  split.
  { rewrite !len_app, Hlw. unfold len.
    rewrite length_generateHeader, repeat_length. unfold tagHeaderSize. lia. }
  intros fuel Hfuel.
  set (pad := repeat Byte.x00 (Z.to_nat Padding)).
  rewrite <- !app_assoc.
  assert (HH : ParseHeader (mkReader (generateHeader (F + Padding)
                                        ++ wire ++ pad ++ audio) None)
               = ((mkTagHeader 0x0400 Byte.x00 (F + Padding), None),
                  mkReader (wire ++ pad ++ audio) None)).
  { destruct (decode_intToBytes (F + Padding) ltac:(lia))
      as (b0 & b1 & b2 & b3 & E & D).
    unfold ParseHeader, generateHeader. rewrite E, <- D. reflexivity. }
  set (header := mkTagHeader 0x0400 Byte.x00 (F + Padding)) in *.
  set (r0 := mkReader (wire ++ pad ++ audio) None) in *.
  set (lr := LimitReader r0 (Size header + tagHeaderSize)).
  assert (Ha : available lr
               = wire ++ firstn (Z.to_nat (Padding + tagHeaderSize)) (pad ++ audio)).
  { unfold lr, available, LimitReader, r0, header. cbn [N rest Size].
    rewrite take_app.
    assert (E : length wire = Z.to_nat F) by (unfold len in Hlw; lia).
    rewrite take_ge by (unfold tagHeaderSize; lia). f_equal. f_equal.
    unfold tagHeaderSize. lia. }
  pose proof (readFrames_wire fs Hfs wire lr _ Hwire Ha) as Hrf.
  assert (Hend : firstn 4 (available (advance lr (length wire)))
                 = [Byte.x00; Byte.x00; Byte.x00; Byte.x00]).
  { rewrite available_advance, Ha, drop_app_length.
    rewrite take_take. rewrite Nat.min_l by (unfold tagHeaderSize; lia).
    rewrite take_app. unfold pad.
    destruct (Z.to_nat Padding) as [|[|[|[|p]]]] eqn:EP; try lia.
    reflexivity. }
  destruct (readFrame_at_end toUTF8 readTyped _ (or_intror Hend))
    as [r' Hend'].
  unfold Parse. rewrite HH.
  change (ExtendedHeader (Flags header)) with false.
  change (Unsynchronisation (Flags header)) with false. cbv iota.
  fold lr. replace fuel with (length fs + S (fuel - S (length fs)))%nat by lia.
  rewrite (parseFrames_readFrames toUTF8 readTyped _ _ _ _ _ _ Hrf).
  cbn [parseFrames]. rewrite Hend'.
  change (Version header <? 1024) with false. cbv iota.
  change (Frames NewTag) with (∅ : gmap string (list Frame)).
  unfold set_Frames. cbn [Frames Header].
  unfold fs. rewrite (range_rebuilds t Hplain). reflexivity.
Qed.


End TagRoundTrip.

(** ** Rebuilding the file in memory *)

Section RebuildFacts.

Variable Time : Type.
Variable Format : Time -> string.
Variable Padding : Z.
Variable InMemoryThreshold : Z.
Variable range : gmap string (list Frame) -> list (string * list Frame).
Hypothesis range_perm : forall fm, range fm ≡ₚ map_to_list fm.

Lemma length_Tag_image (t : Tag) (image : list byte) :
  Tag_image Padding range t = Ok image -> (10 <= length image)%nat.
Proof.
  unfold Tag_image.
  destruct (FramesMap_size (Frames t)) as [F|]; [|discriminate].
  cbn [mbind Res_bind].
  destruct (frames_wire _) as [wire|]; [|discriminate]. cbn [mbind Res_bind].
  destruct (make_bytes Padding) as [pad|]; [|discriminate]. cbn [mbind Res_bind].
  intros H. apply Ok_inj in H. subst image.
  rewrite length_app, length_generateHeader. lia.
Qed.

Lemma Copy_audio_buffer (f : File) (w : World) :
  faults w = [] ->
  Copy_audio TheBuffer f w
  = Ok (None, with_buffer w (buffer w ++ audio_bytes f (disk w))).
Proof.
  intros Hf. destruct w as [d p tm b fl]. cbn [faults] in Hf. subst fl.
  unfold Copy_audio, next_fault.
  cbv beta iota delta [mbind IO_bind mret IO_ret get_world].
  cbn [disk pos temp buffer faults].
  destruct (audio_bytes f d) as [|x l] eqn:E.
  - unfold with_buffer. cbn [disk pos temp buffer faults].
    rewrite app_nil_r. reflexivity.
  - reflexivity.
Qed.

Lemma saveNew_commit_buffer (F : Z) (f : File) (w : World) :
  faults w = [] -> buffer w <> [] ->
  saveNew_commit Padding F TheBuffer f w
  = Ok ((None,
         set_tag f (set_Header (tag f)
                      (mkTagHeader 0x0400 (Flags (Header (tag f)))
                                   (F + Padding)))),
        mkWorld (buffer w) (length (buffer w)) (temp w) [] []).
Proof.
  intros Hf Hb. destruct w as [d p tm b fl]. cbn [faults buffer] in Hf, Hb.
  subst fl. destruct b as [|x l]; [contradiction|].
  unfold saveNew_commit, truncate, Copy_back, File_Seek0, File_Write, next_fault.
  cbv beta iota delta [mbind IO_bind mret IO_ret get_world put_file put_buffer].
  cbn [disk pos temp buffer faults].
  rewrite write_at_0, drop_nil, app_nil_r. reflexivity.
Qed.

(** X20: the Rebuild path run to its end.  For a file below the in-memory
    threshold, when no storage operation fails, [Save] returns no error
    and the file holds what the [Encode] of the tag, stamped at the
    time [SaveTo] reads the clock, writes, followed by the bytes of the
    old file that the audio section covers.  The handle records
    version 2.4 and the size of the frames as stamped at the first
    reading of the clock plus the padding; its audio section is not
    moved. *)
Theorem Save_rebuild_in_memory
    (now now' : Time) (f : File) (w : World) (F : Z) (image : list byte) :
  Frames (tag f) !! "TDTG" <> Some [] ->
  FramesMap_size (Frames (stamped Time Format (tag f) now)) = Ok F ->
  HasTag f = false \/ Size (Header (tag f)) < F ->
  fileSize f < InMemoryThreshold ->
  faults w = [] ->
  Tag_image Padding range (stamped Time Format (tag f) now') = Ok image ->
  exists (f' : File) (w' : World),
    Save Time Format Padding InMemoryThreshold range now now' f w
    = Ok ((None, f'), w') /\
    disk w' = image ++ audio_bytes f (disk w) /\
    Header (tag f')
    = mkTagHeader 0x0400 (Flags (Header (tag f))) (F + Padding) /\
    Frames (tag f') = Frames (stamped Time Format (tag f) now') /\
    audio_base f' = audio_base f /\ audio_n f' = audio_n f.
Proof.
  intros Hne HF Hpath Hmem Hfaults Himg.
  rewrite (Save_paths Time Format Padding InMemoryThreshold range now now' f w F Hne HF).
  replace (HasTag f && (F <=? Size (Header (tag f)))) with false.
  2:{ symmetry. destruct Hpath as [-> | Hlt]; [reflexivity|].
      apply andb_false_iff. right. apply Z.leb_gt. exact Hlt. }
  pose proof (length_Tag_image _ _ Himg) as Hlen.
  destruct w as [d p tm b fl]. cbn [faults] in Hfaults. subst fl.
  unfold saveNew, saveNew_scratch. cbn [fileSize set_tag].
  replace (fileSize f <? InMemoryThreshold) with true
    by (symmetry; apply Z.ltb_lt; exact Hmem).
  unfold SaveTo.
  cbv beta iota delta [mbind IO_bind mret IO_ret put_buffer].
  cbn [disk pos temp buffer faults tag set_tag].
  rewrite (Tag_Encode_buffer Time Format Padding range now').
  2:{ rewrite stamped_lookup. discriminate. }
  rewrite stamped_twice, Himg.
  cbn [set_tag tag].
  rewrite Copy_audio_buffer by reflexivity.
  unfold with_buffer. cbn [disk pos temp buffer faults app].
  rewrite saveNew_commit_buffer; [|reflexivity|].
  2:{ cbn [buffer]. intros E. apply (f_equal length) in E.
      rewrite length_app in E. cbn [length] in E. lia. }
  cbn [saveNew_cleanup buffer temp tag set_tag Header set_Header Frames].
  cbv beta iota delta [mret IO_ret].
  eexists _, _. split; [reflexivity|]. cbn [disk tag Header Frames].
  split; [reflexivity|]. split; [reflexivity|]. split; [reflexivity|].
  split; reflexivity.
Qed.


(** X26: a file that carries a tag of reserved size [S] below [2^17],
    whose comments have a language of three bytes and whose stamped
    frames add up to [F <= S], is saved in place.  When no storage
    operation fails, [Save] returns no error; the file then starts with
    a header that [ParseHeader] reads as version 2.4 with size [S],
    followed by the frames and [S - F] zero bytes; from offset [10 + S]
    on it holds the bytes it held there before, and its length is the
    same.  The recorded size stays [S]. *)
Theorem Save_inplace_reads_back
    (now now' : Time) (f : File) (w : World) (F : Z) :
  let t1 := stamped Time Format (tag f) now in
  let S := Size (Header (tag f)) in
  let audio_offset := Z.to_nat (tagHeaderSize + S) in
  Frames (tag f) !! "TDTG" <> Some [] ->
  Tag_wf (tag f) ->
  FramesMap_size (Frames t1) = Ok F ->
  HasTag f = true ->
  F <= S -> S < 2 ^ 17 ->
  faults w = [] ->
  tagHeaderSize + S <= len (disk w) ->
  exists (wire : list byte) (f' : File) (w' : World),
    frames_wire (concat (range (Frames t1)).*2) = Ok wire /\
    len wire = F /\
    Save Time Format Padding InMemoryThreshold range now now' f w
    = Ok ((None, f'), w') /\
    ParseHeader (mkReader (disk w') None)
    = ((mkTagHeader 0x0400 Byte.x00 S, None),
       mkReader (skipn 10 (disk w')) None) /\
    firstn (Z.to_nat S) (skipn 10 (disk w'))
    = wire ++ repeat Byte.x00 (Z.to_nat (S - F)) /\
    skipn audio_offset (disk w') = skipn audio_offset (disk w) /\
    length (disk w') = length (disk w) /\
    Size (Header (tag f')) = S /\
    Frames (tag f') = Frames t1.
Proof.
  intros t1 S audio_offset Hne Hwf HF Htag HFS HS Hfaults Hlen.
  destruct (Save_inplace_image Time Format Padding InMemoryThreshold
              range range_perm now now' f w F Hne Hwf HF Htag HFS Hfaults Hlen)
    as (wire & f' & w' & Hwire & Hlw & Hsave & Hd & Hskip & Hl & Hsz & Hfr).
  fold S in Hd, Hsz. fold t1 in Hwire, Hfr.
  exists wire, f', w'.
  split; [exact Hwire|]. split; [exact Hlw|]. split; [exact Hsave|].
  assert (HF0 : 0 <= F) by (rewrite <- Hlw; unfold len; lia).
  destruct (decode_intToBytes S ltac:(lia)) as (b0 & b1 & b2 & b3 & E & D).
  assert (Hgen : generateHeader S
                 = [Byte.x49; Byte.x44; Byte.x33; Byte.x04; Byte.x00; Byte.x00;
                    b0; b1; b2; b3]).
  { unfold generateHeader. rewrite E. reflexivity. }
  rewrite Hgen in Hd.
  split; [|split; [|split; [exact Hskip|split; [exact Hl|split; assumption]]]].
  - rewrite Hd. unfold ParseHeader.
    match goal with
    | |- context [mkReader (?hd ++ ?tl) None] =>
        rewrite (readHeader_well_formed (mkReader (hd ++ tl) None)
                   Byte.x04 Byte.x00 Byte.x00 b0 b1 b2 b3 tl eq_refl)
          by (vm_compute; split; discriminate)
    end.
    rewrite D. reflexivity.
  - rewrite Hd. rewrite drop_app_length' by reflexivity.
    rewrite app_assoc, take_app_length'; [reflexivity|].
    rewrite length_app, repeat_length. unfold len in Hlw. lia.
Qed.

End RebuildFacts.

(** X21: the audio section that [NewFile] sets up starts ten bytes and the
    recorded tag size into the file, with or without a tag in the file
    and runs to its end: for a tag of size 0, as [Parse] returns for a
    file without a tag, the first ten bytes of the file are not part
    of it. *)
Theorem NewFile_audio_section (t : Tag) (d : list byte) :
  0 <= Size (Header t) ->
  audio_bytes (NewFile (len d) t) d
  = skipn (Z.to_nat (tagHeaderSize + Size (Header t))) d /\
  (Size (Header t) = 0 -> audio_bytes (NewFile (len d) t) d = skipn 10 d).
Proof.
  intros HS.
  assert (E : audio_bytes (NewFile (len d) t) d
              = skipn (Z.to_nat (tagHeaderSize + Size (Header t))) d).
  { unfold audio_bytes, NewFile. cbn [audio_n audio_base].
    apply take_ge. rewrite length_drop. unfold len, tagHeaderSize. lia. }
  split; [exact E|]. intros H0. rewrite E, H0. reflexivity.
Qed.


(** ** The older snapshot *)

Lemma shifted_byte (v k : Z) : 8 <= k -> byte_to_Z (byte_of_Z (Z.shiftl v k)) = 0.
Proof.
  intros Hk. rewrite byte_to_of_Z, Z.shiftl_mul_pow2 by lia.
  replace k with (k - 8 + 8) by lia. rewrite Z.pow_add_r by lia.
  change (2 ^ 8) with 256. rewrite Z.mul_assoc. apply Z.mod_mul. lia.
Qed.

Lemma desynchsafeInt_main_low (b0 b1 b2 b3 : byte) :
  desynchsafeInt_main (b0, b1, b2, b3)
  = Z.lor (Z.shiftl (byte_to_Z b2) 7) (byte_to_Z b3).
Proof.
  unfold desynchsafeInt_main. rewrite !shifted_byte by lia. reflexivity.
Qed.

(** X23: the [desynchsafeInt] of the older snapshot shifts its two upper
    bytes as bytes, so they never reach the result: the size it
    decodes depends on the two lower bytes only and is below [2^15]. *)
Theorem desynchsafeInt_main_two_bytes (b0 b1 b2 b3 c0 c1 : byte) :
  desynchsafeInt_main (b0, b1, b2, b3) = desynchsafeInt_main (c0, c1, b2, b3) /\
  0 <= desynchsafeInt_main (b0, b1, b2, b3) < 2 ^ 15 /\
  desynchsafeInt_main (b0, b1, b2, b3)
  = Z.lor (Z.shiftl (byte_to_Z b2) 7) (byte_to_Z b3).
Proof.
  rewrite !desynchsafeInt_main_low. split; [reflexivity|]. split; [|reflexivity].
  pose proof (byte_to_Z_range b2) as H2. pose proof (byte_to_Z_range b3) as H3.
  assert (H : Z.land (Z.lor (Z.shiftl (byte_to_Z b2) 7) (byte_to_Z b3)) (Z.ones 15)
              = Z.lor (Z.shiftl (byte_to_Z b2) 7) (byte_to_Z b3)).
  { apply Z.bits_inj'. intros n Hn. rewrite Z.land_spec, Z.testbit_ones by lia.
    destruct (Z.lt_ge_cases n 15) as [Hlt|Hge].
    - replace (0 <=? n) with true by (symmetry; apply Z.leb_le; lia).
      replace (n <? 15) with true by (symmetry; apply Z.ltb_lt; lia).
      apply andb_true_r.
    - replace (n <? 15) with false by (symmetry; apply Z.ltb_ge; lia).
      rewrite andb_false_r, andb_false_r. symmetry.
      rewrite Z.lor_spec, Z.shiftl_spec by lia.
      rewrite (high_bits (byte_to_Z b2) 8), (high_bits (byte_to_Z b3) 8) by lia.
      reflexivity. }
  rewrite Z.land_ones in H by lia. rewrite <- H. apply Z.mod_pos_bound. lia.
Qed.

Lemma decode_main_intToBytes (x : Z) :
  0 <= x < 2 ^ 14 ->
  exists b0 b1 b2 b3,
    intToBytes (synchsafeInt x) = [b0; b1; b2; b3] /\
    desynchsafeInt_main (b0, b1, b2, b3) = x.
Proof.
  intros Hx. pose proof (high_bits x 14 ltac:(lia) Hx) as Hhi.
  unfold intToBytes. do 4 eexists. split; [reflexivity|].
  rewrite desynchsafeInt_main_low, !byte_to_of_Z.
  change 256 with (2 ^ 8). rewrite <- !Z.land_ones by lia.
  unfold synchsafeInt.
  apply Z.bits_inj'. intros n Hn.
  destruct (Z.lt_ge_cases n 16) as [Hlt|Hge].
  { rewrite <- (Z2Nat.id n Hn).
    assert (Hm : (Z.to_nat n < 16)%nat) by lia.
    generalize dependent (Z.to_nat n). clear Hn. intros m Hm.
    do 16 (destruct m as [|m]; [clear Hm; simpl Z.of_nat; bits_at x Hhi|]).
    exfalso. lia. }
  repeat bits_step. rewrite (Hhi n) by lia.
  replace (n - 7 <? 8) with false by (symmetry; apply Z.ltb_ge; lia).
  replace (n <? 8) with false by (symmetry; apply Z.ltb_ge; lia).
  rewrite !andb_false_r. reflexivity.
Qed.

Lemma code_units_parity (bigEndian : bool) (input : list byte) :
  is_Some (code_units bigEndian input) <-> Nat.even (length input) = true.
Proof.
  revert input.
  assert (H : forall n input, (length input <= n)%nat ->
                is_Some (code_units bigEndian input)
                <-> Nat.even (length input) = true).
  { induction n as [|n IH]; intros input Hn.
    - destruct input; [|cbn in Hn; lia]. cbn. split; eauto.
    - destruct input as [|a [|b rest]].
      + cbn. split; eauto.
      + cbn. split; [intros [? [=]]|discriminate].
      + cbn [code_units length]. rewrite fmap_is_Some.
        change (Nat.even (S (S (length rest)))) with (Nat.even (length rest)).
        apply IH. cbn [length] in Hn. lia. }
  intros input. apply (H (length input)). lia.
Qed.

(** X24: [utf16ToUTF8] returns exactly on the inputs of an even length of
    at least two bytes; on an empty text, a single byte or an odd
    length it panics with an index out of range. *)
Theorem utf16ToUTF8_returns (utf16_Decode : list Z -> list byte)
    (input : list byte) :
  (exists out, utf16ToUTF8 utf16_Decode input = Ok out)
  <-> (2 <= length input)%nat /\ Nat.even (length input) = true.
Proof.
  unfold utf16ToUTF8. destruct input as [|a [|b rest]].
  - split; [intros [? [=]]|cbn; lia].
  - split; [intros [? [=]]|cbn; lia].
  - change (Nat.even (length (a :: b :: rest)))
      with (Nat.even (length rest)).
    assert (Hrest : (exists out, (uint16s ← or_panic (code_units true rest);
                                  Ok (utf16_Decode uint16s)) = Ok out)
                    <-> Nat.even (length rest) = true).
    { rewrite <- (code_units_parity true).
      destruct (code_units true rest); cbn; split; eauto.
      - intros [? [=]].
      - intros [? [=]]. }
    assert (Hrest' : (exists out, (uint16s ← or_panic (code_units false rest);
                                   Ok (utf16_Decode uint16s)) = Ok out)
                     <-> Nat.even (length rest) = true).
    { rewrite <- (code_units_parity false).
      destruct (code_units false rest); cbn; split; eauto.
      - intros [? [=]].
      - intros [? [=]]. }
    assert (Hall : (exists out, (uint16s ← or_panic (code_units true (a :: b :: rest));
                                 Ok (utf16_Decode uint16s)) = Ok out)
                   <-> Nat.even (length rest) = true).
    { rewrite <- (code_units_parity true rest). cbn [code_units].
      destruct (code_units true rest); cbn; split; eauto.
      - intros [? [=]].
      - intros [? [=]]. }
    destruct (byte_is a 255 && byte_is b 254);
      [|destruct (byte_is a 254 && byte_is b 255)];
      (split; [intros H; split; [cbn [length]; lia|]|intros [_ H]]);
      first [apply Hrest'; exact H | apply Hrest; exact H | apply Hall; exact H].
Qed.

Lemma read_bytes_app (r : Reader) (bs tail : list byte) :
  available r = bs ++ tail ->
  read_bytes r (length bs) = (bs, advance r (length bs)) /\
  available (advance r (length bs)) = tail.
Proof.
  intros H. destruct (ReadFull_app r bs tail H) as [R A].
  unfold read_bytes. rewrite R. split; [reflexivity|exact A].
Qed.

Lemma has_prefix_nul (s : list byte) :
  has_prefix [Byte.x00] s
  = match s with b :: _ => byte_is b 0 | [] => false end.
Proof.
  destruct s as [|b s]; [reflexivity|]. cbn [has_prefix]. rewrite andb_true_r.
  destruct (byte_is b 0) eqn:E.
  - apply byte_is_0 in E. subst b. reflexivity.
  - apply bool_decide_eq_false_2. intros <-. discriminate.
Qed.

Lemma cut_sep_nul (s : list byte) : cut_sep [Byte.x00] s = cut_nul s.
Proof.
  induction s as [|b s IH]; [reflexivity|].
  cbn [cut_sep cut_nul]. rewrite has_prefix_nul, IH. reflexivity.
Qed.

Lemma bytes_SplitN_two (pre post : list byte) :
  Forall (fun b => b <> Byte.x00) pre ->
  bytes_SplitN (pre ++ Byte.x00 :: post) [Byte.x00] 2 = [pre; post].
Proof.
  intros H. change (bytes_SplitN ?s ?sep 2) with (split_sep 1 sep s).
  cbn [split_sep]. rewrite cut_sep_nul, (cut_nul_first pre post H). reflexivity.
Qed.


(** ** Frames of an identifier that is not known *)

Lemma desynchsafeInt_main_nonneg (b : byte * byte * byte * byte) :
  0 <= desynchsafeInt_main b.
Proof.
  destruct b as [[[b0 b1] b2] b3]. rewrite desynchsafeInt_main_low.
  apply Z.lor_nonneg. split.
  - apply Z.shiftl_nonneg. apply byte_to_Z_range.
  - apply byte_to_Z_range.
Qed.

Lemma typedReader_None (name : string) :
  typedReader name = None ->
  name <> "TXXX"%string /\ name <> "WXXX"%string
  /\ name <> "UFID"%string /\ name <> "COMM"%string.
Proof.
  unfold typedReader. intros H.
  repeat match type of H with
         | (if bool_decide ?P then _ else _) = _ =>
             destruct (bool_decide P) eqn:?; [discriminate H|]
         end.
  repeat match goal with
         | E : bool_decide _ = false |- _ => apply bool_decide_eq_false in E
         end.
  tauto.
Qed.

Section UnsupportedFrames.

Variable toUTF8 : Encoding -> list byte -> Res (list byte).
Variable readTyped : FrameType -> Reader -> FrameHeader -> Z -> Res ReadResult.
Variable utf16_Decode : list Z -> list byte.

(** The older [readFrame] on a header that the current one takes for a
    frame it does not know: the payload is read into a slice that is
    dropped, and the frame returned holds the header alone. *)
Lemma readFrame_main_unsupported (r r' : Reader) (hb : list byte) :
  ReadFull r 10 = ((hb, None), r') ->
  forallb id_byte_ok (headerBytes_ID hb) = true ->
  unrecognized (id (frameHeader hb)) = true ->
  readFrame_main utf16_Decode r
  = Ok ((Some (UnsupportedFrame (frameHeader hb) []), None),
        snd (Read r' (Z.to_nat (frameSize_main hb)))).
Proof.
  intros HR Hok Hun.
  apply ReadFull_ok_inv in HR as (Hl & -> & tail & Ha).
  destruct hb as [|i0 [|i1 [|i2 [|i3 [|s0 [|s1 [|s2 [|s3 [|f0 [|f1 [|]]]]]]]]]]];
    try discriminate Hl.
  change ([i0; i1; i2; i3; s0; s1; s2; s3; f0; f1] ++ tail)
    with ([i0; i1; i2; i3] ++ [s0; s1; s2; s3] ++ [f0; f1] ++ tail) in Ha.
  destruct (read_bytes_app r _ _ Ha) as [R1 A1]. cbn [length] in R1, A1.
  destruct (read_bytes_app _ _ _ A1) as [R2 A2].
  cbn [length] in R2, A2. rewrite advance_advance in R2, A2.
  cbn [Nat.add] in R2, A2.
  destruct (read_bytes_app _ _ _ A2) as [R3 A3].
  cbn [length] in R3, A3. rewrite advance_advance in R3, A3.
  cbn [Nat.add] in R3, A3.
  unfold readFrame_main. rewrite R1, R2, R3. cbn [nth].
  change (mkFrameHeader (string_of_list_byte [i0; i1; i2; i3])
            (wrap_uint16 (int16_of_bytes f0 f1)))
    with (frameHeader [i0; i1; i2; i3; s0; s1; s2; s3; f0; f1]).
  change (desynchsafeInt_main (s0, s1, s2, s3))
    with (frameSize_main [i0; i1; i2; i3; s0; s1; s2; s3; f0; f1]).
  set (hb := [i0; i1; i2; i3; s0; s1; s2; s3; f0; f1]) in *.
  assert (H0 : byte_is i0 0 = false).
  { change (headerBytes_ID hb) with [i0; i1; i2; i3] in Hok.
    cbn [forallb] in Hok. apply andb_true_iff in Hok as [Hok _].
    destruct (byte_is i0 0) eqn:E; [|reflexivity].
    apply byte_is_0 in E. subst i0. discriminate Hok. }
  rewrite H0.
  unfold unrecognized in Hun.
  apply andb_true_iff in Hun as [Hun HT].
  apply andb_true_iff in Hun as [Htx Hln].
  apply negb_true_iff in Htx, Hln. apply bool_decide_eq_true in HT.
  destruct (typedReader_None _ HT) as (N1 & N2 & N3 & N4).
  rewrite Htx, Hln.
  rewrite !bool_decide_eq_false_2 by assumption.
  unfold make_bytes.
  replace (frameSize_main hb <? 0) with false
    by (symmetry; apply Z.ltb_ge; apply desynchsafeInt_main_nonneg).
  destruct (Read (advance r 10) (Z.to_nat (frameSize_main hb)))
    as [[skipped err] r'']. reflexivity.
Qed.

(** C8 as the code has it, in each snapshot.  For an identifier it does
    not recognise, the current [readFrame] returns an
    [UnsupportedFrame] whose [Data] is what the one [Read] of
    [frameSize] bytes delivered: a prefix of the input after the
    header, and all of the payload when the reader has it.  The older
    [readFrame], whose snapshot has the [size] and [WriteTo] of that
    frame type, reads the payload into a slice that it drops and
    returns the header alone; that frame counts for size 0 and its
    [WriteTo] writes nothing: the frame is dropped on save, not
    re-emitted. *)
Theorem unsupported_frame_captured_or_skipped
    (r r' : Reader) (hb : list byte) :
  ReadFull r 10 = ((hb, None), r') ->
  forallb id_byte_ok (headerBytes_ID hb) = true ->
  Compressed (frameFlags hb) || Encrypted (frameFlags hb)
    || Grouped (frameFlags hb) = false ->
  unrecognized (id (frameHeader hb)) = true ->
  (exists (Data : list byte) (err : option error) (r'' : Reader),
     Read r' (Z.to_nat (frameSize_of hb)) = ((Data, err), r'') /\
     readFrame toUTF8 readTyped r
     = Ok ((Some (UnsupportedFrame (frameHeader hb) Data), err), r'') /\
     Data = firstn (length Data) (rest r') /\
     ((Z.to_nat (frameSize_of hb) <= length (available r'))%nat ->
      Data = firstn (Z.to_nat (frameSize_of hb)) (rest r'))) /\
  (exists (skipped : list byte) (err : option error) (r'' : Reader),
     Read r' (Z.to_nat (frameSize_main hb)) = ((skipped, err), r'') /\
     readFrame_main utf16_Decode r
     = Ok ((Some (UnsupportedFrame (frameHeader hb) []), None), r'') /\
     Frame_size (UnsupportedFrame (frameHeader hb) []) = Ok 0 /\
     Frame_WriteTo (UnsupportedFrame (frameHeader hb) []) = Ok []).
Proof.
  intros HR Hok Hfl Hun. split.
  - destruct (Read r' (Z.to_nat (frameSize_of hb))) as [[Data err] r''] eqn:ER.
    exists Data, err, r''. split; [reflexivity|].
    apply orb_false_iff in Hfl as [Hfl HG].
    apply orb_false_iff in Hfl as [HC HE].
    unfold unrecognized in Hun.
    apply andb_true_iff in Hun as [Hun HT].
    apply andb_true_iff in Hun as [Htx Hln].
    apply negb_true_iff in Htx, Hln. apply bool_decide_eq_true in HT.
    destruct (Read_prefix _ _ _ _ _ ER) as [Hp Hall].
    repeat split; try assumption.
    rewrite (readFrame_header toUTF8 readTyped _ _ _ HR). unfold readFrame_body.
    rewrite (valid_id_not_padding _ Hok), Hok. cbn [negb].
    cbn [flags frameHeader]. rewrite HC, HE, HG.
    change (mkFrameHeader (string_of_list_byte (headerBytes_ID hb))
              (frameFlags hb)) with (frameHeader hb).
    rewrite Htx, Hln, HT, ER. reflexivity.
  - destruct (Read r' (Z.to_nat (frameSize_main hb)))
      as [[skipped err] r''] eqn:ER.
    exists skipped, err, r''. split; [reflexivity|].
    split; [|split; reflexivity].
    rewrite (readFrame_main_unsupported _ _ _ HR Hok Hun), ER. reflexivity.
Qed.

End UnsupportedFrames.

(** C8 as stated fails in the snapshot that has the [size] and [WriteTo]
    of [UnsupportedFrame]: its [readFrame] takes the payload 1 2 3 of
    [sample_ZZZZ] off the reader and returns a frame without it, whose
    size is 0, not 3 + 10, and whose [WriteTo] writes nothing. *)
Lemma unsupported_frame_not_reemitted :
  let r := mkReader sample_ZZZZ None in
  let f := UnsupportedFrame (mkFrameHeader "ZZZZ" 0) [] in
  readFrame_main (λ _, []) r = Ok ((Some f, None), mkReader [] None) /\
  Frame_size f = Ok 0 /\
  Frame_size f <> Ok (len (bytes_of_Z [1; 2; 3]) + 10) /\
  Frame_WriteTo f = Ok [] /\
  Frame_wire f <> Ok sample_ZZZZ.
Proof.
  cbv zeta. split; [vm_compute; reflexivity|].
  split; [reflexivity|]. split; [|split; [reflexivity|]].
  - intros H. inversion H.
  - intros H. inversion H.
Qed.

(** [unsupported_frame_captured_or_skipped] on that frame. *)
Lemma unsupported_frame_captured_or_skipped_witness :
  let r := mkReader sample_ZZZZ None in
  let h := mkFrameHeader "ZZZZ" 0 in
  readFrame toUTF8_plain readTyped_absent r
  = Ok ((Some (UnsupportedFrame h (bytes_of_Z [1; 2; 3])), None),
        mkReader [] None) /\
  readFrame_main (λ _, []) r
  = Ok ((Some (UnsupportedFrame h []), None), mkReader [] None) /\
  Frame_size (UnsupportedFrame h []) = Ok 0 /\
  Frame_WriteTo (UnsupportedFrame h []) = Ok [].
Proof.
  destruct (unsupported_frame_captured_or_skipped
              toUTF8_plain readTyped_absent (λ _, [])
              (mkReader sample_ZZZZ None)
              (mkReader (skipn 10 sample_ZZZZ) None)
              (firstn 10 sample_ZZZZ)
              ltac:(vm_compute; reflexivity) ltac:(vm_compute; reflexivity)
              ltac:(vm_compute; reflexivity) ltac:(vm_compute; reflexivity))
    as [(Data & err & r1 & ER & HF & _) (skipped & err' & r2 & ER' & HM & HS & HW)].
  cbv zeta.
  vm_compute in ER. injection ER as <- <- <-.
  vm_compute in ER'. injection ER' as <- <- <-.
  split; [exact HF|]. split; [exact HM|]. split; [exact HS|exact HW].
Defined.


Section OlderRoundTrip.

Variable utf16_Decode : list Z -> list byte.

Local Abbreviation readFrame_main' := (readFrame_main utf16_Decode).

Lemma latin1_text_iso (nul_too : bool) (s : string) :
  latin1_text nul_too s ->
  exists l,
    utf8ToISO88591 (bytes_of s) = Some l /\
    iso88591ToUTF8 l = bytes_of s /\
    (nul_too = true -> Forall (fun b => b <> Byte.x00) l) /\
    len l <= strlen s.
Proof.
  intros (l & E & H). exists l. rewrite E.
  split; [apply utf8ToISO88591_latin1|].
  assert (H80 : Forall (fun c => c <> Byte.x80) l).
  { eapply Forall_impl; [exact H|]. cbn. tauto. }
  assert (RT : iso88591ToUTF8 l = utf8_of_latin1 l).
  { unfold iso88591ToUTF8, utf8_of_latin1. clear E H.
    induction H80 as [|c l Hc _ IH]; [reflexivity|].
    cbn [flat_map]. rewrite IH, (iso88591ToUTF8_step_point c Hc).
    reflexivity. }
  split; [congruence|]. split.
  - intros ->. eapply Forall_impl; [exact H|]. cbn. tauto.
  - rewrite <- length_bytes_of, E. unfold len, utf8_of_latin1.
    clear. induction l as [|c l IH]; cbn [flat_map length]; [lia|].
    rewrite length_app. unfold utf8_of_latin1_point at 1.
    destruct (byte_to_Z c <? 128); cbn [length]; lia.
Qed.

Lemma readFrame_main_header (h : FrameHeader) (size : Z) (r : Reader)
    (tail : list byte) :
  String.length (id h) = 4%nat -> 0 <= flags h < 2 ^ 16 ->
  0 <= size < 2 ^ 14 ->
  available r = serialize h size ++ tail ->
  exists ID Size Flags,
    read_bytes r 4 = (ID, advance r 4) /\
    read_bytes (advance r 4) 4 = (Size, advance r 8) /\
    read_bytes (advance r 8) 2 = (Flags, advance r 10) /\
    available (advance r 10) = tail /\
    ID = bytes_of (id h) /\
    mkFrameHeader (string_of_list_byte ID)
      (wrap_uint16 (int16_of_bytes (nth 0 Flags Byte.x00)
                                   (nth 1 Flags Byte.x00))) = h /\
    desynchsafeInt_main (nth 0 Size Byte.x00, nth 1 Size Byte.x00,
                         nth 2 Size Byte.x00, nth 3 Size Byte.x00) = size.
Proof.
  intros Hid Hfl Hsz Ha. rewrite serialize_bytes in Ha by exact Hid.
  destruct (decode_main_intToBytes size Hsz) as (b0 & b1 & b2 & b3 & Es & D).
  rewrite Es in Ha.
  destruct (string_length_4 _ Hid) as (a & b & c & d & E).
  assert (L4 : length (bytes_of (id h)) = 4%nat) by (rewrite E; reflexivity).
  rewrite <- !app_assoc in Ha.
  destruct (read_bytes_app r _ _ Ha) as [R1 A1]. rewrite L4 in R1, A1.
  destruct (read_bytes_app _ [b0; b1; b2; b3] _ A1) as [R2 A2].
  cbn [length] in R2, A2. rewrite advance_advance in R2, A2. cbn [Nat.add] in R2, A2.
  destruct (read_bytes_app _ [_; _] _ A2) as [R3 A3].
  cbn [length] in R3, A3. rewrite advance_advance in R3, A3. cbn [Nat.add] in R3, A3.
  eexists _, _, _. split; [exact R1|]. split; [exact R2|]. split; [exact R3|].
  split; [exact A3|]. split; [reflexivity|]. split.
  - unfold bytes_of. rewrite string_of_list_byte_of_string. cbn [nth].
    rewrite flags_roundtrip by exact Hfl. destruct h; reflexivity.
  - cbn [nth]. exact D.
Qed.

Lemma first_id_byte (name : string) :
  is_text_id name = true \/ is_link_id name = true
  \/ name = "TXXX"%string \/ name = "WXXX"%string
  \/ name = "UFID"%string \/ name = "COMM"%string ->
  byte_is (nth 0 (bytes_of name) Byte.x00) 0 = false.
Proof.
  unfold is_text_id, is_link_id, id_first_is.
  intros [H|[H|[->|[->|[->| ->]]]]]; try reflexivity;
    (destruct name as [|a s]; [discriminate|]);
    apply andb_true_iff in H as [H _]; apply bool_decide_eq_true in H;
    subst a; reflexivity.
Qed.

Ltac open_header Hid Hfl Hsz Ha :=
  let ID := fresh "ID" in let Size := fresh "Size" in
  let Flags := fresh "Flags" in
  let R1 := fresh "R1" in let R2 := fresh "R2" in let R3 := fresh "R3" in
  let A := fresh "A" in let EI := fresh "EI" in let EH := fresh "EH" in
  let ES := fresh "ES" in
  destruct (readFrame_main_header _ _ _ _ Hid Hfl Hsz Ha)
    as (ID & Size & Flags & R1 & R2 & R3 & A & EI & EH & ES);
  unfold readFrame_main; rewrite R1, R2, R3, EH, ES; rewrite EI;
  clear R1 R2 R3 EH ES.

(** X22: the older snapshot reads back what it writes.  For a text, user
    text, unique file identifier, link, user link or comment frame
    that meets [reads_back], [readFrame] of the older snapshot, on a
    reader that delivers the bytes of [WriteTo] and then anything,
    returns that very frame and leaves the reader behind those
    bytes. *)
Theorem readFrame_main_roundtrip (f : Frame) :
  reads_back f ->
  exists wire,
    Frame_wire f = Ok wire /\
    forall (r : Reader) (tail : list byte),
      available r = wire ++ tail ->
      readFrame_main' r = Ok ((Some f, None), advance r (length wire)).
Proof.
  intros H.
  destruct f as [h T|h D T|h O I|h U|h D U|h L D T|h Data];
    cbv [reads_back] in H; cbn [Frame_header] in H;
    destruct H as (Hid & Hfl & Hf); [| | | | | |contradiction].
  - destruct Hf as (Htext & Htrda & Hsz).
    assert (Hsz0 : 0 <= strlen T + 1 < 2 ^ 14) by (unfold strlen in *; lia).
    exists (serialize h (strlen T + 1) ++ utf8byte ++ bytes_of T). split.
    { unfold Frame_wire. cbn [Frame_WriteTo Frame_size].
      rewrite bool_decide_eq_false_2 by exact Htrda.
      cbn [mbind Res_bind concat]. unfold frameLength.
      replace (10 + strlen T + 1 - 10) with (strlen T + 1) by lia.
      rewrite app_nil_r. reflexivity. }
    intros r tail Ha. rewrite <- app_assoc in Ha.
    open_header Hid Hfl Hsz0 Ha.
    rewrite (first_id_byte (id h)) by tauto. rewrite Htext.
    replace (strlen T + 1 - 1) with (strlen T) by lia.
    unfold make_bytes.
    replace (strlen T <? 0) with false
      by (symmetry; apply Z.ltb_ge; unfold strlen; lia).
    cbn [mbind Res_bind].
    rewrite <- app_assoc in A.
    destruct (read_bytes_app _ utf8byte _ A) as [R4 A4].
    change (length utf8byte) with 1%nat in R4, A4. rewrite R4.
    assert (Hl : Z.to_nat (strlen T) = length (bytes_of T)).
    { pose proof (length_bytes_of T) as L. unfold len in L. lia. }
    destruct (read_bytes_app _ (bytes_of T) _ A4) as [R5 A5].
    rewrite Hl, R5. cbn [nth utf8byte].
    change (reencode utf16_Decode (bytes_of T) utf8) with (Ok (bytes_of T)).
    cbn [mbind Res_bind].
    unfold bytes_of at 1. rewrite string_of_list_byte_of_string.
    rewrite !advance_advance. do 3 f_equal.
    rewrite !length_app, length_serialize. reflexivity.
  - destruct Hf as (Hx & HD & Hsz).
    assert (Hsz0 : 0 <= strlen D + strlen T + 2 < 2 ^ 14)
      by (unfold strlen in *; lia).
    exists (serialize h (strlen D + strlen T + 2) ++ utf8byte ++ bytes_of D
              ++ nul ++ bytes_of T). split.
    { unfold Frame_wire. cbn [Frame_WriteTo Frame_size].
      cbn [mbind Res_bind concat]. unfold frameLength.
      replace (10 + strlen D + strlen T + 2 - 10)
        with (strlen D + strlen T + 2) by lia.
      rewrite app_nil_r. reflexivity. }
    intros r tail Ha. rewrite <- app_assoc in Ha.
    open_header Hid Hfl Hsz0 Ha.
    rewrite (first_id_byte (id h)) by tauto. rewrite Hx.
    change (is_text_id "TXXX") with false. change (is_link_id "TXXX") with false.
    cbv iota. rewrite bool_decide_eq_true_2 by reflexivity.
    unfold readTXXXFrame.
    rewrite <- app_assoc in A.
    destruct (read_bytes_app _ utf8byte _ A) as [R4 A4].
    change (length utf8byte) with 1%nat in R4, A4. rewrite R4.
    unfold make_bytes.
    replace (strlen D + strlen T + 2 - 1 <? 0) with false
      by (symmetry; apply Z.ltb_ge; unfold strlen; lia).
    cbn [mbind Res_bind].
    assert (A4' : available (advance (advance r 10) 1)
                  = (bytes_of D ++ nul ++ bytes_of T) ++ tail)
      by (rewrite A4, <- !app_assoc; reflexivity).
    destruct (read_bytes_app _ _ _ A4') as [R5 A5].
    assert (Hl : Z.to_nat (strlen D + strlen T + 2 - 1)
                 = length (bytes_of D ++ nul ++ bytes_of T)).
    { rewrite !length_app. pose proof (length_bytes_of D) as L1.
      pose proof (length_bytes_of T) as L2. unfold len in L1, L2.
      change (length nul) with 1%nat. lia. }
    rewrite Hl, R5. cbn [nth utf8byte].
    change (splitNullN_main ?d utf8 2) with (bytes_SplitN d [Byte.x00] 2).
    change nul with [Byte.x00]. cbn [app].
    rewrite (bytes_SplitN_two (bytes_of D) (bytes_of T) HD).
    cbn [part lookup list_lookup or_panic mbind Res_bind].
    change (reencode utf16_Decode ?b utf8) with (Ok b).
    cbn [mbind Res_bind].
    unfold bytes_of. rewrite !string_of_list_byte_of_string.
    rewrite !advance_advance. do 3 f_equal.
    rewrite !length_app, length_serialize. reflexivity.
  - destruct Hf as (Hx & HO & Hsz).
    destruct (latin1_text_iso _ _ HO) as (l & El & Eback & Hnul & Hll).
    specialize (Hnul eq_refl).
    assert (Hsz0 : 0 <= len I + len l + 1 < 2 ^ 14)
      by (unfold strlen, len in *; lia).
    exists (serialize h (len I + len l + 1) ++ l ++ nul ++ I). split.
    { unfold Frame_wire. cbn [Frame_WriteTo Frame_size]. rewrite El.
      cbn [or_panic mbind Res_bind concat]. unfold frameLength.
      replace (10 + len I + len l + 1 - 10) with (len I + len l + 1) by lia.
      rewrite app_nil_r. reflexivity. }
    intros r tail Ha. rewrite <- app_assoc in Ha.
    open_header Hid Hfl Hsz0 Ha.
    rewrite (first_id_byte (id h)) by tauto. rewrite Hx.
    change (is_text_id "UFID") with false. change (is_link_id "UFID") with false.
    cbv iota. rewrite (bool_decide_eq_false_2 ("UFID"%string = "TXXX"%string))
      by discriminate.
    rewrite (bool_decide_eq_false_2 ("UFID"%string = "WXXX"%string))
      by discriminate.
    rewrite bool_decide_eq_true_2 by reflexivity.
    unfold readUFIDFrame, make_bytes.
    replace (len I + len l + 1 <? 0) with false
      by (symmetry; apply Z.ltb_ge; lia).
    cbn [mbind Res_bind].
    assert (A' : available (advance r 10) = (l ++ nul ++ I) ++ tail)
      by (rewrite A, <- !app_assoc; reflexivity).
    destruct (read_bytes_app _ _ _ A') as [R5 A5].
    assert (Hl : Z.to_nat (len I + len l + 1) = length (l ++ nul ++ I)).
    { rewrite !length_app. change (length nul) with 1%nat. unfold len. lia. }
    rewrite Hl, R5. change nul with [Byte.x00]. cbn [app].
    rewrite (bytes_SplitN_two l I Hnul).
    cbn [part lookup list_lookup or_panic mbind Res_bind].
    change (reencode utf16_Decode ?b iso88591) with (Ok (iso88591ToUTF8 b)).
    cbn [mbind Res_bind]. rewrite Eback.
    unfold bytes_of. rewrite string_of_list_byte_of_string.
    rewrite !advance_advance. do 3 f_equal.
    rewrite !length_app, length_serialize. reflexivity.
  - destruct Hf as (Hlink & HU & Hsz).
    destruct (latin1_text_iso _ _ HU) as (l & El & Eback & _ & Hll).
    assert (Hsz0 : 0 <= len l < 2 ^ 14) by (unfold strlen, len in *; lia).
    exists (serialize h (len l) ++ l). split.
    { unfold Frame_wire. cbn [Frame_WriteTo Frame_size]. rewrite El.
      cbn [or_panic mbind Res_bind concat]. unfold frameLength.
      replace (10 + len l - 10) with (len l) by lia.
      rewrite app_nil_r. reflexivity. }
    intros r tail Ha. rewrite <- app_assoc in Ha.
    open_header Hid Hfl Hsz0 Ha.
    rewrite (first_id_byte (id h)) by tauto.
    assert (Htext : is_text_id (id h) = false).
    { unfold is_link_id, is_text_id, id_first_is in *.
      destruct (id h) as [|a s0]; [discriminate|].
      apply andb_true_iff in Hlink as [Hl _]. apply bool_decide_eq_true in Hl.
      subst a. reflexivity. }
    rewrite Htext, Hlink. unfold make_bytes.
    replace (len l <? 0) with false by (symmetry; apply Z.ltb_ge; lia).
    cbn [mbind Res_bind].
    destruct (read_bytes_app _ _ _ A) as [R5 A5].
    replace (Z.to_nat (len l)) with (length l) by (unfold len; lia).
    rewrite R5, Eback.
    unfold bytes_of. rewrite string_of_list_byte_of_string.
    rewrite !advance_advance. do 3 f_equal.
    rewrite !length_app, length_serialize. reflexivity.
  - destruct Hf as (Hx & HD & HU & Hsz).
    destruct (latin1_text_iso _ _ HU) as (l & El & Eback & _ & Hll).
    assert (Hsz0 : 0 <= strlen D + len l + 2 < 2 ^ 14)
      by (unfold strlen, len in *; lia).
    exists (serialize h (strlen D + len l + 2) ++ utf8byte ++ bytes_of D
              ++ nul ++ l). split.
    { unfold Frame_wire. cbn [Frame_WriteTo Frame_size]. rewrite El.
      cbn [or_panic mbind Res_bind concat]. unfold frameLength.
      replace (10 + strlen D + len l + 2 - 10)
        with (strlen D + len l + 2) by lia.
      rewrite app_nil_r. reflexivity. }
    intros r tail Ha. rewrite <- app_assoc in Ha.
    open_header Hid Hfl Hsz0 Ha.
    rewrite (first_id_byte (id h)) by tauto. rewrite Hx.
    change (is_text_id "WXXX") with false. change (is_link_id "WXXX") with false.
    cbv iota. rewrite (bool_decide_eq_false_2 ("WXXX"%string = "TXXX"%string))
      by discriminate.
    rewrite bool_decide_eq_true_2 by reflexivity.
    unfold readWXXXFrame.
    rewrite <- app_assoc in A.
    destruct (read_bytes_app _ utf8byte _ A) as [R4 A4].
    change (length utf8byte) with 1%nat in R4, A4. rewrite R4.
    unfold make_bytes.
    replace (strlen D + len l + 2 - 1 <? 0) with false
      by (symmetry; apply Z.ltb_ge; unfold strlen, len; lia).
    cbn [mbind Res_bind].
    assert (A4' : available (advance (advance r 10) 1)
                  = (bytes_of D ++ nul ++ l) ++ tail)
      by (rewrite A4, <- !app_assoc; reflexivity).
    destruct (read_bytes_app _ _ _ A4') as [R5 A5].
    assert (Hl : Z.to_nat (strlen D + len l + 2 - 1)
                 = length (bytes_of D ++ nul ++ l)).
    { rewrite !length_app. pose proof (length_bytes_of D) as L1.
      unfold len in *. change (length nul) with 1%nat. lia. }
    rewrite Hl, R5. cbn [nth utf8byte].
    change (splitNullN_main ?d utf8 2) with (bytes_SplitN d [Byte.x00] 2).
    change nul with [Byte.x00]. cbn [app].
    rewrite (bytes_SplitN_two (bytes_of D) l HD).
    cbn [part lookup list_lookup or_panic mbind Res_bind].
    change (reencode utf16_Decode ?b utf8) with (Ok b).
    cbn [mbind Res_bind]. rewrite Eback.
    unfold bytes_of. rewrite !string_of_list_byte_of_string.
    rewrite !advance_advance. do 3 f_equal.
    rewrite !length_app, length_serialize. reflexivity.
  - destruct Hf as (Hx & HL & HD & Hsz).
    assert (Hsz0 : 0 <= strlen D + strlen T + 5 < 2 ^ 14)
      by (unfold strlen in *; lia).
    exists (serialize h (strlen D + strlen T + 5) ++ utf8byte ++ bytes_of L
              ++ bytes_of D ++ nul ++ bytes_of T). split.
    { unfold Frame_wire. cbn [Frame_WriteTo Frame_size].
      cbn [mbind Res_bind concat]. unfold frameLength.
      replace (10 + strlen D + strlen T + 5 - 10)
        with (strlen D + strlen T + 5) by lia.
      rewrite app_nil_r. reflexivity. }
    intros r tail Ha. rewrite <- app_assoc in Ha.
    open_header Hid Hfl Hsz0 Ha.
    rewrite (first_id_byte (id h)) by tauto. rewrite Hx.
    change (is_text_id "COMM") with false. change (is_link_id "COMM") with false.
    cbv iota. rewrite (bool_decide_eq_false_2 ("COMM"%string = "TXXX"%string))
      by discriminate.
    rewrite (bool_decide_eq_false_2 ("COMM"%string = "WXXX"%string))
      by discriminate.
    rewrite (bool_decide_eq_false_2 ("COMM"%string = "UFID"%string))
      by discriminate.
    rewrite bool_decide_eq_true_2 by reflexivity.
    unfold readCOMMFrame, make_bytes.
    replace (strlen D + strlen T + 5 - 4 <? 0) with false
      by (symmetry; apply Z.ltb_ge; unfold strlen; lia).
    cbn [mbind Res_bind].
    rewrite <- app_assoc in A.
    destruct (read_bytes_app _ utf8byte _ A) as [R4 A4].
    change (length utf8byte) with 1%nat in R4, A4. rewrite R4.
    rewrite <- app_assoc in A4.
    destruct (read_bytes_app _ (bytes_of L) _ A4) as [R5 A5].
    assert (HL3 : length (bytes_of L) = 3%nat).
    { pose proof (length_bytes_of L) as L1. unfold len in L1. lia. }
    rewrite HL3 in R5, A5. rewrite R5.
    assert (A5' : available (advance (advance (advance r 10) 1) 3)
                  = (bytes_of D ++ nul ++ bytes_of T) ++ tail)
      by (rewrite A5, <- !app_assoc; reflexivity).
    destruct (read_bytes_app _ _ _ A5') as [R6 A6].
    assert (Hl : Z.to_nat (strlen D + strlen T + 5 - 4)
                 = length (bytes_of D ++ nul ++ bytes_of T)).
    { rewrite !length_app. pose proof (length_bytes_of D) as L1.
      pose proof (length_bytes_of T) as L2. unfold len in L1, L2.
      change (length nul) with 1%nat. lia. }
    rewrite Hl, R6. cbn [nth utf8byte].
    change (splitNullN_main ?d utf8 2) with (bytes_SplitN d [Byte.x00] 2).
    change nul with [Byte.x00]. cbn [app].
    rewrite (bytes_SplitN_two (bytes_of D) (bytes_of T) HD).
    cbn [part lookup list_lookup or_panic mbind Res_bind].
    change (reencode utf16_Decode ?b utf8) with (Ok b).
    cbn [mbind Res_bind].
    unfold bytes_of. rewrite !string_of_list_byte_of_string.
    rewrite !advance_advance. do 3 f_equal.
    rewrite !length_app, length_serialize.
    change (length utf8byte) with 1%nat.
    fold (bytes_of L). rewrite HL3. reflexivity.
Qed.


End OlderRoundTrip.

(** ** The further properties on sample inputs *)

(** [readHeader_generateHeader] for a size of 64 bytes, a frame
    following the header. *)
Lemma readHeader_generateHeader_witness :
  length (generateHeader 64) = 10%nat /\
  readHeader (mkReader (generateHeader 64 ++ sample_TIT2) None)
  = ((mkTagHeader 0x0400 Byte.x00 64, None), mkReader sample_TIT2 None) /\
  ParseHeader (mkReader (generateHeader 64 ++ sample_TIT2) None)
  = ((mkTagHeader 0x0400 Byte.x00 64, None), mkReader sample_TIT2 None).
Proof. apply (readHeader_generateHeader 64 sample_TIT2). lia. Defined.

(** [Parse_not_a_tag] on thirteen bytes that start with ["TIT2"]. *)
Lemma Parse_not_a_tag_witness :
  Parse toUTF8_plain readTyped_absent upgrade_nothing 0
    (bytes_of_Z [0x49; 0x44; 0x33; 5; 0; 0; 0])
  = Some (Ok (Some NewTag, Some ErrUnexpectedEOF)).
Proof.
  destruct (Parse_not_a_tag toUTF8_plain readTyped_absent upgrade_nothing
              (bytes_of_Z [0x49; 0x44; 0x33; 5; 0; 0; 0]) 0)
    as (e & HP & _ & Hshort & _).
  - intros v0 v1 fl s0 s1 s2 s3 tail H. vm_compute in H. discriminate.
  - rewrite <- (Hshort ltac:(vm_compute; lia)). exact HP.
Defined.

(** [Parse_rejects_flagged_header] on a version 2.4 header with the
    extended-header flag. *)
Lemma Parse_rejects_flagged_header_witness :
  Parse toUTF8_plain readTyped_absent upgrade_nothing 0
    ([Byte.x49; Byte.x44; Byte.x33; Byte.x04; Byte.x00; Byte.x40;
      Byte.x00; Byte.x00; Byte.x00; Byte.x40] ++ sample_TIT2)
  = Some (Ok (None, Some ErrNoExtendedHeader)).
Proof.
  apply (Parse_rejects_flagged_header toUTF8_plain readTyped_absent
           upgrade_nothing Byte.x04 Byte.x00 Byte.x40 Byte.x00 Byte.x00
           Byte.x00 Byte.x40 sample_TIT2 0).
  - split; vm_compute; discriminate.
  - reflexivity.
Defined.

(** [Parse_ends_at_padding] on the sample file: one frame, then the
    padding. *)
Lemma Parse_ends_at_padding_witness :
  exists store : gmap string (list Frame),
    store !! "TIT2"%string
    = Some [TextInformationFrame (mkFrameHeader "TIT2" 0) "Hi"] /\
    (forall k, k <> "TIT2"%string -> store !! k = None) /\
    Parse toUTF8_plain readTyped_absent upgrade_nothing 2 sample_disk
    = Some (Ok (Some (mkTag (mkTagHeader 0x0400 Byte.x00 64) store), None)).
Proof.
  destruct (proj2 (Parse_ends_at_padding
                     toUTF8_plain readTyped_absent upgrade_nothing
                     sample_disk (mkTagHeader 0x0400 Byte.x00 64)
                     (mkReader (skipn 10 sample_disk) None)
                     (mkReader (skipn 23 sample_disk) (Some 61))
                     1 [TextInformationFrame (mkFrameHeader "TIT2" 0) "Hi"]
                     ltac:(vm_compute; reflexivity) eq_refl eq_refl
                     ltac:(vm_compute; reflexivity)
                     ltac:(right; vm_compute; reflexivity)) 2%nat ltac:(lia))
    as (store & Hk & HP).
  exists store.
  split; [rewrite Hk; vm_compute; reflexivity|].
  split; [|exact HP].
  intros k H1. rewrite Hk. unfold bucket_of, frames_of_ID.
  rewrite !filter_cons, filter_nil. cbn [Frame_ID Frame_header id].
  destruct (decide ("TIT2"%string = k)) as [E|_]; [congruence|].
  reflexivity.
Defined.

(** [readFrame_empty_text_frame_panics] on a [TIT2] header of size 0. *)
Lemma readFrame_empty_text_frame_panics_witness :
  let hb := bytes_of_Z [84; 73; 84; 50; 0; 0; 0; 0; 0; 0] in
  readFrame toUTF8_plain readTyped_absent (mkReader hb None)
  = Panic "runtime error: makeslice: len out of range" /\
  forall fuel t,
    parseFrames toUTF8_plain readTyped_absent (S fuel) (mkReader hb None) t
    = Some (Panic "runtime error: makeslice: len out of range").
Proof.
  refine (readFrame_empty_text_frame_panics toUTF8_plain readTyped_absent
            (mkReader (bytes_of_Z [84; 73; 84; 50; 0; 0; 0; 0; 0; 0]) None)
            (mkReader [] None)
            (bytes_of_Z [84; 73; 84; 50; 0; 0; 0; 0; 0; 0]) _ _ _ _ _).
  - vm_compute. reflexivity.
  - vm_compute. reflexivity.
  - vm_compute. reflexivity.
  - vm_compute. reflexivity.
  - vm_compute. reflexivity.
Defined.

(** [Parse_store_filed] on the sample file. *)
Lemma Parse_store_filed_witness :
  Store_filed (Frames (sample_tag 0x0400 64)).
Proof.
  refine (Parse_store_filed toUTF8_plain readTyped_absent upgrade_nothing
            2 sample_disk (sample_tag 0x0400 64) None _ _).
  - intros t0 t1 H E. injection E as <-. exact H.
  - vm_compute. reflexivity.
Defined.

Lemma sample_tag_plain (version size : Z) : Tag_plain (sample_tag version size).
Proof.
  unfold Tag_plain, sample_tag. cbn [Frames].
  apply map_Forall_insert_2; [|apply map_Forall_empty].
  split; [discriminate|]. constructor; [|constructor].
  cbn [plain_text id flags]. split; [reflexivity|]. split; [reflexivity|].
  split; [discriminate|]. split; [reflexivity|]. split; [reflexivity|].
  split; [lia|]. split; [reflexivity|]. vm_compute. reflexivity.
Qed.

(** [Parse_Tag_image] on the tag with one title frame, the default
    padding and five bytes of audio. *)
Lemma Parse_Tag_image_witness :
  exists image,
    Tag_image default_Padding range_map_to_list (sample_tag 0 0) = Ok image /\
    len image = tagHeaderSize + 13 + default_Padding /\
    forall fuel,
      (length (concat (range_map_to_list (Frames (sample_tag 0 0))).*2) < fuel)%nat ->
      Parse toUTF8_plain readTyped_absent upgrade_nothing fuel
        (image ++ bytes_of_Z [1; 2; 3; 4; 5])
      = Some (Ok (Some (mkTag (mkTagHeader 0x0400 Byte.x00
                                 (13 + default_Padding))
                              (Frames (sample_tag 0 0))),
                  None)).
Proof.
  refine (Parse_Tag_image toUTF8_plain readTyped_absent upgrade_nothing
            default_Padding range_map_to_list range_map_to_list_perm _
            (sample_tag 0 0) 13 (bytes_of_Z [1; 2; 3; 4; 5]) _ _ _ _).
  - intros b. reflexivity.
  - apply sample_tag_plain.
  - vm_compute. reflexivity.
  - vm_compute. discriminate.
  - vm_compute. reflexivity.
Defined.

(** [WriteTo_length] on a comment with a language of two bytes: one
    byte less than [size()] is written. *)
Lemma WriteTo_length_witness :
  let f := CommentFrame (mkFrameHeader "COMM" 0) "en" "d" "t" in
  exists wire,
    Frame_wire f = Ok wire /\ len wire = 17 + size_excess f /\
    (len wire = 17 <-> Frame_wf f).
Proof.
  refine (WriteTo_length
            (CommentFrame (mkFrameHeader "COMM" 0) "en" "d" "t") 17 _).
  reflexivity.
Defined.

(** [latin1_roundtrip_without_U0080] on ["Aé"]. *)
Lemma latin1_roundtrip_without_U0080_witness :
  iso88591ToUTF8 <$> utf8ToISO88591 (utf8_of_latin1 [Byte.x41; Byte.xe9])
  = Some (utf8_of_latin1 [Byte.x41; Byte.xe9]).
Proof.
  apply (latin1_roundtrip_without_U0080 [Byte.x41; Byte.xe9]).
  constructor; [discriminate|]. constructor; [discriminate|]. constructor.
Defined.

(** [utf8ToISO88591_dangling] on ["A"] followed by the lead byte 0xC3. *)
Lemma utf8ToISO88591_dangling_witness :
  let h := mkFrameHeader "WOAR" 0 in
  utf8ToISO88591 (utf8_of_latin1 [Byte.x41] ++ [Byte.xc3]) = None /\
  Frame_size
    (URLLinkFrame h
       (string_of_list_byte (utf8_of_latin1 [Byte.x41] ++ [Byte.xc3])))
  = Panic index_out_of_range.
Proof.
  apply (utf8ToISO88591_dangling [Byte.x41] Byte.xc3 (mkFrameHeader "WOAR" 0)).
  vm_compute. reflexivity.
Defined.

(** [splitNullN_single_byte_two] on ["A"], the terminator and ["B\x00C"],
    and on ["D"]. *)
Lemma splitNullN_single_byte_two_witness :
  splitNullN ([Byte.x41] ++ Byte.x00 :: [Byte.x42; Byte.x00; Byte.x43]) utf8 2
  = Some [[Byte.x41]; [Byte.x42; Byte.x00; Byte.x43]] /\
  splitNullN [Byte.x44] utf8 2 = Some [[Byte.x44]].
Proof.
  apply (splitNullN_single_byte_two utf8 [Byte.x41]
           [Byte.x42; Byte.x00; Byte.x43] [Byte.x44]).
  - left. reflexivity.
  - constructor; [discriminate|constructor].
  - constructor; [discriminate|constructor].
Defined.

(** [splitNullN_single_byte_join] on ["A\x00B\x00C"] asked for two
    pieces. *)
Lemma splitNullN_single_byte_join_witness :
  let data := [Byte.x41; Byte.x00; Byte.x42; Byte.x00; Byte.x43] in
  exists pieces,
    splitNullN data iso88591 2 = Some pieces /\
    (2 = 0 -> pieces = []) /\
    (2 <> 0 -> join_nul pieces = data /\ pieces <> []) /\
    (0 < 2 -> len pieces <= 2).
Proof.
  apply (splitNullN_single_byte_join iso88591
           [Byte.x41; Byte.x00; Byte.x42; Byte.x00; Byte.x43] 2).
  right. reflexivity.
Defined.

(** [splitNullN_utf16_no_terminator] on ["A"] in UTF-16LE. *)
Lemma splitNullN_utf16_no_terminator_witness :
  let us := [(Byte.x41, Byte.x00)] in
  splitNullN [] utf16bom 2 = Some [] /\
  (us <> [] -> splitNullN (units us) utf16bom 2 = Some [units us]) /\
  splitNullN (units us ++ [Byte.x00]) utf16bom 2 = None.
Proof.
  apply (splitNullN_utf16_no_terminator utf16bom 2 [(Byte.x41, Byte.x00)]).
  - discriminate.
  - discriminate.
  - constructor; [discriminate|constructor].
Defined.

(** [GetTextFrame_SetTextFrame_user] on the first user text frame of an
    empty tag. *)
Lemma GetTextFrame_SetTextFrame_user_witness :
  let t' := set_Frames NewTag (<["TXXX" := [userText "a" "1"]]> (Frames NewTag)) in
  GetTextFrame (λ _, Ok ""%string) t' "TXXX:a" = Ok "1"%string /\
  Header t' = Header NewTag /\
  forall k, k <> "TXXX"%string -> Frames t' !! k = Frames NewTag !! k.
Proof.
  refine (GetTextFrame_SetTextFrame_user (λ _, Ok ""%string) NewTag
            (set_Frames NewTag
               (<["TXXX" := [userText "a" "1"]]> (Frames NewTag)))
            "TXXX:a" "a" "1" _ _).
  - reflexivity.
  - unfold SetTextFrame. change (frameNameToUserFrame "TXXX:a") with (Some "a"%string).
    apply setUserTextFrame_fresh. reflexivity.
Defined.

(** [Save_rebuild_in_memory] on the sample file, opened as a file
    without a tag. *)
Lemma Save_rebuild_in_memory_witness :
  let f := NewFile 79 (sample_tag 0 0) in
  let image :=
    match Tag_image default_Padding range_map_to_list
            (stamped string render (tag f) sample_later) with
    | Ok image => image
    | Panic _ => []
    end in
  exists (f' : File) (w' : World),
    Save string render default_Padding default_InMemoryThreshold
      range_map_to_list sample_time sample_later f sample_world
    = Ok ((None, f'), w') /\
    disk w' = image ++ audio_bytes f (disk sample_world) /\
    Header (tag f')
    = mkTagHeader 0x0400 (Flags (Header (tag f))) (43 + default_Padding) /\
    Frames (tag f') = Frames (stamped string render (tag f) sample_later) /\
    audio_base f' = audio_base f /\ audio_n f' = audio_n f.
Proof.
  intros f image.
  refine (Save_rebuild_in_memory string render default_Padding
            default_InMemoryThreshold range_map_to_list sample_time
            sample_later f sample_world 43 image _ _ _ _ _ _).
  - apply sample_tag_TDTG.
  - vm_compute. reflexivity.
  - left. reflexivity.
  - vm_compute. reflexivity.
  - reflexivity.
  - vm_compute. reflexivity.
Defined.

(** [NewFile_audio_section] on the sample file opened without a tag. *)
Lemma NewFile_audio_section_witness :
  audio_bytes (NewFile (len sample_disk) NewTag) sample_disk
  = skipn (Z.to_nat (tagHeaderSize + Size (Header NewTag))) sample_disk /\
  (Size (Header NewTag) = 0 ->
   audio_bytes (NewFile (len sample_disk) NewTag) sample_disk
   = skipn 10 sample_disk).
Proof.
  apply (NewFile_audio_section NewTag sample_disk). cbn. lia.
Defined.

(** [readFrame_main_roundtrip] on a user text frame. *)
Lemma readFrame_main_roundtrip_witness :
  exists wire,
    Frame_wire (userText "a" "1") = Ok wire /\
    forall (r : Reader) (tail : list byte),
      available r = wire ++ tail ->
      readFrame_main (λ _, []) r
      = Ok ((Some (userText "a" "1"), None), advance r (length wire)).
Proof.
  apply (readFrame_main_roundtrip (λ _, []) (userText "a" "1")).
  cbv [reads_back userText]. cbn [Frame_header id flags].
  split; [reflexivity|]. split; [lia|]. split; [reflexivity|].
  split; [|vm_compute; reflexivity].
  constructor; [discriminate|constructor].
Defined.


(** ** The in-place path where it does not keep the file *)

(** C4 fails on the code in two ways.  A comment whose language has four
    bytes, stored by [SetComments], counts for one byte less in
    [size()] than [WriteTo] writes: with [F = S = 45] the save is done
    in place, returns no error and writes 46 bytes of frames, the last
    of them, the last digit of the time stamp, over the first byte of
    the audio.  A tag that reserves
    [2^17] bytes is saved in place under a header that
    [generateHeader] sizes to 393216 bytes, by the defect of
    [synchsafeInt] at [2^17], while the handle records [2^17]. *)
Theorem Save_inplace_failures :
  (let f := NewFile 58 sample_engl in
     let w := mkWorld sample_engl_disk 0 None [] [] in
     let save :=
       Save string render default_Padding default_InMemoryThreshold
         range_map_to_list sample_time sample_later in
     HasTag f = true /\
     Comments sample_engl = Ok [mkComment "engl" "" ""] /\
     FramesMap_size (Frames (stamped string render sample_engl sample_time))
     = Ok 45 /\
     ParseHeader (mkReader sample_engl_disk None)
     = ((mkTagHeader 0x0400 Byte.x00 45, None),
        mkReader (skipn 10 sample_engl_disk) None) /\
     audio_bytes f sample_engl_disk = bytes_of_Z [255; 1; 2] /\
     save f w
     = saveInplace range_map_to_list 45
         (set_tag f (stamped string render sample_engl sample_time)) w /\
     exists (f' : File) (w' : World),
       save f w = Ok ((None, f'), w') /\
       length (disk w') = 58%nat /\
       audio_bytes f (disk w') = bytes_of_Z [53; 1; 2]) /\
  (let f := NewFile 131087 (sample_tag 0x0400 131072) in
     let w := mkWorld sample_wide_disk 0 None [] [] in
     fst (ParseHeader (mkReader sample_wide_disk None))
     = (mkTagHeader 0x0400 Byte.x00 131072, None) /\
     exists (f' : File) (w' : World),
       Save string render default_Padding default_InMemoryThreshold
         range_map_to_list sample_time sample_later f w
       = Ok ((None, f'), w') /\
       Size (Header (tag f')) = 131072 /\
       fst (ParseHeader (mkReader (disk w') None))
       = (mkTagHeader 0x0400 Byte.x00 393216, None)).
Proof.
  split.
  { cbv zeta. split; [reflexivity|]. split; [vm_compute; reflexivity|].
    split; [vm_compute; reflexivity|].
    split; [vm_compute; reflexivity|]. split; [vm_compute; reflexivity|].
    split; [vm_compute; reflexivity|].
    eexists _, _. split; [vm_compute; reflexivity|].
    split; vm_compute; reflexivity. }
  cbv zeta. split.
  - unfold ParseHeader, sample_wide_disk.
    rewrite (readHeader_well_formed _ Byte.x04 Byte.x00 Byte.x00
               Byte.x00 Byte.x08 Byte.x00 Byte.x00
               (repeat Byte.x00 (Z.to_nat 131072) ++ bytes_of_Z [1; 2; 3; 4; 5]))
      by (reflexivity || (vm_compute; split; discriminate)).
    reflexivity.
  - destruct (Save_inplace_image string render default_Padding
                default_InMemoryThreshold range_map_to_list
                range_map_to_list_perm sample_time sample_later
                (NewFile 131087 (sample_tag 0x0400 131072))
                (mkWorld sample_wide_disk 0 None [] []) 43)
      as (wire & f' & w' & _ & _ & HS & Hd & _ & _ & Hsize & _).
    + apply sample_tag_TDTG.
    + apply sample_tag_wf.
    + vm_compute. reflexivity.
    + reflexivity.
    + vm_compute. discriminate.
    + reflexivity.
    + cbn [disk]. unfold sample_wide_disk, len.
      rewrite !length_app, repeat_length. cbn [length bytes_of_Z map].
      unfold tagHeaderSize. cbn [Size Header tag NewFile sample_tag]. lia.
    + exists f', w'. split; [exact HS|]. split; [exact Hsize|].
      rewrite Hd. cbn [Size Header tag NewFile sample_tag].
      change (generateHeader 131072)
        with [Byte.x49; Byte.x44; Byte.x33; Byte.x04; Byte.x00; Byte.x00;
              Byte.x00; Byte.x18; Byte.x00; Byte.x00].
      match goal with
      | |- context [?hd ++ wire ++ ?rest] => generalize (wire ++ rest)
      end.
      intros tail. unfold ParseHeader.
      rewrite (readHeader_well_formed
                 (mkReader ([Byte.x49; Byte.x44; Byte.x33; Byte.x04; Byte.x00;
                             Byte.x00; Byte.x00; Byte.x18; Byte.x00; Byte.x00]
                              ++ tail) None)
                 Byte.x04 Byte.x00 Byte.x00
                 Byte.x00 Byte.x18 Byte.x00 Byte.x00 tail eq_refl)
        by (vm_compute; split; discriminate).
      reflexivity.
Qed.

(** [Save_inplace_reads_back] on the sample file: 43 bytes of frames
    in the 64 reserved. *)
Lemma Save_inplace_reads_back_witness :
  exists (f' : File) (w' : World),
    Save string render default_Padding default_InMemoryThreshold
      range_map_to_list sample_time sample_later
      (NewFile 79 (sample_tag 0x0400 64)) sample_world
    = Ok ((None, f'), w') /\
    ParseHeader (mkReader (disk w') None)
    = ((mkTagHeader 0x0400 Byte.x00 64, None),
       mkReader (skipn 10 (disk w')) None) /\
    skipn 74 (disk w') = skipn 74 sample_disk /\
    length (disk w') = length sample_disk /\
    Size (Header (tag f')) = 64.
Proof.
  destruct (Save_inplace_reads_back string render default_Padding
              default_InMemoryThreshold range_map_to_list
              range_map_to_list_perm sample_time sample_later
              (NewFile 79 (sample_tag 0x0400 64)) sample_world 43)
    as (wire & f' & w' & _ & _ & HS & HP & _ & Hskip & Hlen & Hsize & _).
  - apply sample_tag_TDTG.
  - apply sample_tag_wf.
  - vm_compute. reflexivity.
  - reflexivity.
  - vm_compute. discriminate.
  - vm_compute. reflexivity.
  - reflexivity.
  - vm_compute. discriminate.
  - exists f', w'.
    exact (conj HS (conj HP (conj Hskip (conj Hlen Hsize)))).
Defined.
